(** * Uplift statistics and numeric sanitisation of the causal engine

    A shallow embedding of [backend/causal_engine.py]:
    [safe_float], [compute_uplift_summary] and the confidence-interval
    fallback of [estimate_causal_effect].

    Python floats and numpy [float64] values are IEEE 754 binary64 numbers.
    They are modelled by the standard library's [spec_float] with
    [prec = 53] and [emax = 1024], whose operations round to nearest, ties
    to even, and produce infinities and NaN exactly as the hardware does. *)

From Stdlib Require Import ZArith List Bool String Lia.
From Stdlib Require Import Floats.SpecFloat.
Import ListNotations.

Set Warnings "-register-all".

Local Open Scope Z_scope.

(** ** Binary64 arithmetic *)

Module F64.

Definition prec : Z := 53.
Definition emax : Z := 1024.

Definition float := spec_float.

Definition nan : float := S754_nan.
Definition pinf : float := S754_infinity false.
Definition ninf : float := S754_infinity true.
Definition zero : float := S754_zero false.

Definition add : float -> float -> float := SFadd prec emax.
Definition sub : float -> float -> float := SFsub prec emax.
Definition mul : float -> float -> float := SFmul prec emax.
Definition div : float -> float -> float := SFdiv prec emax.
Definition sqrt : float -> float := SFsqrt prec emax.

Definition eqb : float -> float -> bool := SFeqb.
Definition ltb : float -> float -> bool := SFltb.
Definition leb : float -> float -> bool := SFleb.
(** Python's [x > y] and [x >= y] are [y < x] and [y <= x]. *)
Definition gtb (x y : float) : bool := ltb y x.
Definition geb (x y : float) : bool := leb y x.

(** [float(z)] for an integer [z] that fits: the nearest binary64. *)
Definition of_Z (z : Z) : float := binary_normalize prec emax z 0 false.

(** A number [m * 2^e] of a wider binary format (or a zero, an infinity,
    NaN) converted to binary64, as C converts a [long double] to a
    [double]: rounded to nearest, to an infinity when it is too large. *)
Definition of_wide (x : spec_float) : float :=
  match x with
  | S754_finite s m e => binary_normalize prec emax (cond_Zopp s (Zpos m)) e s
  | _ => x
  end.

(** [math.isnan], [math.isinf], and their complement. *)
Definition isnan (f : float) : bool :=
  match f with S754_nan => true | _ => false end.
Definition isinf (f : float) : bool :=
  match f with S754_infinity _ => true | _ => false end.
Definition is_finite (f : float) : bool :=
  match f with S754_zero _ | S754_finite _ _ _ => true | _ => false end.

(** The integer a float denotes, when it denotes one. *)
Definition to_Z_exact (f : float) : option Z :=
  match f with
  | S754_zero _ => Some 0
  | S754_finite s m e =>
      match e with
      | Z0 => Some (cond_Zopp s (Zpos m))
      | Zpos k => Some (cond_Zopp s (Zpos m * 2 ^ Zpos k))
      | Zneg k =>
          if (Zpos m mod 2 ^ Zpos k =? 0)
          then Some (cond_Zopp s (Zpos m / 2 ^ Zpos k))
          else None
      end
  | _ => None
  end.

(** Literals of the source. *)
Definition half : float := div (of_Z 1) (of_Z 2).          (* 0.5 *)
Definition hundred : float := of_Z 100.                    (* 100.0 *)
Definition z_crit : float := div (of_Z 196) (of_Z 100).    (* 1.96 *)

End F64.

Abbreviation float := F64.float.

(** ** Python and numpy values *)

(** A numpy scalar: an [np.integer], or an [np.floating]: [float64] (the
    narrower [float32] and [float16] embed in it exactly), or
    [np.longdouble], whose format is wider on most platforms (80 bits on
    x86, 128 bits on others) and whose values are kept as sign, mantissa
    and exponent. *)
Inductive npscalar : Type :=
| NpInt (z : Z)
| NpFloat (f : float)
| NpLongDouble (x : spec_float).

(** A numeric [np.ndarray], seen through the two operations [safe_float]
    uses: [size] and iteration.  [Nd0 x] is a single scalar (what iterating
    a one-dimensional array yields, and also a zero-dimensional array);
    [NdRows rs] is an array of one or more dimensions whose iteration
    yields [rs]. *)
Inductive ndarray : Type :=
| Nd0 (x : npscalar)
| NdRows (rows : list ndarray).

Inductive pyval : Type :=
| PyNone
| PyInt (z : Z)
| PyFloat (f : float)
| PyStr (s : string)
| PyList (l : list pyval)
| NpScalar (x : npscalar)
| NpArray (a : ndarray).

(** Text-to-number conversions of the Python runtime and of pandas: the
    behaviour of [float(str)] and of [pd.to_numeric] on a text cell.  Both
    are library code; [None] is a failed parse. *)
Class TextParsers : Type := {
  py_float_of_str : string -> option float;
  pd_numeric_of_str : string -> option float
}.

(** [val.size]: the number of scalars in the array. *)
Fixpoint nd_size (a : ndarray) : nat :=
  match a with
  | Nd0 _ => 1
  | NdRows rs => fold_right (fun r n => (nd_size r + n)%nat) 0%nat rs
  end.

(** The scalars of an array in iteration order. *)
Fixpoint nd_flat (a : ndarray) : list npscalar :=
  match a with
  | Nd0 x => [x]
  | NdRows rs => flat_map nd_flat rs
  end.

(** [x.item()] on a numpy scalar: the native Python number.  No Python
    number holds a [longdouble], and [item] returns the numpy scalar
    itself. *)
Definition np_item (x : npscalar) : pyval :=
  match x with
  | NpInt z => PyInt z
  | NpFloat f => PyFloat f
  | NpLongDouble _ => NpScalar x
  end.

(** [val.item()] on an array of size one. *)
Definition nd_item (a : ndarray) : pyval :=
  match nd_flat a with
  | x :: _ => np_item x
  | [] => PyNone
  end.

Section SafeFloat.
Context `{TextParsers}.

(** [float(val)]; [None] stands for a raised exception ([TypeError],
    [ValueError], or [OverflowError] for an integer too large). *)
Definition py_float (v : pyval) : option float :=
  match v with
  | PyFloat f => Some f
  | PyInt z =>
      let f := F64.of_Z z in
      if F64.isinf f then None else Some f
  | PyStr s => py_float_of_str s
  | NpScalar (NpInt z) => Some (F64.of_Z z)
  | NpScalar (NpFloat f) => Some f
  | NpScalar (NpLongDouble x) => Some (F64.of_wide x)
  | PyNone | PyList _ | NpArray _ => None
  end.

(** Lines 23-29: the [try] block of [safe_float]. *)
Definition safe_float_scalar (v : pyval) : pyval :=
  match py_float v with
  | Some f_val =>
      if F64.isnan f_val || F64.isinf f_val then PyNone else PyFloat f_val
  | None => PyNone
  end.

(** Lines 17-21 followed by the [try] block, on an array. *)
Fixpoint safe_float_nd (a : ndarray) : pyval :=
  match a with
  | Nd0 x => safe_float_scalar (np_item x)
  | NdRows rs =>
      if (nd_size a =? 1)%nat then safe_float_scalar (nd_item a)
      else PyList (map safe_float_nd rs)
  end.

Definition safe_float (val : pyval) : pyval :=
  let val :=
    match val with
    | NpScalar x => np_item x
    | _ => val
    end in
  match val with
  | NpArray a => safe_float_nd a
  | _ => safe_float_scalar val
  end.

End SafeFloat.


(** ** Exceptions *)

Inductive exn_kind : Type :=
| UnicodeDecodeError
| ValueError
| TypeError
| OtherError.

(** A raised exception: its class, as far as the code tells classes apart,
    and [str(e)]. *)
Record exn : Type := { exn_class : exn_kind; exn_str : string }.

(** What a call yields: a value, or a raised exception. *)
Inductive result (A : Type) : Type :=
| Ok (a : A)
| Raise (e : exn).
Arguments Ok {A} a.
Arguments Raise {A} e.

Definition bind {A B : Type} (r : result A) (k : A -> result B) : result B :=
  match r with
  | Ok a => k a
  | Raise e => Raise e
  end.

(** ** The dataset *)

(** A cell of a pandas column as the loader leaves it: an integer (of an
    integer column, so within 64 bits), a float (a binary64 number, see
    [column_valid]), text, or a missing value. *)
Inductive cell : Type :=
| CInt (z : Z)
| CFloat (f : float)
| CStr (s : string)
| CMissing.

(** A [DataFrame]: its columns in order, each a name and its cells.  Every
    column of a data frame has one cell per row. *)
Definition DataFrame : Type := list (string * list cell).

Definition df_columns (df : DataFrame) : list string := map fst df.

(** [name in df.columns]. *)
Definition has_column (df : DataFrame) (name : string) : bool :=
  existsb (String.eqb name) (df_columns df).

(** The number of columns called [name].  pandas lets several columns
    share a name. *)
Definition column_count (df : DataFrame) (name : string) : nat :=
  List.length (filter (String.eqb name) (df_columns df)).

(** [df[name]] when one column is called [name]: that column.  (When
    several are, [df[name]] is a frame and not a series; see
    [compute_uplift_summary].) *)
Fixpoint df_get (df : DataFrame) (name : string) : list cell :=
  match df with
  | [] => []
  | (n, c) :: rest => if String.eqb name n then c else df_get rest name
  end.

Section Pandas.
Context `{TextParsers}.

(** [pd.to_numeric(..., errors="coerce")] on one cell: a value that does
    not convert becomes NaN. *)
Definition to_numeric_cell (c : cell) : float :=
  match c with
  | CInt z => F64.of_Z z
  | CFloat f => f
  | CStr s =>
      match pd_numeric_of_str s with
      | Some f => f
      | None => F64.nan
      end
  | CMissing => F64.nan
  end.

Definition to_numeric (col : list cell) : list float :=
  map to_numeric_cell col.

End Pandas.

(** A row of the two-column frame [data]: treatment and outcome. *)
Abbreviation row := (float * float)%type.

(** [DataFrame.dropna()]: a row goes when either value is NaN. *)
Definition dropna (rows : list row) : list row :=
  filter (fun r => negb (F64.isnan (fst r)) && negb (F64.isnan (snd r))) rows.

(** *** Sums as numpy computes them

    [Series.sum()], [Series.mean()] and [Series.var()] sum a float64 array
    with numpy's [add.reduce], whose inner loop is the pairwise summation
    of [numpy/_core/src/umath/loops_utils.h.src]: fewer than 8 values are
    added left to right; up to 128 values go through 8 accumulators, value
    [i] into accumulator [i mod 8], which are then added as
    [((r0+r1)+(r2+r3))+((r4+r5)+(r6+r7))], the values after the last full
    group of 8 being added to that one by one; more than 128 values are
    split near the middle, at a multiple of 8, and the sums of the two
    parts are added. *)

(** The loop over the groups of 8 that follow the first, then the
    accumulators added up, then the rest. *)
Fixpoint unrolled_sum (r0 r1 r2 r3 r4 r5 r6 r7 : float) (a : list float)
  : float :=
  match a with
  | x0 :: x1 :: x2 :: x3 :: x4 :: x5 :: x6 :: x7 :: rest =>
      unrolled_sum (F64.add r0 x0) (F64.add r1 x1) (F64.add r2 x2)
        (F64.add r3 x3) (F64.add r4 x4) (F64.add r5 x5) (F64.add r6 x6)
        (F64.add r7 x7) rest
  | _ =>
      fold_left F64.add a
        (F64.add (F64.add (F64.add r0 r1) (F64.add r2 r3))
                 (F64.add (F64.add r4 r5) (F64.add r6 r7)))
  end.

(** The sum of at most 128 values. *)
Definition block_sum (a : list float) : float :=
  match a with
  | x0 :: x1 :: x2 :: x3 :: x4 :: x5 :: x6 :: x7 :: rest =>
      unrolled_sum x0 x1 x2 x3 x4 x5 x6 x7 rest
  | _ => fold_left F64.add a F64.zero
  end.

(** [pairwise_sum], with the depth of the recursion bounded by [depth];
    the length of the array is more than the recursion needs
    ([pairwise_sum_depth]). *)
Fixpoint pairwise_sum (depth : nat) (a : list float) : float :=
  match depth with
  | S d =>
      let n := List.length a in
      if (128 <? n)%nat then
        let n2 := (n / 2 - (n / 2) mod 8)%nat in
        F64.add (pairwise_sum d (firstn n2 a)) (pairwise_sum d (skipn n2 a))
      else block_sum a
  | O => block_sum a
  end.

(** [Series.sum()] of a float64 series: the reduction starts from 0.0 and
    adds the pairwise sum of the values.  (A series of integer dtype is
    converted to float64 while it is summed, through numpy's cast buffer of
    8192 values; for a partition of at most 8192 rows that is this sum, and
    larger integer partitions are not modelled.  The variance converts
    first and sums a float64 array whatever the dtype.) *)
Definition series_sum (xs : list float) : float :=
  F64.add F64.zero (pairwise_sum (List.length xs) xs).

Definition count_of (xs : list float) : float :=
  F64.of_Z (Z.of_nat (List.length xs)).

(** [Series.mean()]: the sum over the count. *)
Definition series_mean (xs : list float) : float :=
  F64.div (series_sum xs) (count_of xs).

(** [Series.var(ddof=1)]: the squared deviations from the mean, summed and
    divided by [n - 1]; NaN when there are not more values than [ddof]. *)
Definition series_var (xs : list float) : float :=
  if (List.length xs <=? 1)%nat then F64.nan
  else
    let avg := series_mean xs in
    let sqr := map (fun x => let d := F64.sub avg x in F64.mul d d) xs in
    F64.div (series_sum sqr) (F64.of_Z (Z.of_nat (List.length xs) - 1)).

(** Python's [max(x, 0)]: the second argument wins only when it is
    strictly greater, so a NaN first argument is returned as it is. *)
Definition py_max_zero (x : float) : float :=
  if F64.gtb F64.zero x then F64.zero else x.

(** ** [compute_uplift_summary] *)

Record UpliftSummary : Type := {
  treatment_mean : pyval;
  control_mean : pyval;
  absolute_uplift : pyval;
  relative_uplift_pct : pyval;
  treatment_count : pyval;
  control_count : pyval;
  standard_error : pyval;
  approximate_confidence_interval : pyval
}.

(** Lines 46-47. *)
Definition treated_rows (data : list row) : list row :=
  filter (fun r => F64.geb (fst r) F64.half) data.
Definition control_rows (data : list row) : list row :=
  filter (fun r => F64.ltb (fst r) F64.half) data.

(** Lines 60-64: [se]. *)
Definition se_value (treated_var control_var : float) (treated_n control_n : nat)
  : float :=
  py_max_zero
    (F64.add (F64.div treated_var (F64.of_Z (Z.of_nat treated_n)))
             (F64.div control_var (F64.of_Z (Z.of_nat control_n)))).

Definition uplift_se (treated_var control_var : float) (treated_n control_n : nat)
  : option float :=
  if ((1 <? treated_n)%nat && (1 <? control_n)%nat)%bool then
    let se_val := se_value treated_var control_var treated_n control_n in
    if negb (F64.isnan se_val) then Some (F64.sqrt se_val) else None
  else None.

(** Lines 66-69: [approx_ci]. *)
Definition uplift_ci (absolute_uplift : float) (se : option float)
  : option (list float) :=
  match se with
  | Some se =>
      if F64.gtb se F64.zero then
        let z := F64.z_crit in
        Some [F64.sub absolute_uplift (F64.mul z se);
              F64.add absolute_uplift (F64.mul z se)]
      else None
  | None => None
  end.

(** Lines 71-76: [relative]. *)
Definition uplift_relative (absolute_uplift control_mean : float)
  : option float :=
  if negb (F64.eqb control_mean F64.zero) then
    Some (F64.mul (F64.div absolute_uplift control_mean) F64.hundred)
  else None.

Definition opt_float (o : option float) (wrap : float -> pyval) : pyval :=
  match o with
  | Some f => wrap f
  | None => PyNone
  end.

Section Uplift.
Context `{TextParsers}.

(** Lines 39-42: the frame [data]. *)
Definition uplift_data (df : DataFrame) (treatment outcome : string)
  : list row :=
  let outcomes := to_numeric (df_get df outcome) in
  let treatment_series := to_numeric (df_get df treatment) in
  dropna (combine treatment_series outcomes).

(** Lines 51-87, once both partitions are known to be non-empty. *)
Definition uplift_of_partitions (treated control : list row)
  : UpliftSummary :=
  let treated_mean := series_mean (map snd treated) in
  let control_mean := series_mean (map snd control) in
  let absolute_uplift := F64.sub treated_mean control_mean in
  let treated_var := series_var (map snd treated) in
  let control_var := series_var (map snd control) in
  let treated_n := List.length treated in
  let control_n := List.length control in
  let se := uplift_se treated_var control_var treated_n control_n in
  let approx_ci := uplift_ci absolute_uplift se in
  let relative := uplift_relative absolute_uplift control_mean in
  {| treatment_mean := safe_float (NpScalar (NpFloat treated_mean));
     control_mean := safe_float (NpScalar (NpFloat control_mean));
     absolute_uplift := safe_float (NpScalar (NpFloat absolute_uplift));
     relative_uplift_pct :=
       safe_float (opt_float relative (fun f => NpScalar (NpFloat f)));
     treatment_count := PyInt (Z.of_nat treated_n);
     control_count := PyInt (Z.of_nat control_n);
     standard_error := safe_float (opt_float se PyFloat);
     approximate_confidence_interval :=
       match approx_ci with
       | Some ((_ :: _) as ci) =>
           PyList (map (fun x => safe_float (NpScalar (NpFloat x))) ci)
       | _ => PyNone
       end |}.

(** The [TypeError] of [pd.to_numeric] on an argument that is not
    one-dimensional. *)
Definition to_numeric_type_error : exn :=
  {| exn_class := TypeError;
     exn_str := "arg must be a list, tuple, 1-d array, or Series" |}.

(** Lines 36-49 and the summary.  When the outcome or the treatment name
    is carried by several columns, [df[name]] is a frame, and
    [pd.to_numeric] raises on it. *)
Definition compute_uplift_summary
  (df : DataFrame) (treatment outcome : string)
  : result (option UpliftSummary) :=
  if negb (has_column df treatment) || negb (has_column df outcome)
  then Ok None
  else if (1 <? column_count df outcome)%nat
          || (1 <? column_count df treatment)%nat
  then Raise to_numeric_type_error
  else
    let data := uplift_data df treatment outcome in
    match data with
    | [] => Ok None
    | _ =>
        let treated := treated_rows data in
        let control := control_rows data in
        match treated, control with
        | [], _ | _, [] => Ok None
        | _, _ => Ok (Some (uplift_of_partitions treated control))
        end
    end.

End Uplift.

(** ** The confidence-interval fallback of [estimate_causal_effect] *)

(** What the code reads from the estimate and the refutation that the
    causal-inference library returns. *)
Record CausalEstimate : Type := {
  est_value : pyval;
  est_confidence_intervals : option (list pyval);
  est_p_value : option pyval
}.

Record CausalResult : Type := {
  estimate_value : pyval;
  confidence_intervals : pyval;
  p_value : pyval;
  refutation_result : pyval;
  uplift_summary : option UpliftSummary
}.

(** Truth value of the objects the fallback tests. *)
Definition py_truthy (v : pyval) : bool :=
  match v with
  | PyNone => false
  | PyList [] => false
  | PyInt z => negb (z =? 0)
  | PyFloat f => negb (F64.eqb f F64.zero)
  | PyStr s => negb (String.eqb s EmptyString)
  | _ => true
  end.

Definition is_none (v : pyval) : bool :=
  match v with PyNone => true | _ => false end.

Definition opt_list (o : option (list pyval)) : pyval :=
  match o with
  | Some l => PyList l
  | None => PyNone
  end.

Section Orchestration.
Context `{TextParsers}.

(** Lines 127-129. *)
Definition sanitize_conf_ints (ci : option (list pyval))
  : option (list pyval) :=
  match ci with
  | Some l => Some (map safe_float l)
  | None => None
  end.

(** The condition of line 131. *)
Definition needs_fallback (conf_ints : option (list pyval)) : bool :=
  match conf_ints with
  | None => true
  | Some [] => true
  | Some l => existsb is_none l
  end.

Definition summary_ci (us : option UpliftSummary) : pyval :=
  match us with
  | Some s => approximate_confidence_interval s
  | None => PyNone
  end.

(** Lines 127-132. *)
Definition fallback_conf_ints
  (delegated : option (list pyval)) (us : option UpliftSummary) : pyval :=
  let conf_ints := sanitize_conf_ints delegated in
  if needs_fallback conf_ints
     && (match us with Some _ => true | None => false end)
     && py_truthy (summary_ci us)
  then summary_ci us
  else opt_list conf_ints.

(** Lines 127-140: the result, from the uplift summary and from what the
    library produced. *)
Definition causal_result
  (estimate : CausalEstimate) (refutation : option pyval)
  (us : option UpliftSummary) : CausalResult :=
  {| estimate_value := safe_float (est_value estimate);
     confidence_intervals :=
       fallback_conf_ints (est_confidence_intervals estimate) us;
     p_value :=
       match est_p_value estimate with
       | Some p => safe_float p
       | None => PyNone
       end;
     refutation_result :=
       match refutation with
       | Some e => safe_float e
       | None => PyNone
       end;
     uplift_summary := us |}.

(** [estimate_causal_effect], given the estimate and the refuted effect
    the library produced for the same arguments.  The uplift summary is
    computed first (line 97), and an exception of it ends the call. *)
Definition estimate_causal_effect
  (estimate : CausalEstimate) (refutation : option pyval)
  (df : DataFrame) (treatment outcome : string) : result CausalResult :=
  bind (compute_uplift_summary df treatment outcome)
    (fun us => Ok (causal_result estimate refutation us)).

End Orchestration.

(** ** Rounding, in closed form

    The definitions below restate the rounding of [SpecFloat] with integer
    division, so that order and exactness can be argued by arithmetic. *)

(** [X / 2^k] rounded to the nearest integer, ties to even. *)
Definition rne (X k : Z) : Z :=
  let q := X / 2 ^ k in
  match 2 * (X mod 2 ^ k) ?= 2 ^ k with
  | Lt => q
  | Gt => q + 1
  | Eq => if Z.even q then q else q + 1
  end.

(** A location as two extra bits below the mantissa. *)
Definition loc_code (l : location) : Z :=
  match l with
  | loc_Exact => 0
  | loc_Inexact Lt => 1
  | loc_Inexact Eq => 2
  | loc_Inexact Gt => 3
  end.

Definition rec_code (mrs : shr_record) : Z :=
  4 * shr_m mrs + (if shr_r mrs then 2 else 0) + (if shr_s mrs then 1 else 0).

(** The float of a non-negative mantissa and an exponent, with overflow to
    infinity. *)
Definition pack (s : bool) (m e : Z) : float :=
  match m with
  | Z0 => S754_zero s
  | Zpos p =>
      if e <=? F64.emax - F64.prec then S754_finite s p e
      else S754_infinity s
  | Zneg _ => S754_nan
  end.

(** Mantissa and exponent that [binary_round_aux] packs: shift to the
    exponent of the format, round, and shift once more after a carry. *)
Definition round_core (M E c : Z) : Z * Z :=
  let n := Z.max 0 (fexp F64.prec F64.emax (Zdigits2 M + E) - E) in
  let m2 := rne (4 * M + c) (n + 2) in
  let e1 := E + n in
  let n2 := Z.max 0 (fexp F64.prec F64.emax (Zdigits2 m2 + e1) - e1) in
  (m2 / 2 ^ n2, e1 + n2).

(** Canonical mantissa and exponent of the format, with no upper bound on
    the exponent. *)
Definition canon (m e : Z) : Prop :=
  0 < m /\ fexp F64.prec F64.emax (Zdigits2 m + e) = e.

(** Mantissa and exponent that [binary_round] packs. *)
Definition br_core (M E : Z) : Z * Z :=
  let g := fexp F64.prec F64.emax (Zdigits2 M + E) in
  if g <? E then (M * 2 ^ (E - g), g) else round_core M E 0.

(** The value of the rounding of [M * 2^E], for positive [M], in units of
    [2 ^ min E (-1074)]. *)
Definition rounded_units (M E : Z) : Z :=
  let g := fexp F64.prec F64.emax (Zdigits2 M + E) in
  let B := Z.min E (-1074) in
  if g <? E then M * 2 ^ (E - B)
  else rne (4 * M) (g - E + 2) * 2 ^ (g - B).

(** A non-negative float: a zero, a positive number or +Infinity. *)
Definition nonneg (c : float) : bool :=
  match c with
  | S754_zero _ => true
  | S754_finite false _ _ => true
  | S754_infinity false => true
  | _ => false
  end.

(** ** Concrete inputs *)

(** A parser pair that accepts no text; the data sets below hold numbers
    only, so no parser is ever consulted on them. *)
#[local] Instance no_text : TextParsers :=
  {| py_float_of_str := fun _ => None;
     pd_numeric_of_str := fun _ => None |}.

Definition scenario_df : DataFrame :=
  [ ("treatment"%string, [CInt 1; CInt 1; CInt 0; CInt 0]);
    ("outcome"%string, [CInt 10; CInt 20; CInt 5; CInt 7]) ].

(** 1e200 as a binary64, and a frame whose treated outcomes are
    [1e200, -1e200] and whose control outcomes are [0, 0]. *)
Definition big : float := F64.of_Z (10 ^ 200).
Definition overflow_df : DataFrame :=
  [ ("treatment"%string, [CInt 1; CInt 1; CInt 0; CInt 0]);
    ("outcome"%string,
      [CFloat big; CFloat (SFopp big); CFloat F64.zero; CFloat F64.zero]) ].

(** 1e-200: one control row with a tiny outcome against a huge treated
    one. *)
Definition tiny : float := F64.div (F64.of_Z 1) big.
Definition ratio_df : DataFrame :=
  [ ("treatment"%string, [CInt 1; CInt 0]);
    ("outcome"%string, [CFloat big; CFloat tiny]) ].

(** Constant outcomes on each side: the standard error is zero. *)
Definition flat_df : DataFrame :=
  [ ("treatment"%string, [CInt 1; CInt 1; CInt 0; CInt 0]);
    ("outcome"%string, [CInt 3; CInt 3; CInt 1; CInt 1]) ].

(** An infinite control outcome. *)
Definition inf_df : DataFrame :=
  [ ("treatment"%string, [CInt 1; CInt 0]);
    ("outcome"%string, [CInt 1; CFloat F64.pinf]) ].

(** The summary the code builds from [scenario_df]. *)
Definition scenario_summary : UpliftSummary :=
  let data := uplift_data scenario_df "treatment" "outcome" in
  uplift_of_partitions (treated_rows data) (control_rows data).

(** An array of shape (2, 0): two rows, no scalar. *)
Definition empty_rows : ndarray := NdRows [NdRows []; NdRows []].

(** ** Predicates of the statements *)

(** What the transport boundary accepts for a number: a finite float or
    null. *)
Definition json_number (v : pyval) : bool :=
  match v with
  | PyNone => true
  | PyFloat f => F64.is_finite f
  | _ => false
  end.

Definition json_interval (v : pyval) : bool :=
  match v with
  | PyNone => true
  | PyList l => forallb json_number l
  | _ => false
  end.

Definition is_py_int (v : pyval) : bool :=
  match v with PyInt _ => true | _ => false end.

(** The sanitised form of a computed float. *)
Definition sanitized (f : float) : pyval :=
  if F64.is_finite f then PyFloat f else PyNone.

(** A pair of cells that both coerce to numbers. *)
Definition both_coerce `{TextParsers} (r : cell * cell) : bool :=
  negb (F64.isnan (to_numeric_cell (fst r)))
  && negb (F64.isnan (to_numeric_cell (snd r))).

(** The partitions as the claims word them, on the cells of the frame:
    the treatment and outcome cells of each row side by side; a row is
    treated when both cells coerce and the treatment is at least 0.5, and
    control when both coerce and the treatment is below 0.5. *)
Definition raw_rows (df : DataFrame) (treatment outcome : string)
  : list (cell * cell) :=
  combine (df_get df treatment) (df_get df outcome).

Definition is_treated `{TextParsers} (r : cell * cell) : bool :=
  both_coerce r && F64.geb (to_numeric_cell (fst r)) F64.half.

Definition is_control `{TextParsers} (r : cell * cell) : bool :=
  both_coerce r && F64.ltb (to_numeric_cell (fst r)) F64.half.

Definition treated_outcomes `{TextParsers}
  (df : DataFrame) (treatment outcome : string) : list float :=
  map (fun r => to_numeric_cell (snd r))
    (filter is_treated (raw_rows df treatment outcome)).

Definition control_outcomes `{TextParsers}
  (df : DataFrame) (treatment outcome : string) : list float :=
  map (fun r => to_numeric_cell (snd r))
    (filter is_control (raw_rows df treatment outcome)).

(** The sample variance as the claims word it: the squared deviations
    from the mean, summed and divided by [n - 1]. *)
Definition sample_variance (xs : list float) : float :=
  let n := Z.of_nat (List.length xs) in
  let mean := F64.div (series_sum xs) (F64.of_Z n) in
  let squares :=
    map (fun x => F64.mul (F64.sub mean x) (F64.sub mean x)) xs in
  F64.div (series_sum squares) (F64.of_Z (n - 1)).

(** [f] is within half a unit in its last place of [M * 2^E].  Both are
    counted in units of [2^U], one binary place below the smaller of the
    two exponents, so that the half unit is an integer.  A zero stands for
    a number of at most half the smallest positive float. *)
Definition within_half_ulp (M E : Z) (f : float) : Prop :=
  match f with
  | S754_finite s m e =>
      let U := Z.min E e - 1 in
      Z.abs (M * 2 ^ (E - U) - cond_Zopp s (Zpos m) * 2 ^ (e - U))
      <= 2 ^ (e - 1 - U)
  | S754_zero _ =>
      let U := Z.min E (-1074) - 1 in
      Z.abs M * 2 ^ (E - U) <= 2 ^ (-1075 - U)
  | _ => False
  end.

(** 2^1024 as an extended-precision number: finite there, beyond the
    largest binary64. *)
Definition wide_big : spec_float := S754_finite false 1 1024.

(** A frame whose rows are all treated. *)
Definition treated_only_df : DataFrame :=
  [ ("treatment"%string, [CInt 1; CInt 1; CInt 1]);
    ("outcome"%string, [CInt 10; CInt 20; CInt 30]) ].

(** Eight values whose sum depends on the order of the additions: 1e16,
    where floats are two apart, and seven times 1. *)
Definition eight_values : list float :=
  F64.of_Z (10 ^ 16) :: repeat (F64.of_Z 1) 7.

(** A frame in which two columns are called "outcome". *)
Definition twin_df : DataFrame :=
  [ ("treatment"%string, [CInt 1; CInt 1; CInt 0; CInt 0]);
    ("outcome"%string, [CInt 10; CInt 20; CInt 5; CInt 7]);
    ("outcome"%string, [CInt 1; CInt 2; CInt 3; CInt 4]) ].

(** A float that is in the format: a zero, an infinity, NaN, or a mantissa
    and exponent in canonical form. *)
Definition valid (f : float) : bool := valid_binary F64.prec F64.emax f.

(** A column whose cells all coerce to floats of the format. *)
Definition column_valid `{TextParsers} (col : list cell) : bool :=
  forallb (fun c => valid (to_numeric_cell c)) col.

(** A finite float whose exponent is at most [k]. *)
Definition small (f : float) (k : Z) : bool :=
  match f with
  | S754_zero _ => true
  | S754_finite _ _ e => e <=? k
  | _ => false
  end.

(** The length of an array along its first axis. *)
Definition nd_len (a : ndarray) : nat :=
  match a with
  | Nd0 _ => 0
  | NdRows rs => List.length rs
  end.

Definition is_numpy (v : pyval) : bool :=
  match v with NpScalar _ | NpArray _ => true | _ => false end.

(** ** Further code of the engine and of the service *)

(** A value the JSON transport accepts where a number is expected, at any
    depth: null, a finite float, or a list of such values. *)
Fixpoint json_safe (v : pyval) : bool :=
  match v with
  | PyNone => true
  | PyFloat f => F64.is_finite f
  | PyList l => forallb json_safe l
  | _ => false
  end.

(** The scalars of a nested list, left to right. *)
Fixpoint py_flat (v : pyval) : list pyval :=
  match v with
  | PyList l => flat_map py_flat l
  | _ => [v]
  end.

(** Lines 96 and 148:
    [[c for c in confounders if c != treatment and c != outcome]]. *)
Definition clean_confounders
  (treatment outcome : string) (confounders : list string) : list string :=
  filter (fun c => negb (String.eqb c treatment) && negb (String.eqb c outcome))
    confounders.

(** A [networkx.DiGraph], without the display attributes of its nodes: the
    nodes and the edges in insertion order, each held once. *)
Record DiGraph : Type := {
  g_nodes : list string;
  g_edges : list (string * string)
}.

Definition empty_graph : DiGraph := {| g_nodes := []; g_edges := [] |}.

Definition has_node (G : DiGraph) (n : string) : bool :=
  existsb (String.eqb n) (g_nodes G).

Definition has_edge (G : DiGraph) (u v : string) : bool :=
  existsb (fun e => String.eqb u (fst e) && String.eqb v (snd e)) (g_edges G).

(** [G.add_node(n)]: a node that is present is not added again. *)
Definition add_node (n : string) (G : DiGraph) : DiGraph :=
  if has_node G n then G
  else {| g_nodes := g_nodes G ++ [n]; g_edges := g_edges G |}.

(** [G.add_edge(u, v)]: both ends become nodes, and the edge is held
    once. *)
Definition add_edge (u v : string) (G : DiGraph) : DiGraph :=
  let G := add_node v (add_node u G) in
  if has_edge G u v then G
  else {| g_nodes := g_nodes G; g_edges := g_edges G ++ [(u, v)] |}.

(** Lines 157-159: the body of the loop over the confounders. *)
Definition confounder_step
  (treatment outcome : string) (G : DiGraph) (c : string) : DiGraph :=
  add_edge c outcome (add_edge c treatment (add_node c G)).

(** Lines 148-161 of [get_causal_graph_image]: the graph that is drawn. *)
Definition causal_graph
  (treatment outcome : string) (confounders : list string) : DiGraph :=
  let confounders := clean_confounders treatment outcome confounders in
  let G := add_node outcome (add_node treatment empty_graph) in
  let G := fold_left (confounder_step treatment outcome) confounders G in
  add_edge treatment outcome G.

(** *** HTTP answers *)

(** What a route returns: a body, or a raised [HTTPException]. *)
Inductive response (A : Type) : Type :=
| Http200 (body : A)
| HTTPException (status_code : Z) (detail : string).
Arguments Http200 {A} body.
Arguments HTTPException {A} status_code detail.

Inductive encoding : Type := Utf8 | Latin1.

(** What the service takes from outside this development.  [FS] is the
    state of the disk; [to_pickle] gives the disk after the attempt to write
    the frame, whether it succeeded or raised.  [read_csv], [read_excel] and
    [read_pickle] are pandas; [dowhy_estimate] is the model, identification,
    estimation and refutation calls of lines 100-125, and what lines 127-138
    read from their results; [draw_png] is lines 163-176, the layout, the
    drawing and the base64 encoding.  [preprocess_retail_data] and
    [simulate_dataset] are the two functions of [data_loader.py] that draw
    on numpy's random generator (the second after seeding it, so it is one
    frame or one exception); they are not modelled further. *)
Class Platform : Type := {
  FS : Type;
  read_csv : string -> encoding -> result DataFrame;
  read_excel : string -> result DataFrame;
  preprocess_retail_data : DataFrame -> result DataFrame;
  simulate_dataset : result DataFrame;
  to_pickle : DataFrame -> FS -> FS;
  temp_exists : FS -> bool;
  read_pickle : FS -> result DataFrame;
  default_exists : FS -> bool;
  read_default : FS -> result string;
  dowhy_estimate :
    DataFrame -> string -> string -> list string ->
    result (CausalEstimate * option pyval);
  draw_png : DiGraph -> result string
}.

(** [s.endswith(suffix)]. *)
Definition ends_with (s suffix : string) : bool :=
  let n := String.length s in
  let k := String.length suffix in
  if (n <? k)%nat then false
  else String.eqb (substring (n - k) k s) suffix.

(** [sub in s]. *)
Fixpoint str_contains (sub s : string) : bool :=
  match s with
  | EmptyString => String.prefix sub EmptyString
  | String _ s' => String.prefix sub s || str_contains sub s'
  end.

(** [len(df)]: every column has one cell per row. *)
Definition df_rows (df : DataFrame) : nat :=
  match df with
  | [] => 0%nat
  | (_, col) :: _ => List.length col
  end.

Definition unsupported_format : exn :=
  {| exn_class := ValueError;
     exn_str := "Unsupported file format. Please upload CSV or Excel." |}.

(** The process state of [main.py]: the [state] dictionary and the disk. *)
Record World `{Platform} : Type := {
  mem : option DataFrame;
  disk : FS
}.

(** What [/upload] and [/simulate] answer. *)
Record Loaded : Type := {
  message : string;
  columns : list string;
  rows : nat
}.

Section Service.
Context `{Platform} `{TextParsers}.

(** [data_loader.load_dataset]. *)
Definition load_dataset (file_content filename : string) : result DataFrame :=
  if ends_with filename ".csv" then
    match read_csv file_content Utf8 with
    | Raise {| exn_class := UnicodeDecodeError |} =>
        read_csv file_content Latin1
    | r => r
    end
  else if ends_with filename ".xlsx" || ends_with filename ".xls" then
    read_excel file_content
  else Raise unsupported_format.

(** [save_state]: the frame is kept in memory before the pickle is
    attempted, and an exception of the pickle is swallowed. *)
Definition save_state (df : DataFrame) (w : World) : World :=
  {| mem := Some df; disk := to_pickle df (disk w) |}.

(** The fallback of [load_state] on the bundled file (lines 61-70). *)
Definition load_default (w : World) : option DataFrame * World :=
  if default_exists (disk w) then
    match
      bind (read_default (disk w)) (fun content =>
      bind (load_dataset content "Online Retail.csv") (fun df =>
      preprocess_retail_data df))
    with
    | Ok df => (Some df, save_state df w)
    | Raise _ => (None, w)
    end
  else (None, w).

(** [load_state]. *)
Definition load_state (w : World) : option DataFrame * World :=
  match mem w with
  | Some df => (Some df, w)
  | None =>
      if temp_exists (disk w) then
        match read_pickle (disk w) with
        | Ok df => (Some df, {| mem := Some df; disk := disk w |})
        | Raise _ => load_default w
        end
      else load_default w
  end.

Definition loaded (msg : string) (df : DataFrame) : Loaded :=
  {| message := msg; columns := df_columns df; rows := df_rows df |}.

(** [POST /upload]. *)
Definition upload_file (content filename : string) (w : World)
  : response Loaded * World :=
  match
    bind (load_dataset content filename) (fun df =>
      if str_contains "Retail" filename || str_contains "retail" filename
      then preprocess_retail_data df
      else Ok df)
  with
  | Ok df => (Http200 (loaded "File uploaded successfully" df), save_state df w)
  | Raise e => (HTTPException 400 (exn_str e), w)
  end.

(** [POST /simulate]. *)
Definition trigger_simulation (w : World) : response Loaded * World :=
  match simulate_dataset with
  | Ok df => (Http200 (loaded "Simulation data generated" df), save_state df w)
  | Raise e => (HTTPException 500 (exn_str e), w)
  end.

(** [GET /columns]. *)
Definition get_columns (w : World) : response (list string) * World :=
  match load_state w with
  | (None, w') => (HTTPException 400 "No data loaded", w')
  | (Some df, w') => (Http200 (df_columns df), w')
  end.

(** [estimate_causal_effect] with the library run on the cleaned
    confounders: the uplift summary first, then the library; an exception
    of either propagates. *)
Definition run_estimate
  (df : DataFrame) (treatment outcome : string) (confounders : list string)
  : result CausalResult :=
  bind (compute_uplift_summary df treatment outcome) (fun us =>
  bind
    (dowhy_estimate df treatment outcome
       (clean_confounders treatment outcome confounders))
    (fun er => Ok (causal_result (fst er) (snd er) us))).

(** [get_causal_graph_image]: the graph is built, then drawn and encoded. *)
Definition get_causal_graph_image
  (treatment outcome : string) (confounders : list string) : result string :=
  draw_png (causal_graph treatment outcome confounders).

(** [POST /analyze]. *)
Definition analyze
  (treatment outcome : string) (confounders : list string) (w : World)
  : response (CausalResult * string) * World :=
  match load_state w with
  | (None, w') => (HTTPException 400 "No data loaded", w')
  | (Some df, w') =>
      match
        bind (run_estimate df treatment outcome confounders) (fun r =>
        bind (get_causal_graph_image treatment outcome confounders) (fun g =>
        Ok (r, g)))
      with
      | Ok body => (Http200 body, w')
      | Raise e => (HTTPException 500 (exn_str e), w')
      end
  end.

End Service.

(** A platform for the examples: the disk is the pickled frame, if any;
    reading a CSV fails to decode as UTF-8 and yields a one-column frame as
    ISO-8859-1; the estimate is the number of common causes the library
    was given, and the image is the list of the nodes of the graph. *)
Definition example_frame : DataFrame := [ ("a"%string, [CInt 1; CInt 2]) ].

#[local] Instance example_platform : Platform :=
  {| FS := option DataFrame;
     read_csv := fun _ enc =>
       match enc with
       | Utf8 => Raise {| exn_class := UnicodeDecodeError; exn_str := "utf-8" |}
       | Latin1 => Ok example_frame
       end;
     read_excel := fun _ =>
       Raise {| exn_class := OtherError; exn_str := "not a workbook" |};
     preprocess_retail_data := fun df => Ok df;
     simulate_dataset := Ok scenario_df;
     to_pickle := fun df _ => Some df;
     temp_exists := fun fs => match fs with Some _ => true | None => false end;
     read_pickle := fun fs =>
       match fs with
       | Some df => Ok df
       | None => Raise {| exn_class := OtherError; exn_str := "no file" |}
       end;
     default_exists := fun _ => false;
     read_default := fun _ =>
       Raise {| exn_class := OtherError; exn_str := "no file" |};
     dowhy_estimate := fun _ _ _ common_causes =>
       Ok ({| est_value := PyInt (Z.of_nat (List.length common_causes));
              est_confidence_intervals := None;
              est_p_value := None |}, None);
     draw_png := fun G => Ok (String.concat "," (g_nodes G)) |}.

Definition empty_world : World := {| mem := None; disk := None |}.

(** The service with the scenario loaded. *)
Definition scenario_world : World :=
  {| mem := Some scenario_df; disk := None |}.

(** *** Notions of the further statements *)

(** A float that is not below zero: non-negative, or NaN. *)
Definition not_below_zero (x : float) : bool := nonneg x || F64.isnan x.

(** A float with a clear sign bit that is not NaN. *)
Definition plus_signed (x : float) : bool :=
  match x with
  | S754_zero false | S754_finite false _ _ | S754_infinity false => true
  | _ => false
  end.

(** [df.drop(index=k)] on a frame with the default index: the frame
    without its row [k]. *)
Definition remove_at {A : Type} (k : nat) (l : list A) : list A :=
  firstn k l ++ skipn (S k) l.

Definition drop_row (k : nat) (df : DataFrame) : DataFrame :=
  map (fun nc => (fst nc, remove_at k (snd nc))) df.

(** Two treatment cells on the same side of the threshold: both fail to
    coerce, or both coerce and compare alike with 0.5. *)
Definition same_side `{TextParsers} (c c' : cell) : Prop :=
  F64.isnan (to_numeric_cell c) = F64.isnan (to_numeric_cell c') /\
  F64.geb (to_numeric_cell c) F64.half = F64.geb (to_numeric_cell c') F64.half.

(** The scenario with a row whose treatment is missing, and the scenario
    with doses in place of the 0/1 flags. *)
Definition gappy_df : DataFrame :=
  [ ("treatment"%string, [CInt 1; CInt 1; CMissing; CInt 0; CInt 0]);
    ("outcome"%string, [CInt 10; CInt 20; CInt 99; CInt 5; CInt 7]) ].

Definition dosed_df : DataFrame :=
  [ ("treatment"%string, [CInt 3; CInt 8; CInt 0; CInt (-2)]);
    ("outcome"%string, [CInt 10; CInt 20; CInt 5; CInt 7]) ].

(** Reachability in a graph along one or more edges. *)
Inductive reach (G : DiGraph) : string -> string -> Prop :=
| reach_edge (u v : string) :
    In (u, v) (g_edges G) -> reach G u v
| reach_step (u v w : string) :
    In (u, v) (g_edges G) -> reach G v w -> reach G u w.

(** The layer of a node in the drawn graph: confounders, then the
    treatment, then the outcome. *)
Definition layer (treatment outcome n : string) : nat :=
  if String.eqb n outcome then 2%nat
  else if String.eqb n treatment then 1%nat
  else 0%nat.

(** ** Rounding facts *)

(** *** Number of binary digits *)

Lemma digits2_pos_bounds (p : positive) :
  2 ^ (Zpos (digits2_pos p) - 1) <= Zpos p < 2 ^ Zpos (digits2_pos p).
Proof.
  induction p as [p IH|p IH|]; cbn [digits2_pos].
  - rewrite Pos2Z.inj_succ, Z.pow_succ_r by lia.
    replace (Z.succ (Zpos (digits2_pos p)) - 1) with (Z.succ (Zpos (digits2_pos p) - 1)) by lia.
    rewrite Z.pow_succ_r by lia. lia.
  - rewrite Pos2Z.inj_succ, Z.pow_succ_r by lia.
    replace (Z.succ (Zpos (digits2_pos p)) - 1) with (Z.succ (Zpos (digits2_pos p) - 1)) by lia.
    rewrite Z.pow_succ_r by lia. lia.
  - simpl. lia.
Qed.

Lemma Zdigits2_bounds (m : Z) :
  0 < m -> 2 ^ (Zdigits2 m - 1) <= m < 2 ^ Zdigits2 m.
Proof.
  destruct m as [|p|p]; try lia. intros _. apply digits2_pos_bounds.
Qed.

Lemma Zdigits2_pos (m : Z) : 0 < m -> 0 < Zdigits2 m.
Proof. destruct m; simpl; lia. Qed.

Lemma Zdigits2_unique (m k : Z) :
  2 ^ (k - 1) <= m < 2 ^ k -> 0 < m -> Zdigits2 m = k.
Proof.
  intros [Hlo Hhi] Hm.
  pose proof (Zdigits2_bounds m Hm) as [Dlo Dhi].
  pose proof (Zdigits2_pos m Hm) as Dpos.
  assert (Hk : 0 < k).
  { destruct (Z.ltb_spec 0 k); [assumption|].
    destruct (Z.eq_dec k 0) as [->|]; [simpl in Hhi; lia|].
    rewrite (Z.pow_neg_r 2 k) in Hhi by lia. lia. }
  destruct (Z.lt_trichotomy (Zdigits2 m) k) as [Hlt|[Heq|Hgt]]; [|assumption|].
  - assert (2 ^ Zdigits2 m <= 2 ^ (k - 1)) by (apply Z.pow_le_mono_r; lia). lia.
  - assert (2 ^ k <= 2 ^ (Zdigits2 m - 1)) by (apply Z.pow_le_mono_r; lia). lia.
Qed.

Lemma Zdigits2_le (a b : Z) : 0 < a -> a <= b -> Zdigits2 a <= Zdigits2 b.
Proof.
  intros Ha Hab.
  pose proof (Zdigits2_bounds a Ha) as [Alo Ahi].
  pose proof (Zdigits2_bounds b ltac:(lia)) as [Blo Bhi].
  destruct (Z.le_gt_cases (Zdigits2 a) (Zdigits2 b)); [assumption|].
  assert (2 ^ Zdigits2 b <= 2 ^ (Zdigits2 a - 1)) by (apply Z.pow_le_mono_r; lia).
  lia.
Qed.

Lemma Zdigits2_mul_pow2 (m k : Z) :
  0 < m -> 0 <= k -> Zdigits2 (m * 2 ^ k) = Zdigits2 m + k.
Proof.
  intros Hm Hk.
  pose proof (Zdigits2_bounds m Hm) as [Lo Hi].
  pose proof (Zdigits2_pos m Hm).
  assert (0 < 2 ^ k) by (apply Z.pow_pos_nonneg; lia).
  apply Zdigits2_unique; [|nia].
  replace (Zdigits2 m + k - 1) with ((Zdigits2 m - 1) + k) by lia.
  rewrite !Z.pow_add_r by lia. nia.
Qed.

Lemma Zdigits2_div_pow2 (m k : Z) :
  0 < m -> 0 <= k < Zdigits2 m -> Zdigits2 (m / 2 ^ k) = Zdigits2 m - k.
Proof.
  intros Hm Hk.
  pose proof (Zdigits2_bounds m Hm) as [Lo Hi].
  assert (P : 0 < 2 ^ k) by (apply Z.pow_pos_nonneg; lia).
  assert (E1 : 2 ^ (Zdigits2 m - 1) = 2 ^ (Zdigits2 m - k - 1) * 2 ^ k).
  { rewrite <- Z.pow_add_r by lia. f_equal. lia. }
  assert (E2 : 2 ^ Zdigits2 m = 2 ^ (Zdigits2 m - k) * 2 ^ k).
  { rewrite <- Z.pow_add_r by lia. f_equal. lia. }
  assert (Q1 : 2 ^ (Zdigits2 m - k - 1) <= m / 2 ^ k).
  { apply Z.div_le_lower_bound; lia. }
  assert (Q2 : m / 2 ^ k < 2 ^ (Zdigits2 m - k)).
  { apply Z.div_lt_upper_bound; lia. }
  assert (0 < 2 ^ (Zdigits2 m - k - 1)) by (apply Z.pow_pos_nonneg; lia).
  apply Zdigits2_unique; [|lia].
  replace (Zdigits2 m - k - 1) with (Zdigits2 m - k - 1) by lia. lia.
Qed.

Lemma div_pow2_small (m k : Z) :
  0 <= m -> Zdigits2 m <= k -> m / 2 ^ k = 0.
Proof.
  intros Hm Hk. destruct (Z.eq_dec m 0) as [->|Hne].
  - apply Z.div_0_l. apply Z.pow_nonzero; [lia|]. simpl in Hk. lia.
  - pose proof (Zdigits2_bounds m ltac:(lia)) as [Lo Hi].
    apply Z.div_small. split; [lia|].
    assert (2 ^ Zdigits2 m <= 2 ^ k) by (apply Z.pow_le_mono_r; lia). lia.
Qed.

(** *** Shifting right, with the round and sticky bits *)

Lemma iter_pos_nat {A} (f : A -> A) (p : positive) (x : A) :
  iter_pos f p x = Nat.iter (Pos.to_nat p) f x.
Proof.
  revert x. induction p as [p IH|p IH|]; intros x; cbn [iter_pos].
  - rewrite !IH. rewrite Pos2Nat.inj_xI.
    replace (S (2 * Pos.to_nat p)) with (Pos.to_nat p + S (Pos.to_nat p))%nat by lia.
    rewrite Nat.iter_add. f_equal. rewrite Nat.iter_succ_r. reflexivity.
  - rewrite !IH. rewrite Pos2Nat.inj_xO.
    replace (2 * Pos.to_nat p)%nat with (Pos.to_nat p + Pos.to_nat p)%nat by lia.
    rewrite Nat.iter_add. reflexivity.
  - reflexivity.
Qed.

Lemma shr_1_spec (m : Z) (r s : bool) :
  0 <= m ->
  shr_1 (Build_shr_record m r s)
  = Build_shr_record (m / 2) (Z.odd m) (r || s).
Proof.
  intros Hm. rewrite <- Z.div2_div.
  destruct m as [|[p|p|]|p]; try lia; reflexivity.
Qed.

Lemma rne_unfold (X k q r : Z) :
  0 <= r < 2 ^ k -> X = 2 ^ k * q + r ->
  rne X k = match 2 * r ?= 2 ^ k with
            | Lt => q
            | Gt => q + 1
            | Eq => if Z.even q then q else q + 1
            end.
Proof.
  intros Hr HX. unfold rne.
  rewrite <- (Z.div_unique_pos X (2 ^ k) q r Hr HX).
  rewrite <- (Z.mod_unique_pos X (2 ^ k) q r Hr HX). reflexivity.
Qed.

Lemma rec_code_shr_1 (m : Z) (r s : bool) :
  0 <= m ->
  rec_code (shr_1 (Build_shr_record m r s))
  = 2 * m + (if (r || s)%bool then 1 else 0).
Proof.
  intros Hm. rewrite shr_1_spec by assumption. unfold rec_code; cbn [shr_m shr_r shr_s].
  pose proof (Z.div_mod m 2 ltac:(lia)) as D.
  rewrite Zmod_odd in D. destruct (Z.odd m), (r || s)%bool; lia.
Qed.

Lemma rne_shr_1 (mrs : shr_record) (n : Z) :
  0 <= shr_m mrs -> 1 <= n ->
  rne (rec_code (shr_1 mrs)) (n + 1) = rne (rec_code mrs) (n + 2).
Proof.
  destruct mrs as [m r s]; cbn [shr_m]. intros Hm Hn.
  rewrite rec_code_shr_1 by assumption.
  unfold rec_code; cbn [shr_m shr_r shr_s].
  set (P' := 2 ^ (n - 1)).
  assert (HP' : 0 < P') by (apply Z.pow_pos_nonneg; lia).
  assert (E1 : 2 ^ (n + 1) = 4 * P').
  { unfold P'. replace (n + 1) with (2 + (n - 1)) by lia.
    rewrite Z.pow_add_r by lia. reflexivity. }
  assert (E2 : 2 ^ (n + 2) = 8 * P').
  { unfold P'. replace (n + 2) with (3 + (n - 1)) by lia.
    rewrite Z.pow_add_r by lia. reflexivity. }
  pose proof (Z.div_mod m (2 * P') ltac:(lia)) as Hdm.
  pose proof (Z.mod_pos_bound m (2 * P') ltac:(lia)) as Hmu.
  set (qq := m / (2 * P')) in *. set (mu := m mod (2 * P')) in *.
  rewrite (rne_unfold (2 * m + _) (n + 1) qq
             (2 * mu + (if (r || s)%bool then 1 else 0)));
    [|rewrite E1; destruct (r || s)%bool; lia
     |rewrite E1; destruct (r || s)%bool; lia].
  rewrite (rne_unfold (4 * m + _ + _) (n + 2) qq
             (4 * mu + (if r then 2 else 0) + (if s then 1 else 0)));
    [|rewrite E2; destruct r, s; lia
     |rewrite E2; destruct r, s; lia].
  rewrite E1, E2.
  destruct r, s; cbn [orb];
    repeat match goal with
    | |- context [?a ?= ?b] => destruct (Z.compare_spec a b)
    end; try reflexivity; lia.
Qed.

Lemma shr_1_nonneg (mrs : shr_record) : 0 <= shr_m mrs -> 0 <= shr_m (shr_1 mrs).
Proof.
  destruct mrs as [m r s]; cbn [shr_m]. intros Hm.
  rewrite shr_1_spec by assumption. cbn [shr_m]. apply Z.div_pos; lia.
Qed.

Lemma shr_1_m (mrs : shr_record) :
  0 <= shr_m mrs -> shr_m (shr_1 mrs) = shr_m mrs / 2.
Proof.
  destruct mrs as [m r s]; cbn [shr_m]. intros Hm.
  rewrite shr_1_spec by assumption. reflexivity.
Qed.

Lemma shr_iter_m (n : nat) (mrs : shr_record) :
  0 <= shr_m mrs ->
  shr_m (Nat.iter n shr_1 mrs) = shr_m mrs / 2 ^ Z.of_nat n.
Proof.
  intros Hm. induction n as [|n IH].
  - simpl. rewrite Z.div_1_r. reflexivity.
  - rewrite Nat.iter_succ.
    assert (Hn : 0 <= shr_m (Nat.iter n shr_1 mrs)).
    { rewrite IH. apply Z.div_pos; [assumption|]. apply Z.pow_pos_nonneg; lia. }
    rewrite shr_1_m by assumption.
    rewrite IH, Nat2Z.inj_succ, Z.pow_succ_r by lia.
    rewrite Z.div_div by (try apply Z.pow_pos_nonneg; lia).
    f_equal. lia.
Qed.

Lemma shr_iter_rne (n : nat) (mrs : shr_record) :
  0 <= shr_m mrs ->
  rne (rec_code (Nat.iter n shr_1 mrs)) 2
  = rne (rec_code mrs) (Z.of_nat n + 2).
Proof.
  revert mrs. induction n as [|n IH]; intros mrs Hm.
  - reflexivity.
  - rewrite Nat.iter_succ_r. rewrite IH by (apply shr_1_nonneg; assumption).
    rewrite Nat2Z.inj_succ.
    replace (Z.of_nat n + 2) with ((Z.of_nat n + 1) + 1) by lia.
    replace (Z.succ (Z.of_nat n) + 2) with ((Z.of_nat n + 1) + 2) by lia.
    apply rne_shr_1; [assumption|lia].
Qed.

Lemma round_nearest_even_rne (mrs : shr_record) :
  round_nearest_even (shr_m mrs) (loc_of_shr_record mrs)
  = rne (rec_code mrs) 2.
Proof.
  destruct mrs as [m r s]. unfold rec_code; cbn [shr_m shr_r shr_s].
  rewrite (rne_unfold _ 2 m ((if r then 2 else 0) + (if s then 1 else 0)));
    [|destruct r, s; simpl; lia|destruct r, s; simpl; lia].
  destruct r, s; reflexivity.
Qed.

Lemma rec_code_of_loc (m : Z) (l : location) :
  rec_code (shr_record_of_loc m l) = 4 * m + loc_code l.
Proof. destruct l as [|[]]; unfold rec_code; simpl; lia. Qed.

Lemma shr_m_of_loc (m : Z) (l : location) : shr_m (shr_record_of_loc m l) = m.
Proof. destruct l as [|[]]; reflexivity. Qed.

(** [shr] shifts by [Z.max 0 n] positions. *)
Lemma shr_spec (mrs : shr_record) (e n : Z) :
  shr mrs e n
  = (Nat.iter (Z.to_nat n) shr_1 mrs, e + Z.max 0 n).
Proof.
  unfold shr. destruct n as [|p|p].
  - simpl. f_equal. lia.
  - rewrite iter_pos_nat. f_equal.
  - simpl. f_equal. lia.
Qed.

(** The first half of [binary_round_aux]: shift to the exponent of the
    format, then round. *)
Lemma shr_fexp_round (m e : Z) (l : location) :
  0 <= m ->
  let n := Z.max 0 (fexp F64.prec F64.emax (Zdigits2 m + e) - e) in
  let '(mrs, e') := shr_fexp F64.prec F64.emax m e l in
  round_nearest_even (shr_m mrs) (loc_of_shr_record mrs)
  = rne (4 * m + loc_code l) (n + 2)
  /\ shr_m mrs = m / 2 ^ n
  /\ e' = e + n.
Proof.
  intros Hm n. unfold shr_fexp. rewrite shr_spec.
  fold n.
  assert (Hn : Z.of_nat (Z.to_nat (fexp F64.prec F64.emax (Zdigits2 m + e) - e)) = n).
  { unfold n. lia. }
  split; [|split].
  - rewrite round_nearest_even_rne, shr_iter_rne
      by (rewrite shr_m_of_loc; assumption).
    rewrite rec_code_of_loc, Hn. reflexivity.
  - rewrite shr_iter_m by (rewrite shr_m_of_loc; assumption).
    rewrite shr_m_of_loc, Hn. reflexivity.
  - reflexivity.
Qed.

Lemma fexp_eq (x : Z) : fexp F64.prec F64.emax x = Z.max (x - 53) (-1074).
Proof. reflexivity. Qed.

Lemma loc_code_range (l : location) : 0 <= loc_code l <= 3.
Proof. destruct l as [|[]]; simpl; lia. Qed.

Lemma rne_bounds (M c n : Z) :
  0 <= M -> 0 <= c <= 3 -> 0 <= n ->
  M / 2 ^ n <= rne (4 * M + c) (n + 2) <= M / 2 ^ n + 1.
Proof.
  intros HM Hc Hn.
  assert (P : 0 < 2 ^ n) by (apply Z.pow_pos_nonneg; lia).
  pose proof (Z.div_mod M (2 ^ n) ltac:(lia)) as D.
  pose proof (Z.mod_pos_bound M (2 ^ n) P) as B.
  assert (E2 : 2 ^ (n + 2) = 4 * 2 ^ n).
  { rewrite Z.pow_add_r by lia. change (2 ^ 2) with 4. lia. }
  rewrite (rne_unfold _ (n + 2) (M / 2 ^ n) (4 * (M mod 2 ^ n) + c));
    [|rewrite E2; lia|rewrite E2; lia].
  destruct (_ ?= _); [destruct (Z.even _)|..]; lia.
Qed.

Lemma rne_exact (M n : Z) :
  0 <= n -> rne (4 * (M * 2 ^ n)) (n + 2) = M.
Proof.
  intros Hn.
  assert (P : 0 < 2 ^ n) by (apply Z.pow_pos_nonneg; lia).
  assert (E2 : 2 ^ (n + 2) = 4 * 2 ^ n).
  { rewrite Z.pow_add_r by lia. change (2 ^ 2) with 4. lia. }
  rewrite (rne_unfold _ (n + 2) M 0); [|rewrite E2; lia|rewrite E2; lia].
  rewrite E2. destruct (Z.compare_spec (2 * 0) (4 * 2 ^ n)); lia.
Qed.

(** *** [binary_round_aux] and [binary_round] in closed form *)

Lemma binary_round_aux_core (s : bool) (M E : Z) (l : location) :
  0 <= M ->
  binary_round_aux F64.prec F64.emax s M E l
  = pack s (fst (round_core M E (loc_code l)))
           (snd (round_core M E (loc_code l))).
Proof.
  intros HM. unfold binary_round_aux, round_core.
  pose proof (shr_fexp_round M E l HM) as H1. cbv zeta in H1.
  destruct (shr_fexp F64.prec F64.emax M E l) as [mrs' e'].
  destruct H1 as (Hr & _ & He'). rewrite Hr, He'.
  set (n := Z.max 0 (fexp F64.prec F64.emax (Zdigits2 M + E) - E)).
  set (m2 := rne (4 * M + loc_code l) (n + 2)).
  assert (Hm2 : 0 <= m2).
  { pose proof (rne_bounds M (loc_code l) n HM (loc_code_range l) ltac:(lia)) as [Lo _].
    fold m2 in Lo. assert (0 <= M / 2 ^ n) by (apply Z.div_pos; [lia|apply Z.pow_pos_nonneg; lia]).
    lia. }
  pose proof (shr_fexp_round m2 (E + n) loc_Exact Hm2) as H2. cbv zeta in H2.
  destruct (shr_fexp F64.prec F64.emax m2 (E + n) loc_Exact) as [mrs'' e''].
  destruct H2 as (_ & Hm'' & He''). rewrite Hm'', He''.
  cbn [fst snd]. unfold pack. reflexivity.
Qed.

Lemma Zdigits2_pow2 (k : Z) : 0 <= k -> Zdigits2 (2 ^ k) = k + 1.
Proof.
  intros Hk. assert (0 < 2 ^ k) by (apply Z.pow_pos_nonneg; lia).
  apply Zdigits2_unique; [|assumption].
  replace (k + 1 - 1) with k by lia. rewrite Z.pow_add_r by lia. lia.
Qed.

Lemma round_core_canonical (M E c : Z) :
  0 < M -> 0 <= c <= 3 ->
  E <= fexp F64.prec F64.emax (Zdigits2 M + E) ->
  fst (round_core M E c) = 0 \/
  canon (fst (round_core M E c)) (snd (round_core M E c)).
Proof.
  intros HM Hc Hpre. unfold round_core, canon. cbn [fst snd].
  set (d := Zdigits2 M) in *. set (g := fexp F64.prec F64.emax (d + E)) in *.
  assert (Hd : 0 < d) by (apply Zdigits2_pos; assumption).
  replace (Z.max 0 (g - E)) with (g - E) by lia.
  set (n := g - E). replace (E + n) with g by (unfold n; lia).
  pose proof (rne_bounds M c n ltac:(lia) Hc ltac:(lia)) as Hb.
  set (m2 := rne (4 * M + c) (n + 2)) in *.
  assert (Hg : g = Z.max (d + E - 53) (-1074)) by reflexivity.
  destruct (Z.le_gt_cases d n) as [Hsmall|Hbig].
  - (* the whole mantissa is shifted out *)
    rewrite (div_pow2_small M n) in Hb by lia.
    assert (Hg' : g = -1074) by lia.
    assert (Hm2 : m2 = 0 \/ m2 = 1) by lia.
    destruct Hm2 as [E0 | E0]; rewrite E0.
    + left. apply Z.div_0_l. apply Z.pow_nonzero; lia.
    + right. change (Zdigits2 1) with 1. rewrite !fexp_eq.
      replace (Z.max 0 (Z.max (1 + g - 53) (-1074) - g)) with 0 by lia.
      change (2 ^ 0) with 1. rewrite Z.div_1_r. change (Zdigits2 1) with 1. lia.
  - pose proof (Zdigits2_div_pow2 M n HM ltac:(lia)) as Hd1.
    fold d in Hd1.
    assert (Hm1 : 0 < M / 2 ^ n).
    { apply Z.div_str_pos. split; [apply Z.pow_pos_nonneg; lia|].
      pose proof (Zdigits2_bounds M HM) as [Lo _]. fold d in Lo.
      assert (2 ^ n <= 2 ^ (d - 1)) by (apply Z.pow_le_mono_r; lia). lia. }
    pose proof (Zdigits2_bounds (M / 2 ^ n) Hm1) as [Lo1 Hi1].
    rewrite Hd1 in Lo1, Hi1.
    right.
    destruct (Z.eq_dec m2 (2 ^ (d - n))) as [Hcarry|Hno].
    + rewrite Hcarry. rewrite Zdigits2_pow2 by lia. rewrite !fexp_eq.
      destruct (Z.le_gt_cases (-1074) (d + E - 53)) as [Hnorm|Hsub].
      * replace (Z.max 0 (Z.max (d - n + 1 + g - 53) (-1074) - g)) with 1 by lia.
        change (2 ^ 1) with 2.
        assert (E2 : 2 ^ (d - n) = 2 * 2 ^ (d - n - 1)).
        { rewrite <- Z.pow_succ_r by lia. f_equal. lia. }
        rewrite E2. replace (2 * 2 ^ (d - n - 1) / 2) with (2 ^ (d - n - 1))
          by (apply Z.div_unique_exact; lia).
        rewrite Zdigits2_pow2 by lia.
        split; [apply Z.pow_pos_nonneg; lia|lia].
      * replace (Z.max 0 (Z.max (d - n + 1 + g - 53) (-1074) - g)) with 0 by lia.
        rewrite Z.div_1_r. rewrite Zdigits2_pow2 by lia.
        split; [apply Z.pow_pos_nonneg; lia|lia].
    + assert (Hdm2 : Zdigits2 m2 = d - n).
      { apply Zdigits2_unique; lia. }
      rewrite Hdm2. rewrite !fexp_eq.
      replace (Z.max 0 (Z.max (d - n + g - 53) (-1074) - g)) with 0 by lia.
      rewrite Z.div_1_r, Hdm2. split; lia.
Qed.

(** Under the precondition of the rounding, the packed mantissa has the
    value of the rounded one and is canonical. *)
Lemma round_core_value (M E c : Z) :
  0 <= M -> 0 <= c <= 3 ->
  (0 < M -> E <= fexp F64.prec F64.emax (Zdigits2 M + E)) ->
  (M = 0 -> E <= -1074) ->
  let g := fexp F64.prec F64.emax (Zdigits2 M + E) in
  let m2 := rne (4 * M + c) (g - E + 2) in
  g <= snd (round_core M E c) /\
  fst (round_core M E c) * 2 ^ (snd (round_core M E c) - g) = m2 /\
  (fst (round_core M E c) = 0 \/
   canon (fst (round_core M E c)) (snd (round_core M E c))).
Proof.
  intros HM Hc Hpre Hzero. cbv zeta.
  destruct (Z.eq_dec M 0) as [->|HMne].
  - (* zero mantissa: the inexact bits may still round up to one *)
    specialize (Hzero eq_refl). unfold round_core, canon. cbn [fst snd].
    change (Zdigits2 0) with 0. rewrite ?fexp_eq.
    replace (Z.max (0 + E - 53) (-1074)) with (-1074) by lia.
    replace (Z.max 0 (-1074 - E)) with (-1074 - E) by lia.
    pose proof (rne_bounds 0 c (-1074 - E) ltac:(lia) Hc ltac:(lia)) as Hb.
    rewrite Z.div_0_l in Hb by (apply Z.pow_nonzero; lia).
    set (m2 := rne (4 * 0 + c) (-1074 - E + 2)) in *.
    replace (E + (-1074 - E)) with (-1074) by lia.
    assert (Hm2 : m2 = 0 \/ m2 = 1) by lia.
    destruct Hm2 as [E0 | E0]; rewrite E0.
    + change (Zdigits2 0) with 0. rewrite ?fexp_eq.
      replace (Z.max 0 (Z.max (0 + -1074 - 53) (-1074) - -1074)) with 0 by lia.
      change (2 ^ 0) with 1. rewrite Z.div_1_r. 
      replace (-1074 + 0 - -1074) with 0 by lia. simpl. lia.
    + change (Zdigits2 1) with 1. rewrite ?fexp_eq.
      replace (Z.max 0 (Z.max (1 + -1074 - 53) (-1074) - -1074)) with 0 by lia.
      change (2 ^ 0) with 1. rewrite Z.div_1_r. change (Zdigits2 1) with 1.
      replace (-1074 + 0 - -1074) with 0 by lia. simpl. lia.
  - assert (HM' : 0 < M) by lia. specialize (Hpre HM'). clear Hzero.
    pose proof (round_core_canonical M E c HM' Hc Hpre) as Hcan.
    split; [|split; [|exact Hcan]]; clear Hcan;
    unfold round_core; cbn [fst snd];
    set (d := Zdigits2 M) in *; set (g := fexp F64.prec F64.emax (d + E)) in *;
    replace (Z.max 0 (g - E)) with (g - E) by lia;
    replace (E + (g - E)) with g by lia;
    set (m2 := rne (4 * M + c) (g - E + 2)).
    + lia.
    + assert (Hd : 0 < d) by (apply Zdigits2_pos; assumption).
      pose proof (rne_bounds M c (g - E) ltac:(lia) Hc ltac:(lia)) as Hb.
      fold m2 in Hb.
      assert (Hg : g = Z.max (d + E - 53) (-1074)) by reflexivity.
      replace (g + Z.max 0 (fexp F64.prec F64.emax (Zdigits2 m2 + g) - g) - g)
        with (Z.max 0 (fexp F64.prec F64.emax (Zdigits2 m2 + g) - g)) by lia.
      destruct (Z.le_gt_cases d (g - E)) as [Hsmall|Hbig].
      * rewrite (div_pow2_small M (g - E)) in Hb by lia.
        assert (Hm2 : m2 = 0 \/ m2 = 1) by lia.
        destruct Hm2 as [E0 | E0]; rewrite E0.
        -- rewrite Z.div_0_l by (apply Z.pow_nonzero; lia). reflexivity.
        -- change (Zdigits2 1) with 1. rewrite ?fexp_eq.
           replace (Z.max 0 (Z.max (1 + g - 53) (-1074) - g)) with 0 by lia.
           reflexivity.
      * pose proof (Zdigits2_div_pow2 M (g - E) HM' ltac:(lia)) as Hd1.
        fold d in Hd1.
        assert (Hm1 : 0 < M / 2 ^ (g - E)).
        { apply Z.div_str_pos. split; [apply Z.pow_pos_nonneg; lia|].
          pose proof (Zdigits2_bounds M HM') as [Lo _]. fold d in Lo.
          assert (2 ^ (g - E) <= 2 ^ (d - 1)) by (apply Z.pow_le_mono_r; lia).
          lia. }
        pose proof (Zdigits2_bounds (M / 2 ^ (g - E)) Hm1) as [Lo1 Hi1].
        rewrite Hd1 in Lo1, Hi1.
        destruct (Z.eq_dec m2 (2 ^ (d - (g - E)))) as [Hcarry|Hno].
        -- rewrite Hcarry. rewrite Zdigits2_pow2 by lia. rewrite ?fexp_eq.
           destruct (Z.le_gt_cases (-1074) (d + E - 53)) as [Hnorm|Hsub].
           ++ replace (Z.max 0 (Z.max (d - (g - E) + 1 + g - 53) (-1074) - g))
                with 1 by lia.
              change (2 ^ 1) with 2.
              assert (E2 : 2 ^ (d - (g - E)) = 2 * 2 ^ (d - (g - E) - 1)).
              { rewrite <- Z.pow_succ_r by lia. f_equal. lia. }
              rewrite E2.
              replace (2 * 2 ^ (d - (g - E) - 1) / 2)
                with (2 ^ (d - (g - E) - 1))
                by (apply Z.div_unique_exact; lia).
              lia.
           ++ replace (Z.max 0 (Z.max (d - (g - E) + 1 + g - 53) (-1074) - g))
                with 0 by lia.
              change (2 ^ 0) with 1. rewrite Z.div_1_r. lia.
        -- assert (Hdm2 : Zdigits2 m2 = d - (g - E)).
           { apply Zdigits2_unique; lia. }
           rewrite Hdm2, ?fexp_eq.
           replace (Z.max 0 (Z.max (d - (g - E) + g - 53) (-1074) - g))
             with 0 by lia.
           change (2 ^ 0) with 1. rewrite Z.div_1_r. lia.
Qed.

Lemma pos_iter_xO (m d : positive) :
  Zpos (Pos.iter xO m d) = Zpos m * 2 ^ Zpos d.
Proof.
  induction d as [|d IH] using Pos.peano_ind.
  - cbn [Pos.iter]. rewrite Pos2Z.inj_xO. change (2 ^ 1) with 2. lia.
  - rewrite Pos.iter_succ, Pos2Z.inj_xO, IH, Pos2Z.inj_succ, Z.pow_succ_r by lia.
    lia.
Qed.

Lemma round_core_exact (M E : Z) :
  0 < M -> fexp F64.prec F64.emax (Zdigits2 M + E) = E ->
  round_core M E 0 = (M, E).
Proof.
  intros HM Hg. unfold round_core. rewrite Hg.
  replace (Z.max 0 (E - E)) with 0 by lia.
  replace (4 * M + 0) with (4 * (M * 2 ^ 0)) by (change (2 ^ 0) with 1; lia).
  rewrite rne_exact by lia. replace (E + 0) with E by lia. rewrite Hg.
  replace (Z.max 0 (E - E)) with 0 by lia.
  change (2 ^ 0) with 1. rewrite Z.div_1_r. f_equal. lia.
Qed.

Lemma binary_round_core (s : bool) (m : positive) (e : Z) :
  binary_round F64.prec F64.emax s m e
  = pack s (fst (br_core (Zpos m) e)) (snd (br_core (Zpos m) e)).
Proof.
  unfold binary_round, br_core, shl_align.
  change (Zpos (digits2_pos m)) with (Zdigits2 (Zpos m)).
  set (g := fexp F64.prec F64.emax (Zdigits2 (Zpos m) + e)).
  destruct (Z.ltb_spec g e) as [Hlt|Hge].
  - destruct (g - e) as [|p|p] eqn:Ed; try lia.
    rewrite binary_round_aux_core by lia.
    rewrite pos_iter_xO. replace (Zpos p) with (e - g) by lia.
    rewrite round_core_exact; [reflexivity|lia|].
    rewrite Zdigits2_mul_pow2 by lia.
    replace (Zdigits2 (Zpos m) + (e - g) + g) with (Zdigits2 (Zpos m) + e) by lia.
    reflexivity.
  - destruct (g - e) as [|p|p] eqn:Ed; try lia;
      rewrite binary_round_aux_core by lia; reflexivity.
Qed.

Lemma br_core_identity (m e k : Z) :
  canon m e -> 0 <= k -> br_core (m * 2 ^ k) (e - k) = (m, e).
Proof.
  intros [Hm Hg] Hk. unfold br_core.
  rewrite Zdigits2_mul_pow2 by lia.
  replace (Zdigits2 m + k + (e - k)) with (Zdigits2 m + e) by lia.
  rewrite Hg.
  destruct (Z.ltb_spec e (e - k)); [lia|].
  unfold round_core.
  rewrite Zdigits2_mul_pow2 by lia.
  replace (Zdigits2 m + k + (e - k)) with (Zdigits2 m + e) by lia.
  rewrite Hg. replace (Z.max 0 (e - (e - k))) with k by lia.
  replace (4 * (m * 2 ^ k) + 0) with (4 * (m * 2 ^ k)) by lia.
  rewrite rne_exact by lia.
  replace (e - k + k) with e by lia. rewrite Hg.
  replace (Z.max 0 (e - e)) with 0 by lia.
  change (2 ^ 0) with 1. rewrite Z.div_1_r. f_equal. lia.
Qed.

Lemma br_core_canon (M E : Z) :
  0 < M ->
  fst (br_core M E) = 0 \/ canon (fst (br_core M E)) (snd (br_core M E)).
Proof.
  intros HM. unfold br_core.
  destruct (Z.ltb_spec (fexp F64.prec F64.emax (Zdigits2 M + E)) E) as [Hlt|Hge].
  - right. cbn [fst snd]. split.
    + apply Z.mul_pos_pos; [assumption|apply Z.pow_pos_nonneg; lia].
    + rewrite Zdigits2_mul_pow2 by lia. f_equal. lia.
  - apply round_core_canonical; [assumption|lia|assumption].
Qed.

Lemma pack_valid (s : bool) (m e : Z) :
  m = 0 \/ canon m e -> valid_binary F64.prec F64.emax (pack s m e) = true.
Proof.
  intros [->|[Hm Hg]]; [reflexivity|].
  destruct m as [|p|p]; try lia. unfold pack.
  destruct (Z.leb_spec e (F64.emax - F64.prec)) as [Hle|Hgt]; [|reflexivity].
  cbn [valid_binary]. unfold bounded, canonical_mantissa.
  change (Zpos (digits2_pos p)) with (Zdigits2 (Zpos p)).
  rewrite Hg, Z.eqb_refl. apply Z.leb_le. exact Hle.
Qed.

Lemma valid_canon (s : bool) (m : positive) (e : Z) :
  valid_binary F64.prec F64.emax (S754_finite s m e) = true ->
  canon (Zpos m) e /\ e <= 971.
Proof.
  cbn [valid_binary]. unfold bounded, canonical_mantissa.
  intros H. apply andb_true_iff in H. destruct H as [H1 H2].
  apply Z.eqb_eq in H1. apply Z.leb_le in H2.
  split; [split; [lia|exact H1]|exact H2].
Qed.

Lemma binary_normalize_valid (M E : Z) (sz : bool) :
  valid_binary F64.prec F64.emax (binary_normalize F64.prec F64.emax M E sz) = true.
Proof.
  destruct M as [|p|p]; [reflexivity|..]; cbn [binary_normalize];
    rewrite binary_round_core; apply pack_valid, br_core_canon; lia.
Qed.

(** Rounding a number that is already in the format gives it back. *)
Lemma binary_normalize_identity (s : bool) (m : positive) (e k : Z) :
  valid_binary F64.prec F64.emax (S754_finite s m e) = true -> 0 <= k ->
  binary_normalize F64.prec F64.emax (cond_Zopp s (Zpos m * 2 ^ k)) (e - k) false
  = S754_finite s m e.
Proof.
  intros Hv Hk. apply valid_canon in Hv. destruct Hv as [Hc He].
  assert (P : 0 < 2 ^ k) by (apply Z.pow_pos_nonneg; lia).
  assert (Hpos : 0 < Zpos m * 2 ^ k) by lia.
  destruct (Zpos m * 2 ^ k) as [|q|q] eqn:Eq; try lia.
  destruct s; cbn [cond_Zopp Z.opp binary_normalize];
    rewrite binary_round_core, <- Eq, br_core_identity by assumption;
    cbn [fst snd pack]; (destruct (Z.leb_spec e (F64.emax - F64.prec)) as [_|Hgt];
      [reflexivity|unfold F64.emax, F64.prec in Hgt; lia]).
Qed.

(** *** Rounding is monotone *)

Lemma rne_le_grid (X k Y : Z) :
  0 <= k -> X <= Y * 2 ^ k -> rne X k <= Y.
Proof.
  intros Hk HX.
  assert (P : 0 < 2 ^ k) by (apply Z.pow_pos_nonneg; lia).
  pose proof (Z.div_mod X (2 ^ k) ltac:(lia)) as D.
  pose proof (Z.mod_pos_bound X (2 ^ k) P) as B.
  unfold rne.
  assert (X / 2 ^ k <= Y) by nia.
  destruct (Z.compare_spec (2 * (X mod 2 ^ k)) (2 ^ k)) as [He|Hl|Hg];
    [destruct (Z.even _)|..]; nia.
Qed.

Lemma rne_ge_grid (X k Y : Z) :
  0 <= k -> Y * 2 ^ k <= X -> Y <= rne X k.
Proof.
  intros Hk HX.
  assert (P : 0 < 2 ^ k) by (apply Z.pow_pos_nonneg; lia).
  pose proof (Z.div_mod X (2 ^ k) ltac:(lia)) as D.
  pose proof (Z.mod_pos_bound X (2 ^ k) P) as B.
  unfold rne.
  assert (Y <= X / 2 ^ k) by nia.
  destruct (Z.compare_spec (2 * (X mod 2 ^ k)) (2 ^ k)) as [He|Hl|Hg];
    [destruct (Z.even _)|..]; lia.
Qed.

Lemma rne_mono (X1 X2 k : Z) :
  0 <= k -> X1 <= X2 -> rne X1 k <= rne X2 k.
Proof.
  intros Hk HX.
  assert (P : 0 < 2 ^ k) by (apply Z.pow_pos_nonneg; lia).
  pose proof (Z.div_mod X1 (2 ^ k) ltac:(lia)) as D1.
  pose proof (Z.mod_pos_bound X1 (2 ^ k) P) as B1.
  pose proof (Z.div_mod X2 (2 ^ k) ltac:(lia)) as D2.
  pose proof (Z.mod_pos_bound X2 (2 ^ k) P) as B2.
  assert (Hq : X1 / 2 ^ k <= X2 / 2 ^ k) by (apply Z.div_le_mono; lia).
  unfold rne.
  destruct (Z.eq_dec (X1 / 2 ^ k) (X2 / 2 ^ k)) as [Heq|Hne].
  - rewrite Heq in *.
    destruct (Z.compare_spec (2 * (X1 mod 2 ^ k)) (2 ^ k));
      destruct (Z.compare_spec (2 * (X2 mod 2 ^ k)) (2 ^ k));
      try destruct (Z.even _); lia.
  - destruct (Z.compare_spec (2 * (X1 mod 2 ^ k)) (2 ^ k));
      destruct (Z.compare_spec (2 * (X2 mod 2 ^ k)) (2 ^ k));
      repeat destruct (Z.even _); lia.
Qed.

Lemma br_core_units (M E : Z) :
  0 < M ->
  Z.min E (-1074) <= snd (br_core M E) /\
  fst (br_core M E) * 2 ^ (snd (br_core M E) - Z.min E (-1074))
  = rounded_units M E.
Proof.
  intros HM. unfold br_core, rounded_units.
  set (g := fexp F64.prec F64.emax (Zdigits2 M + E)).
  assert (Hg : -1074 <= g) by (unfold g; rewrite fexp_eq; lia).
  set (B := Z.min E (-1074)).
  destruct (Z.ltb_spec g E) as [Hlt|Hge]; cbn [fst snd].
  - split; [lia|]. rewrite <- Z.mul_assoc, <- Z.pow_add_r by lia.
    f_equal. f_equal. lia.
  - pose proof (round_core_value M E 0 ltac:(lia) ltac:(lia)
                  ltac:(intros; exact Hge) ltac:(lia)) as (H1 & H2 & _).
    cbv zeta in H1, H2. fold g in H1, H2.
    replace (4 * M) with (4 * M + 0) by lia.
    split; [lia|]. rewrite <- H2.
    rewrite <- Z.mul_assoc, <- Z.pow_add_r by lia.
    f_equal. f_equal. lia.
Qed.

Lemma fexp_mono (x y : Z) : x <= y -> fexp F64.prec F64.emax x <= fexp F64.prec F64.emax y.
Proof. rewrite !fexp_eq. lia. Qed.

Lemma rounded_units_mono (M1 M2 E : Z) :
  0 < M1 -> M1 <= M2 -> rounded_units M1 E <= rounded_units M2 E.
Proof.
  intros H1 H12. unfold rounded_units.
  set (d1 := Zdigits2 M1). set (d2 := Zdigits2 M2).
  assert (Hd : d1 <= d2) by (apply Zdigits2_le; assumption).
  pose proof (Zdigits2_bounds M1 H1) as [Lo1 Hi1]. fold d1 in Lo1, Hi1.
  pose proof (Zdigits2_bounds M2 ltac:(lia)) as [Lo2 Hi2]. fold d2 in Lo2, Hi2.
  assert (Hd1 : 0 < d1) by (apply Zdigits2_pos; assumption).
  set (g1 := fexp F64.prec F64.emax (d1 + E)). set (g2 := fexp F64.prec F64.emax (d2 + E)).
  assert (Eg1 : g1 = Z.max (d1 + E - 53) (-1074)) by reflexivity.
  assert (Eg2 : g2 = Z.max (d2 + E - 53) (-1074)) by reflexivity.
  set (B := Z.min E (-1074)).
  assert (PB : 0 < 2 ^ (E - B)) by (apply Z.pow_pos_nonneg; lia).
  destruct (Z.ltb_spec g2 E) as [Hx2|Hr2].
  - (* both exact *)
    destruct (Z.ltb_spec g1 E); [|lia]. nia.
  - destruct (Z.eq_dec g1 g2) as [Heq|Hne].
    + destruct (Z.ltb_spec g1 E); [lia|]. rewrite Heq.
      apply Z.mul_le_mono_nonneg_r; [apply Z.pow_nonneg; lia|].
      apply rne_mono; lia.
    + (* the pivot 2^(d2-1) * 2^E separates the two *)
      assert (Hg2 : g2 = d2 + E - 53) by lia.
      assert (Hlt : d1 < d2) by lia.
      assert (Hpiv2 : 2 ^ (d2 - 1 + E - B)
                      <= rne (4 * M2) (g2 - E + 2) * 2 ^ (g2 - B)).
      { replace (d2 - 1 + E - B) with (52 + (g2 - B)) by lia.
        rewrite Z.pow_add_r by lia.
        apply Z.mul_le_mono_nonneg_r; [apply Z.pow_nonneg; lia|].
        apply rne_ge_grid; [lia|].
        replace (g2 - E + 2) with (2 + (d2 - 53)) by lia.
        rewrite Z.pow_add_r by lia. 
        replace (d2 - 1) with (52 + (d2 - 53)) in Lo2 by lia.
        rewrite Z.pow_add_r in Lo2 by lia. change (2 ^ 2) with 4. lia. }
      assert (Hpiv1 : (if g1 <? E then M1 * 2 ^ (E - B)
                       else rne (4 * M1) (g1 - E + 2) * 2 ^ (g1 - B))
                      <= 2 ^ (d2 - 1 + E - B)).
      { assert (M1 <= 2 ^ (d2 - 1)).
        { assert (2 ^ d1 <= 2 ^ (d2 - 1)) by (apply Z.pow_le_mono_r; lia). lia. }
        destruct (Z.ltb_spec g1 E).
        - replace (d2 - 1 + E - B) with ((d2 - 1) + (E - B)) by lia.
          rewrite Z.pow_add_r by lia. nia.
        - replace (d2 - 1 + E - B) with ((d2 - 1 - (g1 - E)) + (g1 - B)) by lia.
          rewrite Z.pow_add_r by lia.
          apply Z.mul_le_mono_nonneg_r; [apply Z.pow_nonneg; lia|].
          apply rne_le_grid; [lia|].
          rewrite <- Z.pow_add_r by lia.
          replace (d2 - 1 - (g1 - E) + (g1 - E + 2)) with (2 + (d2 - 1)) by lia.
          rewrite Z.pow_add_r by lia. change (2 ^ 2) with 4. lia. }
      lia.
Qed.

Lemma canon_digits (m e : Z) :
  canon m e -> Zdigits2 m <= 53 /\ (-1074 <= e) /\ (-1074 < e -> Zdigits2 m = 53).
Proof. intros [Hm Hg]. rewrite fexp_eq in Hg. lia. Qed.

(** On canonical pairs the order of [SFcompare] is the order of the
    values. *)
Lemma canon_exponent_le (m1 e1 m2 e2 B : Z) :
  canon m1 e1 -> canon m2 e2 -> B <= e1 -> B <= e2 ->
  m1 * 2 ^ (e1 - B) <= m2 * 2 ^ (e2 - B) ->
  e1 < e2 \/ (e1 = e2 /\ m1 <= m2).
Proof.
  intros C1 C2 HB1 HB2 Hv.
  pose proof (canon_digits _ _ C1) as (D1 & E1 & N1).
  pose proof (canon_digits _ _ C2) as (D2 & E2 & N2).
  destruct C1 as [P1 _], C2 as [P2 _].
  destruct (Z.lt_trichotomy e1 e2) as [Hlt|[Heq|Hgt]]; [left; assumption| |].
  - right. split; [assumption|]. subst e2.
    assert (0 < 2 ^ (e1 - B)) by (apply Z.pow_pos_nonneg; lia). nia.
  - exfalso.
    pose proof (Zdigits2_bounds m1 P1) as [Lo1 _].
    pose proof (Zdigits2_bounds m2 P2) as [_ Hi2].
    rewrite N1 in Lo1 by lia. change (2 ^ (53 - 1)) with (2 ^ 52) in Lo1.
    assert (Hi2' : m2 < 2 ^ 53).
    { assert (2 ^ Zdigits2 m2 <= 2 ^ 53) by (apply Z.pow_le_mono_r; lia). lia. }
    replace (e1 - B) with ((e1 - e2 - 1) + 1 + (e2 - B)) in Hv by lia.
    rewrite !Z.pow_add_r in Hv by lia.
    assert (0 < 2 ^ (e2 - B)) by (apply Z.pow_pos_nonneg; lia).
    assert (0 < 2 ^ (e1 - e2 - 1)) by (apply Z.pow_pos_nonneg; lia).
    change (2 ^ 1) with 2 in Hv.
    assert (m2 * 2 ^ (e2 - B) < 2 ^ 53 * 2 ^ (e2 - B)) by nia.
    assert (2 ^ 52 * (2 ^ (e1 - e2 - 1) * 2 * 2 ^ (e2 - B))
            <= m1 * (2 ^ (e1 - e2 - 1) * 2 * 2 ^ (e2 - B))).
    { apply Z.mul_le_mono_nonneg_r; [|assumption]. nia. }
    change (2 ^ 53) with (2 ^ 52 * 2) in *.
    nia.
Qed.

Lemma pack_leb (m1 e1 m2 e2 B : Z) :
  m1 = 0 \/ canon m1 e1 -> m2 = 0 \/ canon m2 e2 ->
  B <= e1 -> B <= e2 ->
  m1 * 2 ^ (e1 - B) <= m2 * 2 ^ (e2 - B) ->
  SFleb (pack false m1 e1) (pack false m2 e2) = true /\
  SFleb (pack true m2 e2) (pack true m1 e1) = true.
Proof.
  intros H1 H2 HB1 HB2 Hv.
  assert (P1 : 0 < 2 ^ (e1 - B)) by (apply Z.pow_pos_nonneg; lia).
  assert (P2 : 0 < 2 ^ (e2 - B)) by (apply Z.pow_pos_nonneg; lia).
  destruct H1 as [->|C1], H2 as [->|C2].
  - split; reflexivity.
  - destruct C2 as [Hm2 _]. destruct m2 as [|p|p]; try lia.
    unfold pack. destruct (e2 <=? F64.emax - F64.prec); split; reflexivity.
  - destruct C1 as [Hm1 _]. nia.
  - destruct (canon_exponent_le _ _ _ _ _ C1 C2 HB1 HB2 Hv) as [Hlt|[-> Hle]];
      destruct C1 as [Hm1 _], C2 as [Hm2 _];
      destruct m1 as [|p1|p1]; try lia; destruct m2 as [|p2|p2]; try lia;
      unfold pack.
    + assert (Hc1 : (e1 ?= e2) = Lt) by (apply Z.compare_lt_iff; assumption).
      assert (Hc2 : (e2 ?= e1) = Gt) by (apply Z.compare_gt_iff; assumption).
      unfold F64.emax, F64.prec.
      destruct (Z.leb_spec e1 (1024 - 53)), (Z.leb_spec e2 (1024 - 53));
        try lia; unfold SFleb, SFcompare; rewrite ?Hc1, ?Hc2;
        split; reflexivity.
    + destruct (e2 <=? F64.emax - F64.prec); [|split; reflexivity].
      unfold SFleb, SFcompare. rewrite Z.compare_refl.
      change (Pos.compare_cont Eq p1 p2) with (Pos.compare p1 p2).
      change (Pos.compare_cont Eq p2 p1) with (Pos.compare p2 p1).
      rewrite (Pos.compare_antisym p1 p2).
      destruct (Pos.compare_spec p1 p2); try (split; reflexivity). lia.
Qed.

Lemma pack_sign_leb (m1 e1 m2 e2 : Z) :
  0 <= m1 -> 0 <= m2 ->
  SFleb (pack true m1 e1) (pack false m2 e2) = true.
Proof.
  intros H1 H2. destruct m1 as [|p1|p1], m2 as [|p2|p2]; try lia; unfold pack;
    repeat match goal with |- context [if ?b then _ else _] => destruct b end;
    reflexivity.
Qed.

Lemma br_core_nonneg (M E : Z) : 0 < M -> 0 <= fst (br_core M E).
Proof.
  intros HM. destruct (br_core_canon M E HM) as [->|[H _]]; lia.
Qed.

Lemma binary_normalize_mono (M1 M2 E : Z) :
  M1 <= M2 ->
  SFleb (binary_normalize F64.prec F64.emax M1 E false)
        (binary_normalize F64.prec F64.emax M2 E false) = true.
Proof.
  intros H12.
  destruct M1 as [|p1|p1], M2 as [|p2|p2]; try lia;
    cbn [binary_normalize]; rewrite ?binary_round_core.
  - reflexivity.
  - pose proof (br_core_nonneg (Zpos p2) E ltac:(lia)).
    destruct (fst (br_core (Zpos p2) E)) as [|q|q]; try lia; unfold pack;
      repeat match goal with |- context [if ?b then _ else _] => destruct b end;
      reflexivity.
  - pose proof (br_core_units (Zpos p1) E ltac:(lia)) as [B1 U1].
    pose proof (br_core_units (Zpos p2) E ltac:(lia)) as [B2 U2].
    apply (pack_leb _ _ _ _ (Z.min E (-1074)));
      try (apply br_core_canon; lia); try assumption.
    rewrite U1, U2. apply rounded_units_mono; lia.
  - pose proof (br_core_nonneg (Zpos p1) E ltac:(lia)).
    destruct (fst (br_core (Zpos p1) E)) as [|q|q]; try lia; unfold pack;
      repeat match goal with |- context [if ?b then _ else _] => destruct b end;
      reflexivity.
  - apply pack_sign_leb; apply br_core_nonneg; lia.
  - pose proof (br_core_units (Zpos p1) E ltac:(lia)) as [B1 U1].
    pose proof (br_core_units (Zpos p2) E ltac:(lia)) as [B2 U2].
    apply (pack_leb _ _ _ _ (Z.min E (-1074)));
      try (apply br_core_canon; lia); try assumption.
    rewrite U1, U2. apply rounded_units_mono; lia.
Qed.

Lemma shl_align_fst (m : positive) (e e' : Z) :
  e' <= e -> Zpos (fst (shl_align m e e')) = Zpos m * 2 ^ (e - e').
Proof.
  intros Hle. unfold shl_align.
  destruct (e' - e) as [|p|p] eqn:Ed; try lia; cbn [fst].
  - replace (e - e') with 0 by lia. simpl. lia.
  - rewrite pos_iter_xO. f_equal. f_equal. lia.
Qed.

Lemma SFleb_refl_finite (s : bool) (m : positive) (e : Z) :
  SFleb (S754_finite s m e) (S754_finite s m e) = true.
Proof.
  unfold SFleb, SFcompare. rewrite Z.compare_refl.
  change (Pos.compare_cont Eq m m) with (Pos.compare m m).
  rewrite Pos.compare_refl. destruct s; reflexivity.
Qed.

(** Subtracting a non-negative number does not increase a float. *)
Lemma SFsub_le (a c : float) :
  valid_binary F64.prec F64.emax a = true -> F64.is_finite a = true -> nonneg c = true ->
  SFleb (SFsub F64.prec F64.emax a c) a = true.
Proof.
  intros Hv Hf Hc.
  destruct a as [sa|sa| |sa ma ea]; try discriminate;
    destruct c as [sc|[|]| |[|] mc ec]; try discriminate;
    try (destruct sa; try destruct sc; reflexivity).
  - cbn [SFsub]. apply SFleb_refl_finite.
  - cbn [SFsub cond_Zopp].
    rewrite !shl_align_fst by lia.
    set (ez := Z.min ea ec).
    rewrite <- (binary_normalize_identity sa ma ea (ea - ez) Hv ltac:(lia)).
    replace (ea - (ea - ez)) with ez by lia.
    apply binary_normalize_mono.
    assert (0 < Zpos mc * 2 ^ (ec - ez)).
    { apply Z.mul_pos_pos; [lia|apply Z.pow_pos_nonneg; lia]. }
    lia.
Qed.

(** Adding a non-negative number does not decrease a float. *)
Lemma SFadd_ge (a c : float) :
  valid_binary F64.prec F64.emax a = true -> F64.is_finite a = true -> nonneg c = true ->
  SFleb a (SFadd F64.prec F64.emax a c) = true.
Proof.
  intros Hv Hf Hc.
  destruct a as [sa|sa| |sa ma ea]; try discriminate;
    destruct c as [sc|[|]| |[|] mc ec]; try discriminate;
    try (destruct sa; try destruct sc; reflexivity).
  - cbn [SFadd]. apply SFleb_refl_finite.
  - cbn [SFadd cond_Zopp].
    rewrite !shl_align_fst by lia.
    set (ez := Z.min ea ec).
    rewrite <- (binary_normalize_identity sa ma ea (ea - ez) Hv ltac:(lia)).
    replace (ea - (ea - ez)) with ez by lia.
    apply binary_normalize_mono.
    assert (0 < Zpos mc * 2 ^ (ec - ez)).
    { apply Z.mul_pos_pos; [lia|apply Z.pow_pos_nonneg; lia]. }
    lia.
Qed.

Lemma SFsub_valid (x y : float) :
  valid_binary F64.prec F64.emax x = true -> valid_binary F64.prec F64.emax y = true ->
  valid_binary F64.prec F64.emax (SFsub F64.prec F64.emax x y) = true.
Proof.
  intros Hx Hy.
  destruct x as [sx|sx| |sx mx ex], y as [sy|sy| |sy my ey];
    try reflexivity; try assumption;
    try (destruct sx, sy; reflexivity).
  cbn [SFsub]. apply binary_normalize_valid.
Qed.

(** The quotient and exponent that a division hands to the rounding. *)
Lemma SFdiv_core_pre (m1 m2 : positive) (e1 e2 : Z) :
  let '(q, e', l) := SFdiv_core_binary F64.prec F64.emax (Zpos m1) e1 (Zpos m2) e2 in
  0 <= q /\
  (0 < q -> e' <= fexp F64.prec F64.emax (Zdigits2 q + e')) /\
  (q = 0 -> e' <= -1074).
Proof.
  unfold SFdiv_core_binary.
  set (d1 := Zdigits2 (Zpos m1)). set (d2 := Zdigits2 (Zpos m2)).
  set (t := d1 + e1 - (d2 + e2)).
  set (e' := Z.min (fexp F64.prec F64.emax t) (e1 - e2)).
  set (s := e1 - e2 - e').
  assert (Hs : 0 <= s) by (unfold s, e'; lia).
  set (m' := match s with
             | 0 => Zpos m1
             | Zpos _ => Z.shiftl (Zpos m1) s
             | Zneg _ => 0
             end).
  assert (Hm' : m' = Zpos m1 * 2 ^ s).
  { unfold m'. destruct s as [|p|p] eqn:Es; try lia.
    apply Z.shiftl_mul_pow2. lia. }
  pose proof (Z_div_mod m' (Zpos m2) ltac:(lia)) as Hdm.
  destruct (Z.div_eucl m' (Zpos m2)) as [q r]. destruct Hdm as [Hdm Hr].
  pose proof (Zdigits2_bounds (Zpos m1) ltac:(lia)) as [Lo1 Hi1]. fold d1 in Lo1, Hi1.
  pose proof (Zdigits2_bounds (Zpos m2) ltac:(lia)) as [Lo2 Hi2]. fold d2 in Lo2, Hi2.
  assert (Hd1 : 0 < d1) by (apply Zdigits2_pos; lia).
  assert (Hd2 : 0 < d2) by (apply Zdigits2_pos; lia).
  assert (Ps : 0 < 2 ^ s) by (apply Z.pow_pos_nonneg; lia).
  assert (Lo' : 2 ^ (d1 + s - 1) <= m').
  { replace (d1 + s - 1) with ((d1 - 1) + s) by lia.
    rewrite Z.pow_add_r by lia. nia. }
  assert (Hq : 0 <= q) by nia.
  assert (He' : e' <= fexp F64.prec F64.emax t) by (unfold e'; lia).
  split; [exact Hq|]. split.
  - intros Hqpos.
    assert (Hdq : d1 + s - d2 <= Zdigits2 q).
    { pose proof (Zdigits2_pos q Hqpos).
      destruct (Z.le_gt_cases (d1 + s - d2) 1) as [|Hbig]; [lia|].
      assert (2 ^ (d1 + s - d2 - 1) <= q).
      { assert (E : 2 ^ (d1 + s - 1) = 2 ^ (d1 + s - d2 - 1) * 2 ^ d2).
        { rewrite <- Z.pow_add_r by lia. f_equal. lia. }
        assert (0 < 2 ^ (d1 + s - d2 - 1)) by (apply Z.pow_pos_nonneg; lia).
        nia. }
      assert (Zdigits2 (2 ^ (d1 + s - d2 - 1)) <= Zdigits2 q).
      { apply Zdigits2_le; [apply Z.pow_pos_nonneg; lia|assumption]. }
      rewrite Zdigits2_pow2 in * by lia. lia. }
    assert (fexp F64.prec F64.emax t <= fexp F64.prec F64.emax (Zdigits2 q + e')).
    { apply fexp_mono. unfold t. unfold s in Hdq. lia. }
    lia.
  - intros ->.
    assert (m' < Zpos m2) by lia.
    assert (d1 + s - 1 < d2).
    { apply (Z.pow_lt_mono_r_iff 2); lia. }
    rewrite fexp_eq in He'. unfold t in He'. unfold s in *. lia.
Qed.

Lemma SFdiv_valid (x y : float) :
  valid_binary F64.prec F64.emax (SFdiv F64.prec F64.emax x y) = true.
Proof.
  destruct x as [sx|sx| |sx mx ex], y as [sy|sy| |sy my ey]; try reflexivity.
  cbn [SFdiv].
  pose proof (SFdiv_core_pre mx my ex ey) as Hpre.
  destruct (SFdiv_core_binary F64.prec F64.emax (Zpos mx) ex (Zpos my) ey)
    as [[q e'] l].
  destruct Hpre as (Hq & Hpos & Hzero).
  rewrite binary_round_aux_core by assumption.
  apply pack_valid.
  apply (round_core_value q e' (loc_code l) Hq (loc_code_range l) Hpos Hzero).
Qed.

(** ** Sanitisation *)

Section SafeFloatFacts.
Context `{TextParsers}.

Lemma safe_float_scalar_json (v : pyval) :
  json_number (safe_float_scalar v) = true.
Proof.
  unfold safe_float_scalar.
  destruct (py_float v) as [f|]; [|reflexivity].
  destruct f; reflexivity.
Qed.

Lemma safe_float_np_float (f : float) :
  safe_float (NpScalar (NpFloat f)) = sanitized f.
Proof. destruct f; reflexivity. Qed.

Lemma safe_float_py_float (f : float) :
  safe_float (PyFloat f) = sanitized f.
Proof. destruct f; reflexivity. Qed.

Lemma safe_float_none : safe_float PyNone = PyNone.
Proof. reflexivity. Qed.

Lemma sanitized_json (f : float) : json_number (sanitized f) = true.
Proof. destruct f; reflexivity. Qed.

Lemma sanitized_float (f g : float) :
  sanitized f = PyFloat g -> f = g /\ F64.is_finite f = true.
Proof.
  unfold sanitized. destruct (F64.is_finite f); [|discriminate].
  intros [= ->]. split; reflexivity.
Qed.

Lemma sanitized_none (f : float) :
  sanitized f = PyNone -> F64.is_finite f = false.
Proof. unfold sanitized. destruct (F64.is_finite f); [discriminate|reflexivity]. Qed.

End SafeFloatFacts.

(** ** Order on binary64 *)

Lemma SFcompare_antisym (x y : float) :
  SFcompare y x = option_map CompOpp (SFcompare x y).
Proof.
  destruct x as [sx|sx| |sx mx ex], y as [sy|sy| |sy my ey];
    try destruct sx; try destruct sy; try reflexivity;
    simpl; rewrite (Z.compare_antisym ex ey);
    destruct (ex ?= ey); simpl; try reflexivity;
    rewrite (Pos.compare_cont_antisym mx my Eq); simpl;
    try rewrite CompOpp_involutive; reflexivity.
Qed.

(** A number is on exactly one side of a threshold. *)
Lemma geb_ltb_split (x y : float) :
  F64.isnan x = false -> F64.isnan y = false ->
  F64.geb x y = negb (F64.ltb x y).
Proof.
  intros Hx Hy. unfold F64.geb, F64.leb, F64.ltb, SFleb, SFltb.
  rewrite (SFcompare_antisym x y).
  destruct x, y; try discriminate;
    destruct (SFcompare _ _) as [[]|] eqn:E; try reflexivity;
    simpl in E; try discriminate;
    repeat match type of E with context [if ?b then _ else _] =>
      destruct b end; discriminate.
Qed.

Lemma half_value : F64.half = S754_finite false 4503599627370496 (-53).
Proof. vm_compute. reflexivity. Qed.

Lemma half_not_nan : F64.isnan F64.half = false.
Proof. rewrite half_value. reflexivity. Qed.

(** ** Structure of [compute_uplift_summary] *)

Section UpliftFacts.
Context `{TextParsers}.

Lemma dropna_not_nan (rows : list row) (r : row) :
  In r (dropna rows) ->
  F64.isnan (fst r) = false /\ F64.isnan (snd r) = false.
Proof.
  unfold dropna. rewrite filter_In. intros [_ Hr].
  apply andb_true_iff in Hr. destruct Hr as [H1 H2].
  apply negb_true_iff in H1, H2. split; assumption.
Qed.

(** The two partitions cover the rows without NaN, and do not overlap. *)
Lemma partition_length (data : list row) :
  (forall r, In r data -> F64.isnan (fst r) = false) ->
  (List.length (treated_rows data) + List.length (control_rows data))%nat
  = List.length data.
Proof.
  unfold treated_rows, control_rows.
  induction data as [|r data IH]; intros Hnan; [reflexivity|].
  cbn [filter]. rewrite (geb_ltb_split (fst r) F64.half);
    [|apply Hnan; left; reflexivity|apply half_not_nan].
  specialize (IH (fun r' Hr' => Hnan r' (or_intror Hr'))).
  destruct (F64.ltb (fst r) F64.half); simpl; lia.
Qed.

Lemma compute_uplift_summary_some
  (df : DataFrame) (treatment outcome : string) (s : UpliftSummary) :
  compute_uplift_summary df treatment outcome = Ok (Some s) ->
  has_column df treatment = true /\ has_column df outcome = true /\
  treated_rows (uplift_data df treatment outcome) <> [] /\
  control_rows (uplift_data df treatment outcome) <> [] /\
  s = uplift_of_partitions
        (treated_rows (uplift_data df treatment outcome))
        (control_rows (uplift_data df treatment outcome)).
Proof.
  unfold compute_uplift_summary.
  destruct (has_column df treatment); [|discriminate].
  destruct (has_column df outcome); [|discriminate].
  cbn [negb orb].
  destruct ((1 <? column_count df outcome)%nat
            || (1 <? column_count df treatment)%nat); [discriminate|].
  cbv zeta.
  destruct (uplift_data df treatment outcome) as [|r0 data0];
    [discriminate|].
  destruct (treated_rows (r0 :: data0)) as [|t0 tr]; [discriminate|].
  destruct (control_rows (r0 :: data0)) as [|c0 cr]; [discriminate|].
  intros [= <-].
  repeat split; congruence.
Qed.

Lemma dropna_both_coerce (ct co : list cell) :
  dropna (combine (to_numeric ct) (to_numeric co))
  = map (fun r => (to_numeric_cell (fst r), to_numeric_cell (snd r)))
      (filter both_coerce (combine ct co)).
Proof.
  revert co. induction ct as [|c ct IH]; intros [|d co]; try reflexivity.
  cbn [to_numeric map combine dropna filter fst snd].
  unfold both_coerce at 1. cbn [fst snd].
  fold (to_numeric ct) (to_numeric co).
  fold (dropna (combine (to_numeric ct) (to_numeric co))).
  rewrite IH.
  destruct (negb (F64.isnan (to_numeric_cell c))
            && negb (F64.isnan (to_numeric_cell d))); reflexivity.
Qed.

Lemma filter_map_pair
  (p : row -> bool) (l : list (cell * cell)) :
  filter p
    (map (fun r => (to_numeric_cell (fst r), to_numeric_cell (snd r))) l)
  = map (fun r => (to_numeric_cell (fst r), to_numeric_cell (snd r)))
      (filter
         (fun r => p (to_numeric_cell (fst r), to_numeric_cell (snd r))) l).
Proof.
  induction l as [|r l IH]; [reflexivity|].
  cbn [map filter]. rewrite IH.
  destruct (p (to_numeric_cell (fst r), to_numeric_cell (snd r)));
    reflexivity.
Qed.

Lemma filter_filter {A : Type} (p q : A -> bool) (l : list A) :
  filter q (filter p l) = filter (fun x => p x && q x) l.
Proof.
  induction l as [|x l IH]; [reflexivity|].
  cbn [filter]. destruct (p x); cbn [filter andb]; rewrite IH; reflexivity.
Qed.

(** The frame [data] and its two partitions, read off the cells. *)
Lemma uplift_data_raw (df : DataFrame) (treatment outcome : string) :
  uplift_data df treatment outcome
  = map (fun r => (to_numeric_cell (fst r), to_numeric_cell (snd r)))
      (filter both_coerce (raw_rows df treatment outcome)).
Proof. unfold uplift_data, raw_rows. apply dropna_both_coerce. Qed.

Lemma treated_rows_raw (df : DataFrame) (treatment outcome : string) :
  treated_rows (uplift_data df treatment outcome)
  = map (fun r => (to_numeric_cell (fst r), to_numeric_cell (snd r)))
      (filter is_treated (raw_rows df treatment outcome)).
Proof.
  rewrite uplift_data_raw. unfold treated_rows.
  rewrite filter_map_pair, filter_filter. reflexivity.
Qed.

Lemma control_rows_raw (df : DataFrame) (treatment outcome : string) :
  control_rows (uplift_data df treatment outcome)
  = map (fun r => (to_numeric_cell (fst r), to_numeric_cell (snd r)))
      (filter is_control (raw_rows df treatment outcome)).
Proof.
  rewrite uplift_data_raw. unfold control_rows.
  rewrite filter_map_pair, filter_filter. reflexivity.
Qed.

Lemma treated_outcomes_eq (df : DataFrame) (treatment outcome : string) :
  map snd (treated_rows (uplift_data df treatment outcome))
  = treated_outcomes df treatment outcome.
Proof. rewrite treated_rows_raw, map_map. reflexivity. Qed.

Lemma control_outcomes_eq (df : DataFrame) (treatment outcome : string) :
  map snd (control_rows (uplift_data df treatment outcome))
  = control_outcomes df treatment outcome.
Proof. rewrite control_rows_raw, map_map. reflexivity. Qed.

Lemma map_nil_iff {A B : Type} (f : A -> B) (l : list A) :
  map f l = [] <-> l = [].
Proof. destruct l; split; intros E; try reflexivity; discriminate. Qed.

Lemma uplift_data_rows (df : DataFrame) (treatment outcome : string) :
  List.length (uplift_data df treatment outcome)
  = List.length
      (filter both_coerce
         (combine (df_get df treatment) (df_get df outcome))).
Proof.
  unfold uplift_data, to_numeric, dropna.
  generalize (df_get df treatment) as ts, (df_get df outcome) as os.
  induction ts as [|t ts IH]; intros os; [reflexivity|].
  destruct os as [|o os]; [reflexivity|].
  simpl. unfold both_coerce at 1. simpl.
  destruct (negb (F64.isnan (to_numeric_cell t))
            && negb (F64.isnan (to_numeric_cell o))); simpl;
    rewrite IH; reflexivity.
Qed.

End UpliftFacts.

(** ** Claims on [compute_uplift_summary] *)

(** C1. Whenever [compute_uplift_summary] returns a summary, each of
    [treatment_mean], [control_mean], [absolute_uplift],
    [relative_uplift_pct] and [standard_error] is a finite float or null,
    [approximate_confidence_interval] is null or a list of such values, and
    the two counts are native integers. *)
Theorem summary_fields_finite_or_null
  `{TextParsers} (df : DataFrame) (treatment outcome : string)
  (s : UpliftSummary) :
  compute_uplift_summary df treatment outcome = Ok (Some s) ->
  json_number (treatment_mean s) = true /\
  json_number (control_mean s) = true /\
  json_number (absolute_uplift s) = true /\
  json_number (relative_uplift_pct s) = true /\
  json_number (standard_error s) = true /\
  json_interval (approximate_confidence_interval s) = true /\
  is_py_int (treatment_count s) = true /\
  is_py_int (control_count s) = true.
Proof.
  intros Hs. apply compute_uplift_summary_some in Hs.
  destruct Hs as (_ & _ & _ & _ & ->).
  unfold uplift_of_partitions; cbn [treatment_mean control_mean
    absolute_uplift relative_uplift_pct standard_error
    approximate_confidence_interval treatment_count control_count].
  rewrite !safe_float_np_float.
  repeat split; try apply sanitized_json.
  - destruct (uplift_relative _ _) as [r|]; simpl;
      [rewrite safe_float_np_float; apply sanitized_json|reflexivity].
  - destruct (uplift_se _ _ _ _) as [se|]; simpl;
      [rewrite safe_float_py_float; apply sanitized_json|reflexivity].
  - destruct (uplift_ci _ _) as [[|lo ci]|]; try reflexivity.
    cbn [json_interval]. apply forallb_forall. intros v Hv.
    apply in_map_iff in Hv. destruct Hv as (x & <- & _).
    rewrite safe_float_np_float. apply sanitized_json.
Qed.

Lemma summary_fields_finite_or_null_witness :
  compute_uplift_summary scenario_df "treatment" "outcome"
  = Ok (Some scenario_summary) /\
  json_number (treatment_mean scenario_summary) = true /\
  json_number (control_mean scenario_summary) = true /\
  json_number (absolute_uplift scenario_summary) = true /\
  json_number (relative_uplift_pct scenario_summary) = true /\
  json_number (standard_error scenario_summary) = true /\
  json_interval (approximate_confidence_interval scenario_summary) = true /\
  is_py_int (treatment_count scenario_summary) = true /\
  is_py_int (control_count scenario_summary) = true.
Proof.
  split; [vm_compute; reflexivity|].
  apply (summary_fields_finite_or_null scenario_df "treatment" "outcome").
  vm_compute. reflexivity.
Defined.

(** C2, counterexample.  In [twin_df] two columns are called "outcome".
    Both names are columns, rows coerce, and both sides have rows, so the
    claim promises a summary; the call raises a [TypeError]. *)
Lemma duplicate_outcome_raises :
  has_column twin_df "treatment" = true /\
  has_column twin_df "outcome" = true /\
  filter is_treated (raw_rows twin_df "treatment" "outcome") <> [] /\
  filter is_control (raw_rows twin_df "treatment" "outcome") <> [] /\
  compute_uplift_summary twin_df "treatment" "outcome"
  = Raise to_numeric_type_error /\
  compute_uplift_summary twin_df "treatment" "outcome" <> Ok None /\
  ~ (exists s,
        compute_uplift_summary twin_df "treatment" "outcome" = Ok (Some s)).
Proof.
  split; [reflexivity|]. split; [reflexivity|].
  split; [vm_compute; discriminate|]. split; [vm_compute; discriminate|].
  split; [reflexivity|]. split; [discriminate|].
  intros [s Hs]. discriminate Hs.
Qed.

(** C2, amended.  On a dataset in which no two columns share the treatment
    name and no two share the outcome name, [compute_uplift_summary]
    returns no summary, and raises nothing, exactly when the treatment or
    the outcome name is not a column, or no row has a treatment cell and
    an outcome cell that both coerce to numbers, or no such row has a
    treatment of at least 0.5, or no such row has a treatment below 0.5;
    in every other case it returns a summary. *)
Theorem summary_absent_iff
  `{TextParsers} (df : DataFrame) (treatment outcome : string) :
  (column_count df treatment <= 1)%nat ->
  (column_count df outcome <= 1)%nat ->
  (compute_uplift_summary df treatment outcome = Ok None <->
   (has_column df treatment = false \/
    has_column df outcome = false \/
    filter both_coerce (raw_rows df treatment outcome) = [] \/
    filter is_treated (raw_rows df treatment outcome) = [] \/
    filter is_control (raw_rows df treatment outcome) = [])) /\
  (compute_uplift_summary df treatment outcome <> Ok None ->
   exists s, compute_uplift_summary df treatment outcome = Ok (Some s)).
Proof.
  intros Ut Uo.
  pose proof (uplift_data_raw df treatment outcome) as Ed.
  pose proof (treated_rows_raw df treatment outcome) as Et.
  pose proof (control_rows_raw df treatment outcome) as Ec.
  unfold compute_uplift_summary.
  destruct (has_column df treatment); cbn [negb orb];
    [|split; [intuition|intros Hc; contradiction Hc; reflexivity]].
  destruct (has_column df outcome); cbn [negb orb];
    [|split; [intuition|intros Hc; contradiction Hc; reflexivity]].
  apply Nat.leb_le in Ut, Uo. rewrite Nat.leb_antisym in Ut, Uo.
  apply negb_true_iff in Ut, Uo. rewrite Ut, Uo. cbn [orb]. cbv zeta.
  set (conv := fun r : cell * cell =>
                 (to_numeric_cell (fst r), to_numeric_cell (snd r))) in *.
  destruct (uplift_data df treatment outcome) as [|r0 data0] eqn:Hd.
  { symmetry in Ed. apply map_nil_iff in Ed.
    split; [intuition|intros Hc; contradiction Hc; reflexivity]. }
  destruct (treated_rows (r0 :: data0)) as [|t0 tr].
  { symmetry in Et. apply map_nil_iff in Et.
    split; [intuition|intros Hc; contradiction Hc; reflexivity]. }
  destruct (control_rows (r0 :: data0)) as [|c0 cr].
  { symmetry in Ec. apply map_nil_iff in Ec.
    split; [intuition|intros Hc; contradiction Hc; reflexivity]. }
  split; [|intros _; eexists; reflexivity].
  split; [discriminate|].
  intros [Hc|[Hc|[Hc|[Hc|Hc]]]]; try discriminate;
    [rewrite Hc in Ed|rewrite Hc in Et|rewrite Hc in Ec]; discriminate.
Qed.

Lemma summary_absent_iff_witness :
  ((column_count scenario_df "treatment" <= 1)%nat /\
   (column_count scenario_df "outcome" <= 1)%nat /\
   exists s,
     compute_uplift_summary scenario_df "treatment" "outcome"
     = Ok (Some s)) /\
  ((column_count treated_only_df "treatment" <= 1)%nat /\
   (column_count treated_only_df "outcome" <= 1)%nat /\
   filter is_control (raw_rows treated_only_df "treatment" "outcome") = [] /\
   compute_uplift_summary treated_only_df "treatment" "outcome" = Ok None).
Proof.
  split.
  - assert (U1 : (column_count scenario_df "treatment" <= 1)%nat)
      by (apply Nat.leb_le; vm_compute; reflexivity).
    assert (U2 : (column_count scenario_df "outcome" <= 1)%nat)
      by (apply Nat.leb_le; vm_compute; reflexivity).
    split; [exact U1|]. split; [exact U2|].
    apply (proj2 (summary_absent_iff scenario_df "treatment" "outcome" U1 U2)).
    vm_compute. discriminate.
  - assert (U1 : (column_count treated_only_df "treatment" <= 1)%nat)
      by (apply Nat.leb_le; vm_compute; reflexivity).
    assert (U2 : (column_count treated_only_df "outcome" <= 1)%nat)
      by (apply Nat.leb_le; vm_compute; reflexivity).
    assert (Hc : filter is_control
                   (raw_rows treated_only_df "treatment" "outcome") = [])
      by (vm_compute; reflexivity).
    split; [exact U1|]. split; [exact U2|]. split; [exact Hc|].
    apply (proj1 (summary_absent_iff treated_only_df "treatment" "outcome"
                    U1 U2)).
    right; right; right; right. exact Hc.
Defined.

(** C7. On the rows (1, 10), (1, 20), (0, 5), (0, 7) the summary has
    treatment mean 15, control mean 6, absolute uplift 9, relative uplift
    150.0, and two rows on each side. *)
Theorem scenario_summary_values :
  exists s,
    compute_uplift_summary scenario_df "treatment" "outcome" = Ok (Some s) /\
    treatment_mean s = PyFloat (F64.of_Z 15) /\
    control_mean s = PyFloat (F64.of_Z 6) /\
    absolute_uplift s = PyFloat (F64.of_Z 9) /\
    relative_uplift_pct s = PyFloat (F64.of_Z 150) /\
    treatment_count s = PyInt 2 /\
    control_count s = PyInt 2.
Proof.
  exists scenario_summary. vm_compute. repeat split; reflexivity.
Qed.

(** C9. In a returned summary both counts are at least one, and they add
    up to the number of rows whose treatment and outcome cells both coerce
    to numbers. *)
Theorem summary_counts
  `{TextParsers} (df : DataFrame) (treatment outcome : string)
  (s : UpliftSummary) :
  compute_uplift_summary df treatment outcome = Ok (Some s) ->
  exists nt nc : Z,
    treatment_count s = PyInt nt /\ control_count s = PyInt nc /\
    1 <= nt /\ 1 <= nc /\
    nt + nc
    = Z.of_nat
        (List.length
           (filter both_coerce
              (combine (df_get df treatment) (df_get df outcome)))).
Proof.
  intros Hs. apply compute_uplift_summary_some in Hs.
  destruct Hs as (_ & _ & Ht & Hc & ->).
  eexists _, _. split; [reflexivity|]. split; [reflexivity|].
  rewrite <- uplift_data_rows.
  rewrite <- (partition_length (uplift_data df treatment outcome)).
  - destruct (treated_rows _); [contradiction|].
    destruct (control_rows _); [contradiction|].
    cbn [List.length]. lia.
  - intros r Hr. apply (dropna_not_nan _ _ Hr).
Qed.

Lemma summary_counts_witness :
  compute_uplift_summary scenario_df "treatment" "outcome"
  = Ok (Some scenario_summary) /\
  exists nt nc : Z,
    treatment_count scenario_summary = PyInt nt /\
    control_count scenario_summary = PyInt nc /\
    1 <= nt /\ 1 <= nc /\
    nt + nc
    = Z.of_nat
        (List.length
           (filter both_coerce
              (combine (df_get scenario_df "treatment")
                       (df_get scenario_df "outcome")))).
Proof.
  split; [vm_compute; reflexivity|].
  apply (summary_counts scenario_df "treatment" "outcome").
  vm_compute. reflexivity.
Defined.

(** A list of two floats that passes through [safe_float] element-wise. *)
Lemma summary_interval_shape
  `{TextParsers} (treated control : list row) :
  let ci := approximate_confidence_interval
              (uplift_of_partitions treated control) in
  ci = PyNone \/ exists lo hi : float, ci = PyList [sanitized lo; sanitized hi].
Proof.
  unfold uplift_of_partitions; cbn [approximate_confidence_interval].
  unfold uplift_ci.
  destruct (uplift_se _ _ _ _) as [se|]; [|left; reflexivity].
  destruct (F64.gtb se F64.zero); [|left; reflexivity].
  right. eexists _, _. cbn [map]. rewrite !safe_float_np_float. reflexivity.
Qed.

Lemma computed_interval_truthy
  `{TextParsers} (df : DataFrame) (treatment outcome : string)
  (us : option UpliftSummary) :
  compute_uplift_summary df treatment outcome = Ok us ->
  py_truthy (summary_ci us) = negb (is_none (summary_ci us)).
Proof.
  intros Hus. destruct us as [s|]; [|reflexivity].
  apply compute_uplift_summary_some in Hus.
  destruct Hus as (_ & _ & _ & _ & ->). cbn [summary_ci].
  destruct (summary_interval_shape
              (treated_rows (uplift_data df treatment outcome))
              (control_rows (uplift_data df treatment outcome)))
    as [E|(lo & hi & E)]; cbv zeta in E; rewrite E; reflexivity.
Qed.

Lemma is_none_true (v : pyval) : is_none v = true <-> v = PyNone.
Proof. destruct v; simpl; split; congruence. Qed.

Lemma existsb_is_none (l : list pyval) :
  existsb is_none l = true <-> In PyNone l.
Proof.
  rewrite existsb_exists. split.
  - intros (v & Hv & Hn). apply is_none_true in Hn. subst v. exact Hv.
  - intros Hin. exists PyNone. split; [exact Hin|reflexivity].
Qed.

Lemma estimate_causal_effect_ok
  `{TextParsers} (estimate : CausalEstimate) (refutation : option pyval)
  (df : DataFrame) (treatment outcome : string) (r : CausalResult) :
  estimate_causal_effect estimate refutation df treatment outcome = Ok r ->
  exists us,
    compute_uplift_summary df treatment outcome = Ok us /\
    r = causal_result estimate refutation us.
Proof.
  unfold estimate_causal_effect.
  destruct (compute_uplift_summary df treatment outcome) as [us|e];
    [|discriminate].
  cbn [bind]. intros [= <-]. exists us. split; reflexivity.
Qed.

(** ** Claims on [estimate_causal_effect] *)

(** C8.  The library's linear-regression estimator returns its interval
    as an array of shape (1, 2): one row holding the two bounds.  With a
    NaN lower bound, the sanitised interval is [[null, 2.0]]: the null is
    inside the row, the test of line 131 looks at the row only, and the
    interval is returned as it is although the uplift summary has an
    interval to put in its place. *)
Theorem fallback_misses_nested_null :
  let estimate :=
    {| est_value := PyFloat (F64.of_Z 1);
       est_confidence_intervals :=
         Some [NpArray (NdRows [Nd0 (NpFloat F64.nan);
                                Nd0 (NpFloat (F64.of_Z 2))])];
       est_p_value := None |} in
  exists r : CausalResult,
    estimate_causal_effect estimate None scenario_df "treatment" "outcome"
    = Ok r /\
    confidence_intervals r = PyList [PyList [PyNone; PyFloat (F64.of_Z 2)]] /\
    uplift_summary r = Some scenario_summary /\
    approximate_confidence_interval scenario_summary <> PyNone /\
    confidence_intervals r
    <> approximate_confidence_interval scenario_summary.
Proof.
  cbv zeta. eexists. split; [vm_compute; reflexivity|].
  split; [reflexivity|]. split; [reflexivity|].
  split; vm_compute; discriminate.
Qed.

(** X22. The test of line 131 as the code makes it: the summary's
    interval replaces the delegated one when that is absent, or empty, or has a null
    among its elements after sanitisation, and the summary has an interval;
    in every other case the sanitised delegated interval is returned. *)
Theorem fallback_on_top_level_null
  `{TextParsers} (estimate : CausalEstimate) (refutation : option pyval)
  (df : DataFrame) (treatment outcome : string) (r : CausalResult) :
  estimate_causal_effect estimate refutation df treatment outcome = Ok r ->
  let san := sanitize_conf_ints (est_confidence_intervals estimate) in
  let uci := summary_ci (uplift_summary r) in
  ((san = None \/ san = Some [] \/ exists l, san = Some l /\ In PyNone l) ->
   uci <> PyNone -> confidence_intervals r = uci) /\
  ((exists l, san = Some l /\ l <> [] /\ ~ In PyNone l) \/ uci = PyNone ->
   confidence_intervals r = opt_list san).
Proof.
  intros Hr. apply estimate_causal_effect_ok in Hr.
  destruct Hr as (us & Hus & ->).
  cbv zeta. unfold causal_result; cbn [confidence_intervals uplift_summary].
  unfold fallback_conf_ints.
  rewrite (computed_interval_truthy df treatment outcome us Hus).
  set (san := sanitize_conf_ints (est_confidence_intervals estimate)).
  split.
  - intros Hsan Huci.
    assert (Hneed : needs_fallback san = true).
    { destruct Hsan as [->|[->|(l & -> & Hin)]]; try reflexivity.
      destruct l as [|v l]; [reflexivity|].
      cbn [needs_fallback]. apply existsb_is_none. exact Hin. }
    rewrite Hneed.
    destruct us as [s|]; [|contradiction Huci; reflexivity].
    cbn [summary_ci] in *.
    destruct (approximate_confidence_interval s); try reflexivity.
    contradiction Huci; reflexivity.
  - intros [(l & -> & Hne & Hnin)| Huci].
    + assert (Hneed : needs_fallback (Some l) = false).
      { destruct l as [|v l]; [contradiction Hne; reflexivity|].
        cbn [needs_fallback]. apply not_true_is_false.
        intros Hex. apply existsb_is_none in Hex. contradiction. }
      rewrite Hneed. reflexivity.
    + rewrite Huci. cbn [is_none negb]. rewrite andb_false_r. reflexivity.
Qed.

Lemma fallback_on_top_level_null_witness :
  let estimate :=
    {| est_value := PyFloat (F64.of_Z 1);
       est_confidence_intervals :=
         Some [PyFloat F64.nan; PyFloat (F64.of_Z 2)];
       est_p_value := None |} in
  let r := causal_result estimate None (Some scenario_summary) in
  estimate_causal_effect estimate None scenario_df "treatment" "outcome"
  = Ok r /\
  confidence_intervals r = summary_ci (uplift_summary r) /\
  confidence_intervals r = approximate_confidence_interval scenario_summary.
Proof.
  cbv zeta.
  assert (Hr : estimate_causal_effect
                 {| est_value := PyFloat (F64.of_Z 1);
                    est_confidence_intervals :=
                      Some [PyFloat F64.nan; PyFloat (F64.of_Z 2)];
                    est_p_value := None |}
                 None scenario_df "treatment" "outcome"
               = Ok (causal_result
                       {| est_value := PyFloat (F64.of_Z 1);
                          est_confidence_intervals :=
                            Some [PyFloat F64.nan; PyFloat (F64.of_Z 2)];
                          est_p_value := None |}
                       None (Some scenario_summary)))
    by (vm_compute; reflexivity).
  split; [exact Hr|]. split; [|vm_compute; reflexivity].
  refine (proj1 (fallback_on_top_level_null _ None scenario_df "treatment"
                   "outcome" _ Hr) _ _).
  - right; right. exists [PyNone; PyFloat (F64.of_Z 2)].
    split; [reflexivity|left; reflexivity].
  - vm_compute. discriminate.
Defined.

(** ** Claims on [safe_float] over arrays *)

Lemma safe_float_array (a : ndarray) `{TextParsers} :
  safe_float (NpArray a) = safe_float_nd a.
Proof. reflexivity. Qed.

Lemma safe_float_nd_rows `{TextParsers} (rs : list ndarray) :
  nd_size (NdRows rs) <> 1%nat ->
  safe_float (NpArray (NdRows rs))
  = PyList (map (fun r => safe_float (NpArray r)) rs).
Proof.
  intros Hsz. rewrite safe_float_array. cbn [safe_float_nd].
  apply Nat.eqb_neq in Hsz. rewrite Hsz. reflexivity.
Qed.

(** C10, counterexample.  An array of shape (2, 0) holds no element, and
    [safe_float] turns it into a list of two empty lists. *)
Lemma empty_rows_not_empty_list :
  nd_size empty_rows = 0%nat /\
  safe_float (NpArray empty_rows) = PyList [PyList []; PyList []] /\
  safe_float (NpArray empty_rows) <> PyList [].
Proof.
  split; [reflexivity|]. split; [reflexivity|]. vm_compute. discriminate.
Qed.

(** C10, amended.  On an array with no element [safe_float] returns a
    sequence, never null and never a scalar, with one entry per row of the
    array: [safe_float] of that row.  The sequence is empty when
    the array has no row, as every one-dimensional empty array. *)
Theorem safe_float_zero_size `{TextParsers} (a : ndarray) :
  nd_size a = 0%nat ->
  exists rs : list ndarray,
    a = NdRows rs /\
    safe_float (NpArray a)
    = PyList (map (fun r => safe_float (NpArray r)) rs) /\
    (nd_len a = 0%nat -> safe_float (NpArray a) = PyList []).
Proof.
  intros Hsz. destruct a as [x|rs]; [discriminate|].
  exists rs. split; [reflexivity|].
  assert (Hne : nd_size (NdRows rs) <> 1%nat) by (rewrite Hsz; discriminate).
  split; [apply safe_float_nd_rows; exact Hne|].
  intros Hlen. rewrite (safe_float_nd_rows rs Hne).
  destruct rs; [reflexivity|discriminate].
Qed.

Lemma safe_float_zero_size_witness :
  exists rs : list ndarray,
    NdRows [] = NdRows rs /\
    safe_float (NpArray (NdRows []))
    = PyList (map (fun r => safe_float (NpArray r)) rs) /\
    (nd_len (NdRows []) = 0%nat -> safe_float (NpArray (NdRows [])) = PyList []).
Proof.
  apply (safe_float_zero_size (NdRows [])). reflexivity.
Defined.

(** ** Claims on the derived statistics *)

Section Statistics.
Context `{TextParsers}.

Lemma summary_raw (treated control : list row) (s : UpliftSummary) :
  s = uplift_of_partitions treated control ->
  let tm := series_mean (map snd treated) in
  let cm := series_mean (map snd control) in
  let au := F64.sub tm cm in
  let se := uplift_se (series_var (map snd treated))
              (series_var (map snd control))
              (List.length treated) (List.length control) in
  treatment_mean s = sanitized tm /\
  control_mean s = sanitized cm /\
  absolute_uplift s = sanitized au /\
  relative_uplift_pct s
  = match uplift_relative au cm with
    | Some r => sanitized r
    | None => PyNone
    end /\
  standard_error s
  = match se with Some e => sanitized e | None => PyNone end /\
  approximate_confidence_interval s
  = match uplift_ci au se with
    | Some [lo; hi] => PyList [sanitized lo; sanitized hi]
    | _ => PyNone
    end.
Proof.
  intros ->. cbv zeta.
  unfold uplift_of_partitions; cbn [treatment_mean control_mean
    absolute_uplift relative_uplift_pct standard_error
    approximate_confidence_interval].
  rewrite !safe_float_np_float.
  repeat split.
  - destruct (uplift_relative _ _); simpl;
      [apply safe_float_np_float|reflexivity].
  - destruct (uplift_se _ _ _ _); simpl;
      [apply safe_float_py_float|reflexivity].
  - unfold uplift_ci. destruct (uplift_se _ _ _ _) as [se|]; [|reflexivity].
    destruct (F64.gtb se F64.zero); [|reflexivity].
    cbn [map]. rewrite !safe_float_np_float. reflexivity.
Qed.

End Statistics.

Lemma hundred_value : F64.hundred = S754_finite false 7036874417766400 (-46).
Proof. vm_compute. reflexivity. Qed.

Lemma z_crit_value : F64.z_crit = S754_finite false 8827055269646172 (-52).
Proof. vm_compute. reflexivity. Qed.

Lemma relative_not_finite_control (tm cm : float) :
  F64.is_finite cm = false ->
  match uplift_relative (F64.sub tm cm) cm with
  | Some r => sanitized r
  | None => PyNone
  end = PyNone.
Proof.
  unfold uplift_relative. rewrite hundred_value.
  destruct cm as [s|s| |s m e]; try discriminate; intros _;
    destruct tm as [s'|s'| |s' m' e']; try destruct s; try destruct s';
    reflexivity.
Qed.

Lemma relative_not_finite_uplift (au cm : float) :
  F64.is_finite au = false ->
  match uplift_relative au cm with
  | Some r => sanitized r
  | None => PyNone
  end = PyNone.
Proof.
  unfold uplift_relative. rewrite hundred_value.
  destruct au as [s|s| |s m e]; try discriminate; intros _;
    destruct cm as [s'|s'| |s' m' e']; try destruct s; try destruct s';
    reflexivity.
Qed.

(** C6, counterexample.  One treated row with outcome 1e200 and one control
    row with outcome 1e-200: the control mean is non-zero and non-null, the
    quotient overflows, and [relative_uplift_pct] is null. *)
Lemma relative_uplift_overflow :
  exists (s : UpliftSummary) (a c : float),
    compute_uplift_summary ratio_df "treatment" "outcome" = Ok (Some s) /\
    absolute_uplift s = PyFloat a /\
    control_mean s = PyFloat c /\
    F64.eqb c F64.zero = false /\
    F64.mul (F64.div a c) F64.hundred = F64.pinf /\
    relative_uplift_pct s = PyNone /\
    relative_uplift_pct s <> PyFloat (F64.mul (F64.div a c) F64.hundred).
Proof.
  eexists _, big, tiny. vm_compute.
  repeat split; try reflexivity. discriminate.
Qed.

(** C6, amended.  In a returned summary [relative_uplift_pct] is
    [(absolute_uplift / control_mean) * 100] when the control mean is
    non-zero and non-null and that product is finite, and null when the
    product is not finite; it is null when the control mean is zero, and
    when the control mean or the absolute uplift is null. *)
Theorem relative_uplift_formula
  `{TextParsers} (df : DataFrame) (treatment outcome : string)
  (s : UpliftSummary) :
  compute_uplift_summary df treatment outcome = Ok (Some s) ->
  (forall a c : float,
      absolute_uplift s = PyFloat a -> control_mean s = PyFloat c ->
      F64.eqb c F64.zero = false ->
      relative_uplift_pct s
      = sanitized (F64.mul (F64.div a c) F64.hundred)) /\
  (forall c : float,
      control_mean s = PyFloat c -> F64.eqb c F64.zero = true ->
      relative_uplift_pct s = PyNone) /\
  (control_mean s = PyNone \/ absolute_uplift s = PyNone ->
   relative_uplift_pct s = PyNone).
Proof.
  intros Hs. apply compute_uplift_summary_some in Hs.
  destruct Hs as (_ & _ & _ & _ & Hs).
  destruct (summary_raw _ _ _ Hs) as (_ & Hcm & Hau & Hrel & _).
  cbv zeta in *. rewrite Hrel, Hcm, Hau. clear.
  set (tm := series_mean _). set (cm := series_mean _).
  split; [|split].
  - intros a c Ha Hc Hz.
    apply sanitized_float in Ha, Hc. destruct Ha as [-> _], Hc as [-> _].
    unfold uplift_relative. rewrite Hz. reflexivity.
  - intros c Hc Hz. apply sanitized_float in Hc. destruct Hc as [-> _].
    unfold uplift_relative. rewrite Hz. reflexivity.
  - intros [Hc|Ha].
    + apply relative_not_finite_control, sanitized_none, Hc.
    + apply relative_not_finite_uplift, sanitized_none, Ha.
Qed.

Lemma relative_uplift_formula_witness :
  (exists s : UpliftSummary,
      compute_uplift_summary scenario_df "treatment" "outcome" = Ok (Some s) /\
      relative_uplift_pct s
      = sanitized (F64.mul (F64.div (F64.of_Z 9) (F64.of_Z 6)) F64.hundred)) /\
  (exists s : UpliftSummary,
      compute_uplift_summary overflow_df "treatment" "outcome" = Ok (Some s) /\
      relative_uplift_pct s = PyNone) /\
  (exists s : UpliftSummary,
      compute_uplift_summary inf_df "treatment" "outcome" = Ok (Some s) /\
      relative_uplift_pct s = PyNone).
Proof.
  split; [|split]; eexists; (split; [vm_compute; reflexivity|]).
  - refine (proj1 (relative_uplift_formula scenario_df "treatment" "outcome"
                     _ _) (F64.of_Z 9) (F64.of_Z 6) _ _ _);
      vm_compute; reflexivity.
  - refine (proj1 (proj2 (relative_uplift_formula overflow_df "treatment"
                            "outcome" _ _)) F64.zero _ _);
      vm_compute; reflexivity.
  - refine (proj2 (proj2 (relative_uplift_formula inf_df "treatment"
                            "outcome" _ _)) _);
      [vm_compute; reflexivity|left; vm_compute; reflexivity].
Defined.

(** From two values on, [Series.var(ddof=1)] is the sample variance. *)
Lemma series_var_sample (xs : list float) :
  (2 <= List.length xs)%nat -> series_var xs = sample_variance xs.
Proof.
  intros Hn. unfold series_var, sample_variance, series_mean, count_of.
  destruct (Nat.leb_spec (List.length xs) 1) as [Hle|_]; [lia|].
  reflexivity.
Qed.

(** C4, counterexample.  Treated outcomes 1e200 and -1e200, control
    outcomes 0 and 0: both sides have two rows, the value under the square
    root is +Infinity (not NaN), and [standard_error] is null. *)
Lemma standard_error_overflow :
  let t := treated_outcomes overflow_df "treatment" "outcome" in
  let c := control_outcomes overflow_df "treatment" "outcome" in
  let under_root :=
    py_max_zero
      (F64.add
         (F64.div (sample_variance t) (F64.of_Z (Z.of_nat (List.length t))))
         (F64.div (sample_variance c) (F64.of_Z (Z.of_nat (List.length c)))))
  in
  exists s : UpliftSummary,
    compute_uplift_summary overflow_df "treatment" "outcome" = Ok (Some s) /\
    List.length t = 2%nat /\ List.length c = 2%nat /\
    F64.isnan under_root = false /\
    F64.sqrt under_root = F64.pinf /\
    standard_error s = PyNone /\
    standard_error s <> PyFloat (F64.sqrt under_root).
Proof.
  cbv zeta. eexists. vm_compute.
  repeat split; try reflexivity. discriminate.
Qed.

(** C4, amended.  With [t] and [c] the outcomes of the treated and of the
    control rows, [n_t] and [n_c] their numbers, and the sample variance
    of each (squared deviations from the mean, summed, over n-1): when
    both sides have at least two rows, [standard_error] is
    [sqrt(max(var_t/n_t + var_c/n_c, 0))] when that value is finite, and
    null when it is NaN or infinite; [standard_error] is null whenever a
    side has fewer than two rows or the value under the square root is
    NaN. *)
Theorem standard_error_formula
  `{TextParsers} (df : DataFrame) (treatment outcome : string)
  (s : UpliftSummary) :
  compute_uplift_summary df treatment outcome = Ok (Some s) ->
  let t := treated_outcomes df treatment outcome in
  let c := control_outcomes df treatment outcome in
  let under_root :=
    py_max_zero
      (F64.add
         (F64.div (sample_variance t) (F64.of_Z (Z.of_nat (List.length t))))
         (F64.div (sample_variance c) (F64.of_Z (Z.of_nat (List.length c)))))
  in
  ((2 <= List.length t)%nat /\ (2 <= List.length c)%nat ->
   standard_error s = sanitized (F64.sqrt under_root)) /\
  ((List.length t < 2)%nat \/ (List.length c < 2)%nat
   \/ F64.isnan under_root = true ->
   standard_error s = PyNone).
Proof.
  intros Hs. apply compute_uplift_summary_some in Hs.
  destruct Hs as (_ & _ & _ & _ & Hs).
  destruct (summary_raw _ _ _ Hs) as (_ & _ & _ & _ & Hse & _).
  cbv zeta in *. rewrite Hse. clear Hs Hse.
  rewrite <- (length_map snd (treated_rows _)).
  rewrite <- (length_map snd (control_rows _)).
  rewrite treated_outcomes_eq, control_outcomes_eq.
  set (t := treated_outcomes df treatment outcome).
  set (c := control_outcomes df treatment outcome).
  unfold uplift_se, se_value.
  assert (Hgen : (2 <= List.length t)%nat /\ (2 <= List.length c)%nat ->
            (if negb
                  (F64.isnan
                     (py_max_zero
                        (F64.add
                           (F64.div (series_var t)
                              (F64.of_Z (Z.of_nat (List.length t))))
                           (F64.div (series_var c)
                              (F64.of_Z (Z.of_nat (List.length c)))))))
             then
               Some
                 (F64.sqrt
                    (py_max_zero
                       (F64.add
                          (F64.div (series_var t)
                             (F64.of_Z (Z.of_nat (List.length t))))
                          (F64.div (series_var c)
                             (F64.of_Z (Z.of_nat (List.length c)))))))
             else None)
            = (let u := py_max_zero
                          (F64.add
                             (F64.div (sample_variance t)
                                (F64.of_Z (Z.of_nat (List.length t))))
                             (F64.div (sample_variance c)
                                (F64.of_Z (Z.of_nat (List.length c))))) in
               if negb (F64.isnan u) then Some (F64.sqrt u) else None)).
  { intros [Ht Hc]. rewrite (series_var_sample t Ht), (series_var_sample c Hc).
    reflexivity. }
  set (u := py_max_zero
              (F64.add
                 (F64.div (sample_variance t)
                    (F64.of_Z (Z.of_nat (List.length t))))
                 (F64.div (sample_variance c)
                    (F64.of_Z (Z.of_nat (List.length c)))))) in *.
  cbv zeta in Hgen.
  destruct (Nat.ltb_spec 1 (List.length t)) as [Ht|Ht];
    destruct (Nat.ltb_spec 1 (List.length c)) as [Hc|Hc]; cbn [andb].
  - rewrite (Hgen (conj Ht Hc)). split.
    + intros _. destruct u; reflexivity.
    + intros [Hl|[Hl|Hn]]; [lia|lia|].
      rewrite Hn. reflexivity.
  - split; [intros [_ Hge]; lia|reflexivity].
  - split; [intros [Hge _]; lia|reflexivity].
  - split; [intros [Hge _]; lia|reflexivity].
Qed.

Lemma standard_error_formula_witness :
  (let t := treated_outcomes scenario_df "treatment" "outcome" in
   let c := control_outcomes scenario_df "treatment" "outcome" in
   compute_uplift_summary scenario_df "treatment" "outcome"
   = Ok (Some scenario_summary) /\
   ((2 <= List.length t)%nat /\ (2 <= List.length c)%nat) /\
   standard_error scenario_summary
   = sanitized
       (F64.sqrt
          (py_max_zero
             (F64.add
                (F64.div (sample_variance t)
                   (F64.of_Z (Z.of_nat (List.length t))))
                (F64.div (sample_variance c)
                   (F64.of_Z (Z.of_nat (List.length c)))))))) /\
  (exists s : UpliftSummary,
      compute_uplift_summary ratio_df "treatment" "outcome" = Ok (Some s) /\
      (List.length (treated_outcomes ratio_df "treatment" "outcome") < 2)%nat
      /\ standard_error s = PyNone).
Proof.
  cbv zeta. split.
  - assert (Hs : compute_uplift_summary scenario_df "treatment" "outcome"
                 = Ok (Some scenario_summary)) by (vm_compute; reflexivity).
    assert (Hn : (2 <= List.length
                        (treated_outcomes scenario_df "treatment" "outcome"))%nat
                 /\ (2 <= List.length
                        (control_outcomes scenario_df "treatment" "outcome"))%nat)
      by (split; apply Nat.leb_le; vm_compute; reflexivity).
    split; [exact Hs|]. split; [exact Hn|].
    exact (proj1 (standard_error_formula scenario_df "treatment" "outcome"
                    scenario_summary Hs) Hn).
  - eexists. split; [vm_compute; reflexivity|].
    assert (Hn : (List.length
                    (treated_outcomes ratio_df "treatment" "outcome") < 2)%nat)
      by (apply Nat.ltb_lt; vm_compute; reflexivity).
    split; [exact Hn|].
    refine (proj2 (standard_error_formula ratio_df "treatment" "outcome"
                     _ _) (or_introl Hn)).
    vm_compute. reflexivity.
Defined.

(** ** Claims on [safe_float] over scalars *)

Lemma to_Z_exact_pack (s : bool) (M k : Z) :
  0 < M -> 0 <= k ->
  F64.to_Z_exact (pack s (M * 2 ^ k) (- k)) = Some (cond_Zopp s M).
Proof.
  intros HM Hk.
  assert (P : 0 < 2 ^ k) by (apply Z.pow_pos_nonneg; lia).
  assert (HMk : 0 < M * 2 ^ k) by lia.
  destruct (M * 2 ^ k) as [|q|q] eqn:Eq; try lia. unfold pack.
  destruct (Z.leb_spec (- k) (F64.emax - F64.prec)) as [_|Hgt];
    [|unfold F64.emax, F64.prec in Hgt; lia].
  unfold F64.to_Z_exact.
  destruct k as [|k|k]; try lia.
  - cbn [Z.opp]. rewrite <- Eq. rewrite Z.pow_0_r, Z.mul_1_r. reflexivity.
  - cbn [Z.opp]. rewrite <- Eq.
    rewrite Z_mod_mult, Z.eqb_refl, Z_div_mult by lia. reflexivity.
Qed.

(** An integer of magnitude at most 2^53 converts to the float that
    denotes it. *)
Lemma of_Z_exact (z : Z) :
  Z.abs z <= 2 ^ 53 -> F64.to_Z_exact (F64.of_Z z) = Some z.
Proof.
  intros Hz.
  destruct (Z.eq_dec (Z.abs z) (2 ^ 53)) as [Hmax|Hlt].
  { assert (Hc : z = 2 ^ 53 \/ z = - 2 ^ 53) by lia.
    destruct Hc as [-> | ->]; vm_compute; reflexivity. }
  assert (Hp : forall (s : bool) (p : positive),
             Zpos p < 2 ^ 53 ->
             F64.to_Z_exact (binary_round F64.prec F64.emax s p 0)
             = Some (cond_Zopp s (Zpos p))).
  { intros s p Hlt'. rewrite binary_round_core. unfold br_core.
    pose proof (Zdigits2_bounds (Zpos p) ltac:(lia)) as [Lo Hi].
    pose proof (Zdigits2_pos (Zpos p) ltac:(lia)) as Dpos.
    assert (Hd : Zdigits2 (Zpos p) <= 53).
    { destruct (Z.le_gt_cases (Zdigits2 (Zpos p)) 53); [assumption|].
      assert (2 ^ 53 <= 2 ^ (Zdigits2 (Zpos p) - 1))
        by (apply Z.pow_le_mono_r; lia).
      lia. }
    rewrite fexp_eq.
    replace (Z.max (Zdigits2 (Zpos p) + 0 - 53) (-1074))
      with (- (53 - Zdigits2 (Zpos p))) by lia.
    destruct (Z.ltb_spec (- (53 - Zdigits2 (Zpos p))) 0) as [Hneg|Hzero].
    - cbn [fst snd].
      replace (0 - - (53 - Zdigits2 (Zpos p)))
        with (53 - Zdigits2 (Zpos p)) by lia.
      apply to_Z_exact_pack; lia.
    - rewrite round_core_exact; [|lia|rewrite fexp_eq; lia].
      reflexivity. }
  destruct z as [|p|p]; [reflexivity|..]; unfold F64.of_Z;
    cbn [binary_normalize]; rewrite Hp by lia; reflexivity.
Qed.

(** ** The confidence interval *)

Lemma round_core_nonneg (M E c : Z) :
  0 <= M -> 0 <= c <= 3 -> 0 <= fst (round_core M E c).
Proof.
  intros HM Hc. unfold round_core. cbn [fst].
  set (n := Z.max 0 (fexp F64.prec F64.emax (Zdigits2 M + E) - E)).
  pose proof (rne_bounds M c n HM Hc ltac:(lia)) as [Lo _].
  assert (0 <= M / 2 ^ n)
    by (apply Z.div_pos; [lia|apply Z.pow_pos_nonneg; lia]).
  apply Z.div_pos; [lia|apply Z.pow_pos_nonneg; lia].
Qed.

Lemma pack_nonneg (m e : Z) : 0 <= m -> nonneg (pack false m e) = true.
Proof.
  intros Hm. destruct m as [|p|p]; try lia; unfold pack;
    [|destruct (e <=? F64.emax - F64.prec)]; reflexivity.
Qed.

(** The half-width [z * se] of the interval is not negative. *)
Lemma half_width_nonneg (se : float) :
  F64.gtb se F64.zero = true ->
  nonneg (F64.mul F64.z_crit se) = true.
Proof.
  rewrite z_crit_value. unfold F64.mul.
  destruct se as [s|[|]| |[|] m e]; try discriminate; intros _;
    [reflexivity|].
  cbn [SFmul xorb]. rewrite binary_round_aux_core by lia.
  apply pack_nonneg, round_core_nonneg; simpl; lia.
Qed.

Lemma series_mean_valid (xs : list float) :
  valid_binary F64.prec F64.emax (series_mean xs) = true.
Proof. apply SFdiv_valid. Qed.

(** The bounds computed from a finite uplift enclose it. *)
Lemma interval_encloses (tm cm se : float) :
  valid_binary F64.prec F64.emax tm = true ->
  valid_binary F64.prec F64.emax cm = true ->
  F64.is_finite (F64.sub tm cm) = true ->
  F64.gtb se F64.zero = true ->
  F64.leb (F64.sub (F64.sub tm cm) (F64.mul F64.z_crit se)) (F64.sub tm cm)
  = true /\
  F64.leb (F64.sub tm cm) (F64.add (F64.sub tm cm) (F64.mul F64.z_crit se))
  = true.
Proof.
  intros Ht Hc Hf Hse.
  pose proof (SFsub_valid tm cm Ht Hc) as Hv.
  pose proof (half_width_nonneg se Hse) as Hw.
  split; [apply SFsub_le|apply SFadd_ge]; assumption.
Qed.

(** ** Magnitude of the computed statistics *)


(** Exponent of the packed result. *)
Lemma round_core_exponent (M E c : Z) :
  0 <= M -> 0 <= c <= 3 ->
  (0 < M -> E <= fexp F64.prec F64.emax (Zdigits2 M + E)) ->
  (M = 0 -> E <= -1074) ->
  snd (round_core M E c) <= fexp F64.prec F64.emax (Zdigits2 M + E) + 1.
Proof.
  intros HM Hc Hpre Hzero. unfold round_core. cbn [snd].
  set (g := fexp F64.prec F64.emax (Zdigits2 M + E)).
  assert (Hg : g = Z.max (Zdigits2 M + E - 53) (-1074)) by reflexivity.
  assert (Hn : E <= g).
  { destruct (Z.eq_dec M 0) as [->|]; [specialize (Hzero eq_refl); lia|].
    apply Hpre. lia. }
  replace (Z.max 0 (g - E)) with (g - E) by lia.
  replace (E + (g - E)) with g by lia.
  pose proof (rne_bounds M c (g - E) HM Hc ltac:(lia)) as [Lo Hi].
  set (m2 := rne (4 * M + c) (g - E + 2)) in *.
  assert (Hq : M / 2 ^ (g - E) < 2 ^ 53).
  { destruct (Z.eq_dec M 0) as [->|HMne].
    - rewrite Z.div_0_l by (apply Z.pow_nonzero; lia). reflexivity.
    - pose proof (Zdigits2_bounds M ltac:(lia)) as [_ Hhi].
      pose proof (Zdigits2_pos M ltac:(lia)).
      apply Z.div_lt_upper_bound; [apply Z.pow_pos_nonneg; lia|].
      rewrite <- Z.pow_add_r by lia.
      assert (2 ^ Zdigits2 M <= 2 ^ (g - E + 53))
        by (apply Z.pow_le_mono_r; lia).
      lia. }
  assert (Hm2 : 0 <= m2 <= 2 ^ 53).
  { assert (0 <= M / 2 ^ (g - E))
      by (apply Z.div_pos; [lia|apply Z.pow_pos_nonneg; lia]). lia. }
  assert (Hd : Zdigits2 m2 <= 54).
  { destruct (Z.eq_dec m2 0) as [->|]; [simpl; lia|].
    replace 54 with (Zdigits2 (2 ^ 53)) by reflexivity.
    apply Zdigits2_le; lia. }
  rewrite fexp_eq. lia.
Qed.

Lemma Zdigits2_sqrt (x : Z) :
  0 < x -> Zdigits2 (Z.sqrt x) = Z.div2 (Zdigits2 x + 1).
Proof.
  intros Hx.
  pose proof (Zdigits2_bounds x Hx) as [Lo Hi].
  pose proof (Zdigits2_pos x Hx) as Dpos.
  set (d := Zdigits2 x) in *. set (k := Z.div2 (d + 1)).
  assert (Hk : 2 * k = d + 1 \/ 2 * k = d).
  { unfold k. rewrite Z.div2_div.
    pose proof (Z.div_mod (d + 1) 2 ltac:(lia)).
    pose proof (Z.mod_pos_bound (d + 1) 2 ltac:(lia)). lia. }
  assert (Hk1 : 1 <= k) by lia.
  assert (Hs : 0 < Z.sqrt x) by (apply Z.sqrt_pos; assumption).
  apply Zdigits2_unique; [|assumption].
  split.
  - apply Z.sqrt_le_square; [lia|apply Z.pow_nonneg; lia|].
    rewrite <- Z.pow_add_r by lia.
    assert (2 ^ (k - 1 + (k - 1)) <= 2 ^ (d - 1))
      by (apply Z.pow_le_mono_r; lia).
    lia.
  - apply Z.sqrt_lt_square; [lia|apply Z.pow_nonneg; lia|].
    rewrite <- Z.pow_add_r by lia.
    assert (2 ^ d <= 2 ^ (k + k)) by (apply Z.pow_le_mono_r; lia).
    lia.
Qed.


Lemma pack_small (s : bool) (m e k : Z) :
  m = 0 \/ canon m e -> e <= k -> k <= 971 -> small (pack s m e) k = true.
Proof.
  intros [->|[Hm _]] Hek Hk; [reflexivity|].
  destruct m as [|p|p]; try lia. unfold pack.
  destruct (Z.leb_spec e (F64.emax - F64.prec)) as [_|Hgt];
    [|unfold F64.emax, F64.prec in Hgt; lia].
  apply Z.leb_le. exact Hek.
Qed.

Lemma small_finite (f : float) (k : Z) : small f k = true -> F64.is_finite f = true.
Proof. destruct f; try discriminate; reflexivity. Qed.

Lemma Zdigits2_mul_ge (a b : Z) :
  0 < a -> 0 < b -> Zdigits2 a + Zdigits2 b - 1 <= Zdigits2 (a * b).
Proof.
  intros Ha Hb.
  pose proof (Zdigits2_bounds a Ha) as [La _].
  pose proof (Zdigits2_bounds b Hb) as [Lb _].
  pose proof (Zdigits2_pos a Ha). pose proof (Zdigits2_pos b Hb).
  assert (Hp : 2 ^ (Zdigits2 a + Zdigits2 b - 2) <= a * b).
  { replace (Zdigits2 a + Zdigits2 b - 2)
      with ((Zdigits2 a - 1) + (Zdigits2 b - 1)) by lia.
    rewrite Z.pow_add_r by lia.
    assert (0 < 2 ^ (Zdigits2 a - 1)) by (apply Z.pow_pos_nonneg; lia).
    assert (0 < 2 ^ (Zdigits2 b - 1)) by (apply Z.pow_pos_nonneg; lia).
    nia. }
  assert (Hd : Zdigits2 (2 ^ (Zdigits2 a + Zdigits2 b - 2)) <= Zdigits2 (a * b)).
  { apply Zdigits2_le; [apply Z.pow_pos_nonneg; lia|assumption]. }
  rewrite Zdigits2_pow2 in Hd by lia. lia.
Qed.

Lemma Zdigits2_mul_le (a b : Z) :
  0 < a -> 0 < b -> Zdigits2 (a * b) <= Zdigits2 a + Zdigits2 b.
Proof.
  intros Ha Hb.
  pose proof (Zdigits2_bounds a Ha) as [_ Ua].
  pose proof (Zdigits2_bounds b Hb) as [_ Ub].
  pose proof (Zdigits2_pos a Ha). pose proof (Zdigits2_pos b Hb).
  assert (Hp : a * b < 2 ^ (Zdigits2 a + Zdigits2 b)).
  { rewrite Z.pow_add_r by lia. nia. }
  destruct (Z.le_gt_cases (Zdigits2 (a * b)) (Zdigits2 a + Zdigits2 b));
    [assumption|].
  pose proof (Zdigits2_bounds (a * b) ltac:(nia)) as [Lab _].
  assert (2 ^ (Zdigits2 a + Zdigits2 b) <= 2 ^ (Zdigits2 (a * b) - 1))
    by (apply Z.pow_le_mono_r; lia).
  lia.
Qed.

(** The product of 1.96 and a small float is a small float. *)
Lemma half_width_small (se : float) :
  valid_binary F64.prec F64.emax se = true ->
  small se 460 = true ->
  valid_binary F64.prec F64.emax (F64.mul F64.z_crit se) = true /\
  small (F64.mul F64.z_crit se) 462 = true.
Proof.
  rewrite z_crit_value. unfold F64.mul.
  destruct se as [s|s| |s m e]; try discriminate; [split; reflexivity|].
  intros Hv Hs. cbn [small] in Hs. apply Z.leb_le in Hs.
  apply valid_canon in Hv. destruct Hv as [Hc _].
  pose proof (canon_digits _ _ Hc) as (D1 & E1 & _).
  cbn [SFmul]. rewrite binary_round_aux_core by lia.
  rewrite Pos2Z.inj_mul.
  set (M := Zpos 8827055269646172 * Zpos m). set (E := -52 + e).
  assert (HM : 0 < M) by (unfold M; lia).
  pose proof (Zdigits2_mul_ge (Zpos 8827055269646172) (Zpos m)
                ltac:(lia) ltac:(lia)) as Hge.
  pose proof (Zdigits2_mul_le (Zpos 8827055269646172) (Zpos m)
                ltac:(lia) ltac:(lia)) as Hle.
  change (Zdigits2 (Zpos 8827055269646172)) with 53 in Hge, Hle.
  fold M in Hge, Hle.
  pose proof (Zdigits2_pos (Zpos m) ltac:(lia)) as Dm.
  assert (Hpre : E <= fexp F64.prec F64.emax (Zdigits2 M + E))
    by (rewrite fexp_eq; lia).
  pose proof (round_core_exponent M E (loc_code loc_Exact) ltac:(lia)
                (loc_code_range _) ltac:(intros; exact Hpre) ltac:(lia)) as Hx.
  pose proof (round_core_value M E (loc_code loc_Exact) ltac:(lia)
                (loc_code_range _) ltac:(intros; exact Hpre) ltac:(lia))
    as (_ & _ & Hcan).
  rewrite fexp_eq in Hx.
  split; [apply pack_valid; exact Hcan|].
  apply pack_small; [exact Hcan| |lia].
  unfold E in *. lia.
Qed.

(** The root and exponent handed to the rounding by a square root. *)
Lemma SFsqrt_core_pre (m : positive) (e : Z) :
  let '(q, e', l) := SFsqrt_core_binary F64.prec F64.emax (Zpos m) e in
  0 < q /\
  e' <= fexp F64.prec F64.emax (Zdigits2 q + e') /\
  Zdigits2 q + e' = Z.div2 (Zdigits2 (Zpos m) + e + 1).
Proof.
  unfold SFsqrt_core_binary.
  set (d := Zdigits2 (Zpos m)).
  set (e' := Z.min (fexp F64.prec F64.emax (Z.div2 (d + e + 1))) (Z.div2 e)).
  set (s := e - 2 * e').
  assert (He2 : 2 * Z.div2 e <= e).
  { rewrite Z.div2_div. pose proof (Z.div_mod e 2 ltac:(lia)).
    pose proof (Z.mod_pos_bound e 2 ltac:(lia)). lia. }
  assert (Hs : 0 <= s) by (unfold s, e'; lia).
  set (m' := match s with
             | 0 => Zpos m
             | Zpos _ => Z.shiftl (Zpos m) s
             | Zneg _ => 0
             end).
  assert (Hm' : m' = Zpos m * 2 ^ s).
  { unfold m'. destruct s as [|p|p] eqn:Es; try lia.
    apply Z.shiftl_mul_pow2. lia. }
  assert (Ps : 0 < 2 ^ s) by (apply Z.pow_pos_nonneg; lia).
  assert (Hm'pos : 0 < m') by nia.
  pose proof (Z.sqrtrem_spec m' ltac:(lia)) as Hspec.
  pose proof (Z.sqrtrem_sqrt m') as Hsq.
  destruct (Z.sqrtrem m') as [q r]. cbn [fst] in Hsq. subst q.
  assert (Hq : 0 < Z.sqrt m') by (apply Z.sqrt_pos; assumption).
  assert (Hd : Zdigits2 (Z.sqrt m') + e' = Z.div2 (d + e + 1)).
  { rewrite Zdigits2_sqrt by assumption.
    rewrite Hm', Zdigits2_mul_pow2 by lia. fold d.
    unfold s. rewrite !Z.div2_div.
    replace (d + (e - 2 * e') + 1) with ((d + e + 1) + (- e') * 2) by lia.
    rewrite Z.div_add by lia. lia. }
  split; [exact Hq|]. split; [|exact Hd].
  rewrite Hd. unfold e'. lia.
Qed.

(** The square root of a positive number of the format is a small float. *)
Lemma SFsqrt_small (m : positive) (e : Z) :
  valid_binary F64.prec F64.emax (S754_finite false m e) = true ->
  valid_binary F64.prec F64.emax (F64.sqrt (S754_finite false m e)) = true /\
  small (F64.sqrt (S754_finite false m e)) 460 = true.
Proof.
  intros Hv. apply valid_canon in Hv. destruct Hv as [Hc He].
  pose proof (canon_digits _ _ Hc) as (D1 & _ & _).
  unfold F64.sqrt. cbn [SFsqrt].
  pose proof (SFsqrt_core_pre m e) as Hpre.
  destruct (SFsqrt_core_binary F64.prec F64.emax (Zpos m) e) as [[q e'] l].
  destruct Hpre as (Hq & Hpre & Hd).
  rewrite binary_round_aux_core by lia.
  pose proof (round_core_exponent q e' (loc_code l) ltac:(lia)
                (loc_code_range _) ltac:(intros; exact Hpre) ltac:(lia)) as Hx.
  pose proof (round_core_value q e' (loc_code l) ltac:(lia)
                (loc_code_range _) ltac:(intros; exact Hpre) ltac:(lia))
    as (_ & _ & Hcan).
  rewrite Hd, fexp_eq in Hx.
  assert (Hhalf : Z.div2 (Zdigits2 (Zpos m) + e + 1) <= 512).
  { rewrite Z.div2_div. change 512 with (1025 / 2).
    apply Z.div_le_mono; lia. }
  split; [apply pack_valid; exact Hcan|].
  apply pack_small; [exact Hcan|lia|lia].
Qed.


Lemma canon_max (k : Z) : -1074 <= k -> canon (2 ^ 53 - 1) k.
Proof.
  intros Hk. split; [reflexivity|].
  change (Zdigits2 (2 ^ 53 - 1)) with 53. rewrite fexp_eq. lia.
Qed.

(** Rounding [M * 2^E] does not overflow when [M * 2^E] exceeds the largest
    float by less than half a unit in its last place. *)
Lemma br_core_no_overflow (M E delta : Z) :
  0 < M -> E <= 970 -> 0 <= delta < 2 ^ (970 - E) ->
  M <= (2 ^ 53 - 1) * 2 ^ (971 - E) + delta ->
  fst (br_core M E) = 0 \/ snd (br_core M E) <= 971.
Proof.
  intros HM HE Hdelta Hle.
  set (Mx := (2 ^ 53 - 1) * 2 ^ (971 - E) + delta) in *.
  assert (P : 0 < 2 ^ (970 - E)) by (apply Z.pow_pos_nonneg; lia).
  assert (E1 : 2 ^ (971 - E) = 2 * 2 ^ (970 - E)).
  { rewrite <- Z.pow_succ_r by lia. f_equal. lia. }
  assert (HdMx : Zdigits2 Mx = 1024 - E).
  { apply Zdigits2_unique; [|lia].
    replace (1024 - E - 1) with (52 + (971 - E)) by lia.
    replace (1024 - E) with (53 + (971 - E)) by lia.
    rewrite !Z.pow_add_r by lia. unfold Mx. rewrite E1. lia. }
  assert (HR : rounded_units Mx E
               = (2 ^ 53 - 1) * 2 ^ (971 - Z.min E (-1074))).
  { unfold rounded_units. rewrite HdMx.
    replace (1024 - E + E) with 1024 by lia.
    change (fexp F64.prec F64.emax 1024) with 971.
    destruct (Z.ltb_spec 971 E); [lia|].
    f_equal.
    rewrite (rne_unfold _ (971 - E + 2) (2 ^ 53 - 1) (4 * delta)).
    - replace (971 - E + 2) with (3 + (970 - E)) by lia.
      rewrite Z.pow_add_r by lia. change (2 ^ 3) with 8.
      destruct (Z.compare_spec (2 * (4 * delta)) (8 * 2 ^ (970 - E))); lia.
    - replace (971 - E + 2) with (3 + (970 - E)) by lia.
      rewrite Z.pow_add_r by lia. change (2 ^ 3) with 8. lia.
    - replace (971 - E + 2) with (3 + (970 - E)) by lia.
      rewrite Z.pow_add_r by lia. change (2 ^ 3) with 8.
      unfold Mx. rewrite E1. lia. }
  pose proof (rounded_units_mono M Mx E HM Hle) as Hmono.
  rewrite HR in Hmono.
  pose proof (br_core_units M E HM) as [HB HU].
  rewrite <- HU in Hmono.
  destruct (br_core_canon M E HM) as [Hz|Hcan]; [left; exact Hz|right].
  destruct (canon_exponent_le _ _ _ _ (Z.min E (-1074)) Hcan
              (canon_max 971 ltac:(lia)) HB ltac:(lia) Hmono); lia.
Qed.

Lemma binary_normalize_no_overflow (M E delta : Z) :
  E <= 970 -> 0 <= delta < 2 ^ (970 - E) ->
  Z.abs M <= (2 ^ 53 - 1) * 2 ^ (971 - E) + delta ->
  F64.is_finite (binary_normalize F64.prec F64.emax M E false) = true.
Proof.
  intros HE Hdelta Hle.
  destruct M as [|p|p]; [reflexivity|..]; cbn [binary_normalize];
    rewrite binary_round_core;
    (destruct (br_core_no_overflow (Zpos p) E delta ltac:(lia) HE Hdelta
                 ltac:(lia)) as [Hz|Hs];
     [rewrite Hz; reflexivity|]);
    pose proof (br_core_nonneg (Zpos p) E ltac:(lia)) as Hn;
    destruct (fst (br_core (Zpos p) E)) as [|q|q]; try lia;
      try reflexivity; unfold pack;
    (destruct (Z.leb_spec (snd (br_core (Zpos p) E)) (F64.emax - F64.prec))
       as [_|Hgt]; [reflexivity|unfold F64.emax, F64.prec in Hgt; lia]).
Qed.

Lemma valid_mantissa (s : bool) (m : positive) (e : Z) :
  valid_binary F64.prec F64.emax (S754_finite s m e) = true ->
  Zpos m <= 2 ^ 53 - 1 /\ -1074 <= e <= 971.
Proof.
  intros Hv. apply valid_canon in Hv. destruct Hv as [Hc He].
  pose proof (canon_digits _ _ Hc) as (D & El & _).
  pose proof (Zdigits2_bounds (Zpos m) ltac:(lia)) as [_ Hi].
  assert (2 ^ Zdigits2 (Zpos m) <= 2 ^ 53) by (apply Z.pow_le_mono_r; lia).
  lia.
Qed.

Lemma cond_Zopp_abs (s : bool) (x : Z) : Z.abs (cond_Zopp s x) = Z.abs x.
Proof. destruct s; simpl; lia. Qed.

(** The difference of two floats of exponent at most 970 is finite. *)
Lemma SFsub_small_finite (x y : float) :
  valid_binary F64.prec F64.emax x = true ->
  valid_binary F64.prec F64.emax y = true ->
  small x 970 = true -> small y 970 = true ->
  F64.is_finite (F64.sub x y) = true.
Proof.
  intros Hx Hy Sx Sy. unfold F64.sub.
  destruct x as [sx|sx| |sx mx ex], y as [sy|sy| |sy my ey];
    try discriminate; try reflexivity;
    try (destruct sx, sy; reflexivity).
  cbn [small] in Sx, Sy. apply Z.leb_le in Sx, Sy.
  pose proof (valid_mantissa _ _ _ Hx) as [Mx Ex].
  pose proof (valid_mantissa _ _ _ Hy) as [My Ey].
  cbn [SFsub]. rewrite !shl_align_fst by lia.
  set (ez := Z.min ex ey).
  apply (binary_normalize_no_overflow _ ez 0); [lia| |].
  - split; [lia|apply Z.pow_pos_nonneg; lia].
  - assert (Hb : forall m e, Zpos m <= 2 ^ 53 - 1 -> ez <= e <= 970 ->
                   Zpos m * 2 ^ (e - ez) <= (2 ^ 53 - 1) * 2 ^ (970 - ez)).
    { intros m e Hm He.
      assert (2 ^ (e - ez) <= 2 ^ (970 - ez)) by (apply Z.pow_le_mono_r; lia).
      assert (0 < 2 ^ (e - ez)) by (apply Z.pow_pos_nonneg; lia).
      nia. }
    pose proof (Hb mx ex Mx ltac:(lia)). pose proof (Hb my ey My ltac:(lia)).
    assert (E1 : 2 ^ (971 - ez) = 2 * 2 ^ (970 - ez)).
    { rewrite <- Z.pow_succ_r by lia. f_equal. lia. }
    rewrite E1.
    assert (0 < Zpos mx * 2 ^ (ex - ez))
      by (apply Z.mul_pos_pos; [lia|apply Z.pow_pos_nonneg; lia]).
    assert (0 < Zpos my * 2 ^ (ey - ez))
      by (apply Z.mul_pos_pos; [lia|apply Z.pow_pos_nonneg; lia]).
    destruct sx, sy; cbn [cond_Zopp]; lia.
Qed.

(** Adding or subtracting a float of exponent at most 462 keeps a float of
    the format finite. *)
Lemma SFsub_add_small_finite (a c : float) :
  valid_binary F64.prec F64.emax a = true ->
  valid_binary F64.prec F64.emax c = true ->
  F64.is_finite a = true -> small c 462 = true ->
  F64.is_finite (F64.sub a c) = true /\ F64.is_finite (F64.add a c) = true.
Proof.
  intros Ha Hc Fa Sc. unfold F64.sub, F64.add.
  destruct a as [sa|sa| |sa ma ea], c as [sc|sc| |sc mc ec];
    try discriminate; try (split; reflexivity);
    try (destruct sa, sc; split; reflexivity).
  cbn [small] in Sc. apply Z.leb_le in Sc.
  pose proof (valid_mantissa _ _ _ Ha) as [Ma Ea].
  pose proof (valid_mantissa _ _ _ Hc) as [Mc Ec].
  cbn [SFsub SFadd]. rewrite !shl_align_fst by lia.
  set (ez := Z.min ea ec).
  assert (HA : Zpos ma * 2 ^ (ea - ez) <= (2 ^ 53 - 1) * 2 ^ (971 - ez)).
  { assert (2 ^ (ea - ez) <= 2 ^ (971 - ez)) by (apply Z.pow_le_mono_r; lia).
    assert (0 < 2 ^ (ea - ez)) by (apply Z.pow_pos_nonneg; lia).
    nia. }
  assert (HC : Zpos mc * 2 ^ (ec - ez) < 2 ^ (515 - ez)).
  { replace (515 - ez) with (53 + (462 - ez)) by lia.
    rewrite Z.pow_add_r by lia.
    assert (2 ^ (ec - ez) <= 2 ^ (462 - ez)) by (apply Z.pow_le_mono_r; lia).
    assert (0 < 2 ^ (ec - ez)) by (apply Z.pow_pos_nonneg; lia).
    nia. }
  assert (HD : 2 ^ (515 - ez) <= 2 ^ (970 - ez))
    by (apply Z.pow_le_mono_r; lia).
  assert (PA : 0 < Zpos ma * 2 ^ (ea - ez))
    by (apply Z.mul_pos_pos; [lia|apply Z.pow_pos_nonneg; lia]).
  assert (PC : 0 < Zpos mc * 2 ^ (ec - ez))
    by (apply Z.mul_pos_pos; [lia|apply Z.pow_pos_nonneg; lia]).
  split;
    apply (binary_normalize_no_overflow _ ez (Zpos mc * 2 ^ (ec - ez)));
    try lia; destruct sa, sc; cbn [cond_Zopp]; lia.
Qed.


(** A rounded quantity that a float of exponent [k] bounds has exponent at
    most [k]. *)
Lemma round_core_le_max (M E c k : Z) :
  0 <= M -> 0 <= c <= 3 ->
  (0 < M -> E <= fexp F64.prec F64.emax (Zdigits2 M + E)) ->
  (M = 0 -> E <= -1074) ->
  -1074 <= k -> E <= k ->
  M + (if c =? 0 then 0 else 1) <= (2 ^ 53 - 1) * 2 ^ (k - E) ->
  fst (round_core M E c) = 0 \/ snd (round_core M E c) <= k.
Proof.
  intros HM Hc Hpre Hzero Hk HEk Hle.
  pose proof (round_core_value M E c HM Hc Hpre Hzero) as (Hg & Hv & Hcan).
  cbv zeta in Hg, Hv.
  set (g := fexp F64.prec F64.emax (Zdigits2 M + E)) in *.
  assert (Egdef : g = Z.max (Zdigits2 M + E - 53) (-1074)) by reflexivity.
  assert (Pk : 0 < 2 ^ (k - E)) by (apply Z.pow_pos_nonneg; lia).
  assert (HEg : E <= g).
  { destruct (Z.eq_dec M 0) as [->|]; [specialize (Hzero eq_refl); lia|].
    apply Hpre. lia. }
  assert (Hgk : g <= k).
  { destruct (Z.eq_dec M 0) as [->|HMne]; [simpl in Egdef; lia|].
    pose proof (Zdigits2_bounds M ltac:(lia)) as [Lo _].
    pose proof (Zdigits2_pos M ltac:(lia)).
    destruct (Z.le_gt_cases (Zdigits2 M + E - 53) k); [lia|].
    assert (2 ^ (53 + (k - E)) <= 2 ^ (Zdigits2 M - 1))
      by (apply Z.pow_le_mono_r; lia).
    rewrite Z.pow_add_r in * by lia.
    destruct (c =? 0); nia. }
  assert (Hm2 : rne (4 * M + c) (g - E + 2) <= (2 ^ 53 - 1) * 2 ^ (k - g)).
  { apply rne_le_grid; [lia|].
    rewrite <- Z.mul_assoc, <- Z.pow_add_r by lia.
    replace (k - g + (g - E + 2)) with (2 + (k - E)) by lia.
    rewrite Z.pow_add_r by lia. change (2 ^ 2) with 4.
    destruct (Z.eqb_spec c 0); lia. }
  destruct Hcan as [Hz|Hcan]; [left; exact Hz|right].
  rewrite <- Hv in Hm2.
  assert (Hval : fst (round_core M E c)
                 * 2 ^ (snd (round_core M E c) - -1074)
                 <= (2 ^ 53 - 1) * 2 ^ (k - -1074)).
  { replace (snd (round_core M E c) - -1074)
      with ((snd (round_core M E c) - g) + (g - -1074)) by lia.
    replace (k - -1074) with ((k - g) + (g - -1074)) by lia.
    rewrite !Z.pow_add_r by lia. rewrite !Z.mul_assoc.
    apply Z.mul_le_mono_nonneg_r; [apply Z.pow_nonneg; lia|exact Hm2]. }
  destruct (canon_exponent_le _ _ _ _ (-1074) Hcan (canon_max k Hk)
              ltac:(lia) Hk Hval); lia.
Qed.

Lemma new_location_zero (nb : Z) : loc_code (new_location nb 0) = 0.
Proof.
  unfold new_location, new_location_even, new_location_odd.
  destruct (Z.even nb); reflexivity.
Qed.

(** Dividing a float of the format by a float that is at least 2 gives a
    quotient whose exponent is at most 970. *)
Lemma SFdiv_core_bound (m1 m2 : positive) (e1 e2 : Z) :
  Zpos m1 <= 2 ^ 53 - 1 -> e1 <= 971 ->
  (e2 <= 1 -> 2 ^ (1 - e2) <= Zpos m2) ->
  let '(q, e', l) :=
    SFdiv_core_binary F64.prec F64.emax (Zpos m1) e1 (Zpos m2) e2 in
  e' <= 969 /\
  q + (if loc_code l =? 0 then 0 else 1) <= (2 ^ 53 - 1) * 2 ^ (970 - e').
Proof.
  intros Hm1 He1 Hge. unfold SFdiv_core_binary.
  set (d1 := Zdigits2 (Zpos m1)). set (d2 := Zdigits2 (Zpos m2)).
  set (t := d1 + e1 - (d2 + e2)).
  set (e' := Z.min (fexp F64.prec F64.emax t) (e1 - e2)).
  set (s := e1 - e2 - e').
  assert (Hs : 0 <= s) by (unfold s, e'; lia).
  set (m' := match s with
             | 0 => Zpos m1
             | Zpos _ => Z.shiftl (Zpos m1) s
             | Zneg _ => 0
             end).
  assert (Hm' : m' = Zpos m1 * 2 ^ s).
  { unfold m'. destruct s as [|p|p] eqn:Es; try lia.
    apply Z.shiftl_mul_pow2. lia. }
  pose proof (Z_div_mod m' (Zpos m2) ltac:(lia)) as Hdm.
  destruct (Z.div_eucl m' (Zpos m2)) as [q r]. destruct Hdm as [Hdm Hr].
  pose proof (Zdigits2_bounds (Zpos m1) ltac:(lia)) as [Lo1 Hi1].
  fold d1 in Lo1, Hi1.
  pose proof (Zdigits2_bounds (Zpos m2) ltac:(lia)) as [Lo2 Hi2].
  fold d2 in Lo2, Hi2.
  assert (Hd1 : 0 < d1 <= 53).
  { split; [apply Zdigits2_pos; lia|].
    destruct (Z.le_gt_cases d1 53); [assumption|].
    assert (2 ^ 53 <= 2 ^ (d1 - 1)) by (apply Z.pow_le_mono_r; lia). lia. }
  assert (Hd2 : 0 < d2) by (apply Zdigits2_pos; lia).
  assert (Hmag2 : 2 <= d2 + e2).
  { destruct (Z.le_gt_cases e2 1) as [Hsm|]; [|lia].
    specialize (Hge Hsm).
    destruct (Z.le_gt_cases (2 - e2) d2); [lia|].
    assert (2 ^ d2 <= 2 ^ (1 - e2)) by (apply Z.pow_le_mono_r; lia). lia. }
  assert (He' : e' <= 969).
  { unfold e'. rewrite fexp_eq. unfold t. lia. }
  split; [exact He'|].
  assert (Ps : 0 < 2 ^ s) by (apply Z.pow_pos_nonneg; lia).
  assert (Hpow : 2 ^ s <= 2 ^ (970 - e') * Zpos m2).
  { destruct (Z.le_gt_cases e2 1) as [Hsm|Hbig].
    - specialize (Hge Hsm).
      assert (2 ^ s <= 2 ^ ((970 - e') + (1 - e2)))
        by (apply Z.pow_le_mono_r; unfold s; lia).
      rewrite Z.pow_add_r in * by lia.
      assert (0 < 2 ^ (970 - e')) by (apply Z.pow_pos_nonneg; lia).
      nia.
    - assert (2 ^ s <= 2 ^ (970 - e'))
        by (apply Z.pow_le_mono_r; unfold s; lia).
      nia. }
  assert (Hmain : m' <= (2 ^ 53 - 1) * 2 ^ (970 - e') * Zpos m2) by nia.
  assert (PY : 0 < (2 ^ 53 - 1) * 2 ^ (970 - e')).
  { apply Z.mul_pos_pos; [reflexivity|apply Z.pow_pos_nonneg; lia]. }
  destruct (Z.eq_dec r 0) as [->|Hrne].
  - rewrite new_location_zero. cbn [Z.eqb]. nia.
  - destruct (loc_code _ =? 0); nia.
Qed.

(** An integer count of at least two, as a float. *)
Lemma of_Z_count (N : Z) :
  2 <= N ->
  F64.of_Z N = S754_infinity false \/
  exists (m : positive) (e : Z),
    F64.of_Z N = S754_finite false m e /\
    (e <= 1 -> 2 ^ (1 - e) <= Zpos m).
Proof.
  intros HN. unfold F64.of_Z.
  destruct N as [|p|p]; try lia. cbn [binary_normalize].
  rewrite binary_round_core.
  pose proof (rounded_units_mono 2 (Zpos p) 0 ltac:(lia) HN) as Hmono.
  change (rounded_units 2 0) with (2 ^ 1075) in Hmono.
  pose proof (br_core_units (Zpos p) 0 ltac:(lia)) as [HB HU].
  change (Z.min 0 (-1074)) with (-1074) in HB, HU.
  rewrite <- HU in Hmono.
  destruct (br_core_canon (Zpos p) 0 ltac:(lia)) as [Hz|[Hm Hcan]].
  { rewrite Hz in Hmono. simpl in Hmono. lia. }
  destruct (fst (br_core (Zpos p) 0)) as [|q|q]; try lia.
  unfold pack. destruct (snd (br_core (Zpos p) 0) <=? F64.emax - F64.prec);
    [right|left; reflexivity].
  eexists _, _. split; [reflexivity|].
  intros He.
  set (e := snd (br_core (Zpos p) 0)) in *.
  replace 1075 with ((1 - e) + (e - -1074)) in Hmono by lia.
  rewrite Z.pow_add_r in Hmono by lia.
  assert (0 < 2 ^ (e - -1074)) by (apply Z.pow_pos_nonneg; lia).
  nia.
Qed.

Lemma SFdiv_count_small (x : float) (N : Z) :
  valid_binary F64.prec F64.emax x = true -> F64.is_finite x = true ->
  2 <= N ->
  small (F64.div x (F64.of_Z N)) 970 = true.
Proof.
  intros Hv Hf HN. unfold F64.div.
  destruct (of_Z_count N HN) as [->|(m2 & e2 & -> & Hge)].
  - destruct x; try discriminate; reflexivity.
  - destruct x as [sx|sx| |sx m1 e1]; try discriminate; [reflexivity|].
    pose proof (valid_mantissa _ _ _ Hv) as [Hm1 He1].
    cbn [SFdiv].
    pose proof (SFdiv_core_pre m1 m2 e1 e2) as Hpre.
    pose proof (SFdiv_core_bound m1 m2 e1 e2 Hm1 ltac:(lia) Hge) as Hb.
    destruct (SFdiv_core_binary F64.prec F64.emax (Zpos m1) e1 (Zpos m2) e2)
      as [[q e'] l].
    destruct Hpre as (Hq & Hpos & Hzero). destruct Hb as [He' Hle].
    rewrite binary_round_aux_core by assumption.
    pose proof (round_core_value q e' (loc_code l) Hq (loc_code_range l)
                  Hpos Hzero) as (_ & _ & Hcan).
    pose proof (round_core_le_max q e' (loc_code l) 970 Hq (loc_code_range l)
                  Hpos Hzero ltac:(lia) ltac:(lia) Hle) as Hk.
    destruct Hk as [Hz|Hk]; [rewrite Hz; reflexivity|].
    apply pack_small; [exact Hcan|exact Hk|lia].
Qed.


Lemma add_finite_inv (x y : float) :
  F64.is_finite (F64.add x y) = true ->
  F64.is_finite x = true /\ F64.is_finite y = true.
Proof.
  destruct x as [sx|sx| |sx mx ex], y as [sy|sy| |sy my ey];
    try (split; reflexivity); try discriminate;
    destruct sx, sy; discriminate.
Qed.

Lemma sub_finite_inv (x y : float) :
  F64.is_finite (F64.sub x y) = true ->
  F64.is_finite x = true /\ F64.is_finite y = true.
Proof.
  destruct x as [sx|sx| |sx mx ex], y as [sy|sy| |sy my ey];
    try (split; reflexivity); try discriminate;
    destruct sx, sy; discriminate.
Qed.

Lemma square_finite_inv (d : float) :
  F64.is_finite (F64.mul d d) = true -> F64.is_finite d = true.
Proof. destruct d; try discriminate; reflexivity. Qed.

Lemma div_finite_inv (x y : float) :
  F64.is_finite (F64.div x y) = true -> F64.is_finite x = true.
Proof.
  destruct x as [sx|sx| |sx mx ex], y as [sy|sy| |sy my ey];
    try reflexivity; discriminate.
Qed.

Lemma SFadd_valid (x y : float) :
  valid x = true -> valid y = true -> valid (F64.add x y) = true.
Proof.
  unfold valid, F64.add. intros Hx Hy.
  destruct x as [sx|sx| |sx mx ex], y as [sy|sy| |sy my ey];
    try reflexivity; try assumption;
    try (destruct sx, sy; reflexivity).
  cbn [SFadd]. apply binary_normalize_valid.
Qed.

(** *** The pairwise sum

    What the statistics need of a sum does not depend on the order of the
    additions: a property that additions keep holds of the sum, and a
    property that a sum passes to both its terms holds of every value. *)

(** An induction on lists that takes eight elements at a time. *)
Lemma list_ind8 {A : Type} (P : list A -> Prop) :
  (forall a, (List.length a < 8)%nat -> P a) ->
  (forall x0 x1 x2 x3 x4 x5 x6 x7 rest,
      P rest -> P (x0 :: x1 :: x2 :: x3 :: x4 :: x5 :: x6 :: x7 :: rest)) ->
  forall a, P a.
Proof.
  intros Hshort Hstep a.
  remember (List.length a) as n eqn:En.
  revert a En. induction n as [n IH] using (well_founded_induction lt_wf).
  intros a En.
  destruct a as [|x0 [|x1 [|x2 [|x3 [|x4 [|x5 [|x6 [|x7 rest]]]]]]]];
    try (apply Hshort; cbn [List.length]; lia).
  apply Hstep. apply (IH (List.length rest)); [|reflexivity].
  subst n. cbn [List.length]. lia.
Qed.

Lemma unrolled_sum_short (r0 r1 r2 r3 r4 r5 r6 r7 : float) (a : list float) :
  (List.length a < 8)%nat ->
  unrolled_sum r0 r1 r2 r3 r4 r5 r6 r7 a
  = fold_left F64.add a
      (F64.add (F64.add (F64.add r0 r1) (F64.add r2 r3))
               (F64.add (F64.add r4 r5) (F64.add r6 r7))).
Proof.
  intros Hn.
  destruct a as [|x0 [|x1 [|x2 [|x3 [|x4 [|x5 [|x6 [|x7 rest]]]]]]]];
    try reflexivity.
  cbn [List.length] in Hn. lia.
Qed.

Lemma block_sum_short (a : list float) :
  (List.length a < 8)%nat -> block_sum a = fold_left F64.add a F64.zero.
Proof.
  intros Hn.
  destruct a as [|x0 [|x1 [|x2 [|x3 [|x4 [|x5 [|x6 [|x7 rest]]]]]]]];
    try reflexivity.
  cbn [List.length] in Hn. lia.
Qed.

(** The depth given to [pairwise_sum] is enough: any depth that is at
    least the length gives the same sum. *)
Lemma pairwise_sum_depth (d d' : nat) (a : list float) :
  (List.length a <= d)%nat -> (List.length a <= d')%nat ->
  pairwise_sum d a = pairwise_sum d' a.
Proof.
  revert d' a. induction d as [|d IH]; intros d' a Hd Hd'.
  - destruct a; [|cbn [List.length] in Hd; lia].
    destruct d'; reflexivity.
  - destruct d' as [|d'].
    + destruct a; [reflexivity|cbn [List.length] in Hd'; lia].
    + cbn [pairwise_sum]. cbv zeta.
      destruct (Nat.ltb_spec 128 (List.length a)) as [Hbig|Hsmall];
        [|reflexivity].
      set (n2 := (List.length a / 2 - (List.length a / 2) mod 8)%nat).
      assert (Hhalf : (64 <= List.length a / 2)%nat)
        by (apply Nat.div_le_lower_bound; lia).
      assert (Hmod : ((List.length a / 2) mod 8 < 8)%nat)
        by (apply Nat.mod_upper_bound; lia).
      assert (Hle : (List.length a / 2 < List.length a)%nat)
        by (apply Nat.div_lt; lia).
      assert (Hn2 : (0 < n2 < List.length a)%nat).
      { unfold n2. generalize dependent (List.length a / 2)%nat.
        intros h _ Hh. generalize (h mod 8)%nat. intros m Hm Hlt. lia. }
      assert (H1 : (List.length (firstn n2 a) < List.length a)%nat)
        by (rewrite length_firstn; lia).
      assert (H2 : (List.length (skipn n2 a) < List.length a)%nat)
        by (rewrite length_skipn; lia).
      rewrite (IH d' (firstn n2 a)) by lia.
      rewrite (IH d' (skipn n2 a)) by lia.
      reflexivity.
Qed.

Section SumClosed.
Variable P : float -> Prop.
Hypothesis P_add : forall x y, P x -> P y -> P (F64.add x y).
Hypothesis P_zero : P F64.zero.

Lemma fold_add_closed (xs : list float) (acc : float) :
  Forall P xs -> P acc -> P (fold_left F64.add xs acc).
Proof.
  intros Hxs. revert acc.
  induction Hxs as [|x xs Hx _ IH]; intros acc Hacc; [exact Hacc|].
  cbn [fold_left]. apply IH, P_add; assumption.
Qed.

Lemma unrolled_sum_closed (a : list float) :
  forall r0 r1 r2 r3 r4 r5 r6 r7,
    P r0 -> P r1 -> P r2 -> P r3 -> P r4 -> P r5 -> P r6 -> P r7 ->
    Forall P a ->
    P (unrolled_sum r0 r1 r2 r3 r4 r5 r6 r7 a).
Proof.
  induction a as [a Hn|x0 x1 x2 x3 x4 x5 x6 x7 rest IH] using list_ind8;
    intros r0 r1 r2 r3 r4 r5 r6 r7 H0 H1 H2 H3 H4 H5 H6 H7 Ha.
  - rewrite unrolled_sum_short by exact Hn.
    apply fold_add_closed; [exact Ha|]. auto.
  - cbn [unrolled_sum].
    repeat match goal with
           | Hl : Forall P (_ :: _) |- _ => inversion Hl; subst; clear Hl
           end.
    apply IH; auto.
Qed.

Lemma block_sum_closed (a : list float) : Forall P a -> P (block_sum a).
Proof.
  intros Ha.
  destruct (Nat.lt_ge_cases (List.length a) 8) as [Hn|Hn].
  - rewrite block_sum_short by exact Hn. apply fold_add_closed; assumption.
  - destruct a as [|x0 [|x1 [|x2 [|x3 [|x4 [|x5 [|x6 [|x7 rest]]]]]]]];
      try (cbn [List.length] in Hn; lia).
    cbn [block_sum].
    repeat match goal with
           | Hl : Forall P (_ :: _) |- _ => inversion Hl; subst; clear Hl
           end.
    apply unrolled_sum_closed; assumption.
Qed.

Lemma pairwise_sum_closed (d : nat) (a : list float) :
  Forall P a -> P (pairwise_sum d a).
Proof.
  revert a. induction d as [|d IH]; intros a Ha; cbn [pairwise_sum].
  - apply block_sum_closed, Ha.
  - cbv zeta. destruct (128 <? List.length a)%nat;
      [|apply block_sum_closed, Ha].
    set (n2 := (List.length a / 2 - (List.length a / 2) mod 8)%nat).
    rewrite <- (firstn_skipn n2 a) in Ha. apply Forall_app in Ha.
    destruct Ha as [Ha1 Ha2]. apply P_add; apply IH; assumption.
Qed.

Lemma series_sum_closed (xs : list float) :
  Forall P xs -> P (series_sum xs).
Proof.
  intros Hxs. unfold series_sum. apply P_add; [exact P_zero|].
  apply pairwise_sum_closed, Hxs.
Qed.

End SumClosed.

Section SumTerms.
Variable Q : float -> Prop.
Hypothesis Q_add : forall x y, Q (F64.add x y) -> Q x /\ Q y.

Lemma fold_add_terms (xs : list float) (acc : float) :
  Q (fold_left F64.add xs acc) -> Q acc /\ Forall Q xs.
Proof.
  revert acc. induction xs as [|x xs IH]; intros acc Hf.
  - split; [exact Hf|constructor].
  - cbn [fold_left] in Hf. destruct (IH _ Hf) as [Hacc Hxs].
    apply Q_add in Hacc. destruct Hacc as [Ha Hx].
    split; [exact Ha|constructor; assumption].
Qed.

Lemma unrolled_sum_terms (a : list float) :
  forall r0 r1 r2 r3 r4 r5 r6 r7,
    Q (unrolled_sum r0 r1 r2 r3 r4 r5 r6 r7 a) ->
    Forall Q [r0; r1; r2; r3; r4; r5; r6; r7] /\ Forall Q a.
Proof.
  induction a as [a Hn|x0 x1 x2 x3 x4 x5 x6 x7 rest IH] using list_ind8;
    intros r0 r1 r2 r3 r4 r5 r6 r7 Hq.
  - rewrite unrolled_sum_short in Hq by exact Hn.
    apply fold_add_terms in Hq. destruct Hq as [Hacc Ha].
    split; [|exact Ha].
    repeat match goal with
           | Hs : Q (F64.add _ _) |- _ =>
               apply Q_add in Hs; destruct Hs as [? ?]
           end.
    repeat constructor; assumption.
  - cbn [unrolled_sum] in Hq. apply IH in Hq. destruct Hq as [Hr Hrest].
    repeat match goal with
           | Hl : Forall Q (_ :: _) |- _ => inversion Hl; subst; clear Hl
           end.
    repeat match goal with
           | Hs : Q (F64.add _ _) |- _ =>
               apply Q_add in Hs; destruct Hs as [? ?]
           end.
    split; repeat constructor; assumption.
Qed.

Lemma block_sum_terms (a : list float) : Q (block_sum a) -> Forall Q a.
Proof.
  intros Hq.
  destruct (Nat.lt_ge_cases (List.length a) 8) as [Hn|Hn].
  - rewrite block_sum_short in Hq by exact Hn.
    apply fold_add_terms in Hq. apply Hq.
  - destruct a as [|x0 [|x1 [|x2 [|x3 [|x4 [|x5 [|x6 [|x7 rest]]]]]]]];
      try (cbn [List.length] in Hn; lia).
    cbn [block_sum] in Hq. apply unrolled_sum_terms in Hq.
    destruct Hq as [Hr Hrest].
    repeat match goal with
           | Hl : Forall Q (_ :: _) |- _ => inversion Hl; subst; clear Hl
           end.
    repeat constructor; assumption.
Qed.

Lemma pairwise_sum_terms (d : nat) (a : list float) :
  Q (pairwise_sum d a) -> Forall Q a.
Proof.
  revert a. induction d as [|d IH]; intros a Hq; cbn [pairwise_sum] in Hq.
  - apply block_sum_terms, Hq.
  - cbv zeta in Hq. destruct (128 <? List.length a)%nat;
      [|apply block_sum_terms, Hq].
    set (n2 := (List.length a / 2 - (List.length a / 2) mod 8)%nat) in *.
    apply Q_add in Hq. destruct Hq as [H1 H2].
    rewrite <- (firstn_skipn n2 a). apply Forall_app.
    split; apply IH; assumption.
Qed.

Lemma series_sum_terms (xs : list float) :
  Q (series_sum xs) -> Forall Q xs.
Proof.
  unfold series_sum. intros Hq. apply Q_add in Hq.
  apply (pairwise_sum_terms _ _ (proj2 Hq)).
Qed.

End SumTerms.

Lemma series_sum_valid (xs : list float) :
  Forall (fun x => valid x = true) xs -> valid (series_sum xs) = true.
Proof.
  apply (series_sum_closed (fun x => valid x = true));
    [apply SFadd_valid|reflexivity].
Qed.

(** The order shows: the mean of [eight_values] is 1250000000000000.75,
    where adding from left to right would give 1250000000000000.0. *)
Lemma series_mean_eight_values :
  series_mean eight_values = S754_finite false 5000000000000003 (-2) /\
  F64.div (fold_left F64.add eight_values F64.zero) (F64.of_Z 8)
  = S754_finite false 5000000000000000 (-2).
Proof. split; vm_compute; reflexivity. Qed.

Lemma series_sum_finite_terms (xs : list float) :
  F64.is_finite (series_sum xs) = true ->
  Forall (fun x => F64.is_finite x = true) xs.
Proof.
  apply (series_sum_terms (fun x => F64.is_finite x = true)).
  apply add_finite_inv.
Qed.

(** A finite sample variance comes from a finite mean. *)
Lemma series_var_finite_mean (xs : list float) :
  F64.is_finite (series_var xs) = true ->
  F64.is_finite (series_mean xs) = true.
Proof.
  unfold series_var.
  destruct (List.length xs <=? 1)%nat eqn:El; [discriminate|].
  intros Hf. apply div_finite_inv in Hf.
  apply series_sum_finite_terms in Hf. rename Hf into Hall.
  destruct xs as [|x xs]; [discriminate|].
  cbn [map] in Hall. inversion Hall as [|? ? Hx _]; subst.
  apply square_finite_inv in Hx. apply sub_finite_inv in Hx.
  destruct Hx as [Hm _]. exact Hm.
Qed.

(** The mean of at least two numbers of the format has exponent at most
    970 when it is finite. *)
Lemma series_mean_small (xs : list float) :
  Forall (fun x => valid x = true) xs ->
  (2 <= List.length xs)%nat ->
  F64.is_finite (series_mean xs) = true ->
  small (series_mean xs) 970 = true.
Proof.
  intros Hv Hn Hf. unfold series_mean, count_of in *.
  apply SFdiv_count_small; [apply series_sum_valid; exact Hv| |lia].
  apply div_finite_inv in Hf. exact Hf.
Qed.

Lemma sqrt_positive_inv (x : float) :
  F64.is_finite (F64.sqrt x) = true ->
  F64.gtb (F64.sqrt x) F64.zero = true ->
  exists (m : positive) (e : Z), x = S754_finite false m e.
Proof.
  destruct x as [s|[|]| |[|] m e]; try discriminate.
  intros _ _. eexists _, _. reflexivity.
Qed.

Lemma py_max_zero_positive (x : float) (m : positive) (e : Z) :
  py_max_zero x = S754_finite false m e -> x = S754_finite false m e.
Proof.
  unfold py_max_zero. destruct (F64.gtb F64.zero x); [discriminate|].
  intros H; exact H.
Qed.

(** With a finite, strictly positive standard error the uplift and both
    bounds of the interval are finite. *)
Lemma interval_finite (t c : list float) (se : float) :
  Forall (fun x => valid x = true) t ->
  Forall (fun x => valid x = true) c ->
  uplift_se (series_var t) (series_var c) (List.length t) (List.length c)
  = Some se ->
  F64.is_finite se = true -> F64.gtb se F64.zero = true ->
  let au := F64.sub (series_mean t) (series_mean c) in
  F64.is_finite au = true /\
  F64.is_finite (F64.sub au (F64.mul F64.z_crit se)) = true /\
  F64.is_finite (F64.add au (F64.mul F64.z_crit se)) = true.
Proof.
  intros Vt Vc Hse Hfin Hpos. cbv zeta. unfold uplift_se in Hse.
  destruct ((1 <? List.length t)%nat && (1 <? List.length c)%nat)%bool
    eqn:Hn; [|discriminate].
  apply andb_true_iff in Hn. destruct Hn as [Hnt Hnc].
  apply Nat.ltb_lt in Hnt, Hnc.
  destruct (negb (F64.isnan _)); [|discriminate].
  injection Hse as <-.
  destruct (sqrt_positive_inv _ Hfin Hpos) as (m & e & Hval).
  pose proof (py_max_zero_positive _ _ _ Hval) as Hx.
  rewrite Hval in *. clear Hval.
  assert (Hfx : F64.is_finite
                  (F64.add
                     (F64.div (series_var t) (F64.of_Z (Z.of_nat (List.length t))))
                     (F64.div (series_var c) (F64.of_Z (Z.of_nat (List.length c)))))
                = true) by (rewrite Hx; reflexivity).
  apply add_finite_inv in Hfx. destruct Hfx as [Ft Fc].
  apply div_finite_inv, series_var_finite_mean in Ft.
  apply div_finite_inv, series_var_finite_mean in Fc.
  pose proof (series_mean_small t Vt ltac:(lia) Ft) as St.
  pose proof (series_mean_small c Vc ltac:(lia) Fc) as Sc.
  pose proof (series_mean_valid t) as Vmt.
  pose proof (series_mean_valid c) as Vmc.
  assert (Vx : valid (S754_finite false m e) = true).
  { rewrite <- Hx. apply SFadd_valid; apply SFdiv_valid. }
  destruct (SFsqrt_small m e Vx) as [Vse Sse].
  destruct (half_width_small _ Vse Sse) as [Vw Sw].
  assert (Fau : F64.is_finite (F64.sub (series_mean t) (series_mean c)) = true)
    by (apply SFsub_small_finite; assumption).
  split; [exact Fau|].
  apply SFsub_add_small_finite; try assumption.
  apply SFsub_valid; assumption.
Qed.


(** C5.  On treated outcomes 1e200 and -1e200 and control outcomes 0 and
    0 both sides have two rows and the computed standard error is
    +Infinity.  Sanitised, [standard_error] is null; the guard of line 67,
    [se is not None and se > 0], lets +Infinity through, and
    [approximate_confidence_interval] is a list of two nulls, not null.
    On the other inputs with a null [standard_error], a side with fewer
    than two rows or a NaN under the root, [se] is [None] and the interval
    is null. *)
Theorem interval_present_without_error :
  let t := treated_outcomes overflow_df "treatment" "outcome" in
  let c := control_outcomes overflow_df "treatment" "outcome" in
  exists s : UpliftSummary,
    compute_uplift_summary overflow_df "treatment" "outcome" = Ok (Some s) /\
    uplift_se (series_var t) (series_var c) (List.length t) (List.length c)
    = Some F64.pinf /\
    standard_error s = PyNone /\
    approximate_confidence_interval s = PyList [PyNone; PyNone] /\
    approximate_confidence_interval s <> PyNone.
Proof.
  cbv zeta. eexists. vm_compute. repeat split; try reflexivity. discriminate.
Qed.

Lemma partition_outcomes_valid
  `{TextParsers} (df : DataFrame) (treatment outcome : string) :
  column_valid (df_get df outcome) = true ->
  Forall (fun x => valid x = true)
    (map snd (treated_rows (uplift_data df treatment outcome))) /\
  Forall (fun x => valid x = true)
    (map snd (control_rows (uplift_data df treatment outcome))).
Proof.
  intros Hcol.
  assert (Hin : forall r, In r (uplift_data df treatment outcome) ->
                  valid (snd r) = true).
  { intros [tv ov] Hr. unfold uplift_data, dropna in Hr.
    apply filter_In in Hr. destruct Hr as [Hr _].
    apply in_combine_r in Hr. unfold to_numeric in Hr.
    apply in_map_iff in Hr. destruct Hr as (c & <- & Hc).
    unfold column_valid in Hcol.
    rewrite forallb_forall in Hcol. apply Hcol. exact Hc. }
  split; apply Forall_forall; intros x Hx; apply in_map_iff in Hx;
    destruct Hx as (r & <- & Hr); apply filter_In in Hr;
    destruct Hr as [Hr _]; apply Hin; exact Hr.
Qed.

(** X21. The interval, where the standard error is defined.  On a
    dataset whose outcome values are binary64 numbers, in a returned summary whose
    [standard_error] is defined and strictly positive, [absolute_uplift] is
    defined, [approximate_confidence_interval] is
    [[absolute_uplift - 1.96*standard_error,
      absolute_uplift + 1.96*standard_error]], and its two bounds enclose
    [absolute_uplift].  When [standard_error] is defined and not strictly
    positive the interval is null. *)
Theorem interval_around_uplift
  `{TextParsers} (df : DataFrame) (treatment outcome : string)
  (s : UpliftSummary) :
  compute_uplift_summary df treatment outcome = Ok (Some s) ->
  column_valid (df_get df outcome) = true ->
  (forall se : float,
      standard_error s = PyFloat se -> F64.gtb se F64.zero = true ->
      exists a : float,
        absolute_uplift s = PyFloat a /\
        let lo := F64.sub a (F64.mul F64.z_crit se) in
        let hi := F64.add a (F64.mul F64.z_crit se) in
        approximate_confidence_interval s = PyList [PyFloat lo; PyFloat hi] /\
        F64.leb lo a = true /\ F64.leb a hi = true) /\
  (forall se : float,
      standard_error s = PyFloat se -> F64.gtb se F64.zero = false ->
      approximate_confidence_interval s = PyNone).
Proof.
  intros Hs Hcol. apply compute_uplift_summary_some in Hs.
  destruct Hs as (_ & _ & _ & _ & Hs).
  destruct (summary_raw _ _ _ Hs) as (_ & _ & Hau & _ & Hse & Hci).
  destruct (partition_outcomes_valid df treatment outcome Hcol) as [Vt Vc].
  cbv zeta in *. rewrite Hau, Hse, Hci. clear Hs Hau Hse Hci.
  rewrite <- (length_map snd (treated_rows _)).
  rewrite <- (length_map snd (control_rows _)).
  set (t := map snd (treated_rows _)) in *.
  set (c := map snd (control_rows _)) in *.
  destruct (uplift_se _ _ _ _) as [e|] eqn:Ese; cbn [uplift_ci].
  - split.
    + intros se He Hpos.
      apply sanitized_float in He. destruct He as [-> Hfin].
      destruct (interval_finite t c se Vt Vc Ese Hfin Hpos)
        as (Fau & Flo & Fhi).
      cbv zeta in Fau, Flo, Fhi.
      exists (F64.sub (series_mean t) (series_mean c)).
      unfold sanitized. rewrite Hpos, Fau, Flo, Fhi.
      split; [reflexivity|]. split; [reflexivity|].
      apply interval_encloses; try assumption; apply series_mean_valid.
    + intros se He Hpos. apply sanitized_float in He.
      destruct He as [-> _]. rewrite Hpos. reflexivity.
  - split; intros se He; discriminate.
Qed.

Lemma interval_around_uplift_witness :
  (exists a : float,
      compute_uplift_summary scenario_df "treatment" "outcome"
      = Ok (Some scenario_summary) /\
      column_valid (df_get scenario_df "outcome") = true /\
      absolute_uplift scenario_summary = PyFloat a /\
      let se := S754_finite false 5740985595342838 (-50) in
      let lo := F64.sub a (F64.mul F64.z_crit se) in
      let hi := F64.add a (F64.mul F64.z_crit se) in
      approximate_confidence_interval scenario_summary
      = PyList [PyFloat lo; PyFloat hi] /\
      F64.leb lo a = true /\ F64.leb a hi = true) /\
  (exists s : UpliftSummary,
      compute_uplift_summary flat_df "treatment" "outcome" = Ok (Some s) /\
      standard_error s = PyFloat F64.zero /\
      approximate_confidence_interval s = PyNone).
Proof.
  split.
  - assert (Hs : compute_uplift_summary scenario_df "treatment" "outcome"
                 = Ok (Some scenario_summary)) by (vm_compute; reflexivity).
    destruct (proj1 (interval_around_uplift scenario_df "treatment"
                       "outcome" scenario_summary Hs eq_refl)
                (S754_finite false 5740985595342838 (-50)))
      as (a & Ha & Hci);
      [vm_compute; reflexivity|reflexivity|].
    exists a.
    split; [exact Hs|]. split; [reflexivity|]. split; assumption.
  - eexists. split; [vm_compute; reflexivity|].
    split; [vm_compute; reflexivity|].
    refine (proj2 (interval_around_uplift flat_df "treatment"
                     "outcome" _ _ _) F64.zero _ _);
      vm_compute; reflexivity.
Defined.

(** ** Further properties of [safe_float] *)

(** An induction principle for arrays that reaches the rows. *)
Lemma ndarray_rows_ind (P : ndarray -> Prop) :
  (forall x, P (Nd0 x)) ->
  (forall rs, Forall P rs -> P (NdRows rs)) ->
  forall a, P a.
Proof.
  intros H0 Hr.
  fix IH 1. intros [x|rs].
  - apply H0.
  - apply Hr. induction rs as [|r rs IHrs]; constructor.
    + apply IH.
    + exact IHrs.
Qed.

Lemma nd_flat_length (a : ndarray) : List.length (nd_flat a) = nd_size a.
Proof.
  induction a as [x|rs IH] using ndarray_rows_ind; [reflexivity|].
  cbn [nd_flat nd_size].
  induction IH as [|r rs Hr _ IHrs]; [reflexivity|].
  cbn [flat_map fold_right]. rewrite length_app, Hr, IHrs. reflexivity.
Qed.

Section SafeFloatDepth.
Context `{TextParsers}.

Lemma safe_float_unfold (v : pyval) :
  safe_float v =
  match v with
  | NpArray a => safe_float_nd a
  | NpScalar x => safe_float_scalar (np_item x)
  | _ => safe_float_scalar v
  end.
Proof.
  destruct v as [| | | | |x|a]; try reflexivity.
  destruct x; reflexivity.
Qed.

Lemma safe_float_scalar_number (v : pyval) :
  json_number (safe_float_scalar v) = true.
Proof.
  unfold safe_float_scalar.
  destruct (py_float v) as [f|]; [|reflexivity].
  destruct f; reflexivity.
Qed.

Lemma json_number_safe (v : pyval) :
  json_number v = true -> json_safe v = true.
Proof. destruct v; try discriminate; auto. Qed.

Lemma safe_float_nd_safe (a : ndarray) :
  json_safe (safe_float_nd a) = true.
Proof.
  induction a as [x|rs IH] using ndarray_rows_ind.
  - apply json_number_safe, safe_float_scalar_number.
  - cbn [safe_float_nd].
    destruct (nd_size (NdRows rs) =? 1)%nat.
    + apply json_number_safe, safe_float_scalar_number.
    + cbn [json_safe]. rewrite forallb_forall. intros v Hv.
      apply in_map_iff in Hv. destruct Hv as (r & <- & Hr).
      rewrite Forall_forall in IH. apply IH, Hr.
Qed.

Lemma safe_float_safe (v : pyval) : json_safe (safe_float v) = true.
Proof.
  rewrite safe_float_unfold.
  destruct v; try apply json_number_safe, safe_float_scalar_number.
  apply safe_float_nd_safe.
Qed.

(** X1. Whatever value [safe_float] is given, its result holds no NaN and
    no infinity at any depth: it is null, a finite float, or a list, nested
    to any depth, of nulls and finite floats.  On anything but an array the
    result is a scalar: null or a finite float. *)
Theorem safe_float_json_safe (v : pyval) :
  json_safe (safe_float v) = true /\
  match v with
  | NpArray _ => True
  | _ => json_number (safe_float v) = true
  end.
Proof.
  split; [apply safe_float_safe|].
  rewrite safe_float_unfold.
  destruct v; try apply safe_float_scalar_number. exact I.
Qed.

Lemma py_flat_scalar (v : pyval) :
  py_flat (safe_float_scalar v) = [safe_float_scalar v].
Proof.
  unfold safe_float_scalar.
  destruct (py_float v) as [f|]; [|reflexivity].
  destruct (F64.isnan f || F64.isinf f); reflexivity.
Qed.

Lemma safe_float_nd_flat (a : ndarray) :
  py_flat (safe_float_nd a)
  = map (fun x => safe_float_scalar (np_item x)) (nd_flat a).
Proof.
  induction a as [x|rs IH] using ndarray_rows_ind.
  - cbn [safe_float_nd nd_flat map]. apply py_flat_scalar.
  - cbn [safe_float_nd].
    destruct (nd_size (NdRows rs) =? 1)%nat eqn:E.
    + apply Nat.eqb_eq in E. rewrite <- nd_flat_length in E.
      rewrite py_flat_scalar. unfold nd_item.
      destruct (nd_flat (NdRows rs)) as [|x [|y l]]; try discriminate.
      reflexivity.
    + cbn [py_flat nd_flat]. clear E.
      induction IH as [|r rs Hr _ IHrs]; [reflexivity|].
      cbn [map flat_map]. rewrite map_app, Hr, IHrs. reflexivity.
Qed.

(** X2. Sanitising an array keeps every position: read left to right, the
    scalars of the result are the sanitised scalars of the array in
    iteration order, so none is dropped, added or moved, and a NaN or
    infinite element becomes a null in its own place. *)
Theorem safe_float_array_elements (a : ndarray) :
  py_flat (safe_float (NpArray a))
  = map (fun x => safe_float (NpScalar x)) (nd_flat a).
Proof.
  rewrite safe_float_unfold, safe_float_nd_flat.
  apply map_ext. intros x. rewrite safe_float_unfold. reflexivity.
Qed.

(** X3. Sanitising a sanitised value: a scalar result (null or a finite
    float) is left as it is, and a list result becomes null, since a list
    is not an array and [float] rejects it. *)
Theorem safe_float_twice (v : pyval) :
  safe_float (safe_float v)
  = match safe_float v with
    | PyList _ => PyNone
    | r => r
    end.
Proof.
  assert (Hs : forall u, safe_float (safe_float_scalar u) = safe_float_scalar u).
  { intros u. unfold safe_float_scalar.
    destruct (py_float u) as [f|]; [|reflexivity].
    destruct f; reflexivity. }
  assert (Hm : forall u, match safe_float_scalar u with
                         | PyList _ => PyNone | r => r end = safe_float_scalar u).
  { intros u. unfold safe_float_scalar.
    destruct (py_float u) as [f|]; [|reflexivity].
    destruct (F64.isnan f || F64.isinf f); reflexivity. }
  rewrite (safe_float_unfold v).
  destruct v as [| | | | |x|a]; rewrite ?Hs, ?Hm; try reflexivity.
  destruct a as [x|rs]; cbn [safe_float_nd].
  - rewrite Hs, Hm. reflexivity.
  - destruct (nd_size (NdRows rs) =? 1)%nat.
    + rewrite Hs, Hm. reflexivity.
    + reflexivity.
Qed.

End SafeFloatDepth.

Lemma SFleb_pinf_inv (x : float) :
  SFleb (S754_infinity false) x = true -> x = S754_infinity false.
Proof.
  unfold SFleb, SFcompare. destruct x as [s|[|]| |s m e]; try discriminate.
  reflexivity.
Qed.

Lemma SFleb_ninf_inv (x : float) :
  SFleb x (S754_infinity true) = true -> x = S754_infinity true.
Proof.
  unfold SFleb, SFcompare. destruct x as [s|[|]| |[|] m e]; try discriminate.
  reflexivity.
Qed.

Lemma of_Z_overflow_pos (z : Z) :
  2 ^ 1024 - 2 ^ 970 <= z -> F64.of_Z z = F64.pinf.
Proof.
  intros Hz. apply SFleb_pinf_inv.
  assert (E : F64.of_Z (2 ^ 1024 - 2 ^ 970) = S754_infinity false)
    by (vm_compute; reflexivity).
  rewrite <- E. apply binary_normalize_mono, Hz.
Qed.

Lemma of_Z_overflow_neg (z : Z) :
  z <= - (2 ^ 1024 - 2 ^ 970) -> F64.of_Z z = F64.ninf.
Proof.
  intros Hz. apply SFleb_ninf_inv.
  assert (E : F64.of_Z (- (2 ^ 1024 - 2 ^ 970)) = S754_infinity true)
    by (vm_compute; reflexivity).
  rewrite <- E. apply binary_normalize_mono, Hz.
Qed.

Lemma of_Z_in_range (z : Z) :
  Z.abs z < 2 ^ 1024 - 2 ^ 970 -> F64.is_finite (F64.of_Z z) = true.
Proof.
  intros Hz. unfold F64.of_Z.
  apply (binary_normalize_no_overflow z 0 (2 ^ 970 - 1)).
  - lia.
  - change (970 - 0) with 970. lia.
  - change (971 - 0) with 971.
    replace (2 ^ 1024) with (2 ^ 53 * 2 ^ 971) in Hz
      by (rewrite <- Z.pow_add_r by lia; reflexivity).
    replace (2 ^ 971) with (2 * 2 ^ 970) in *
      by (change 971 with (1 + 970); rewrite Z.pow_add_r by lia; reflexivity).
    lia.
Qed.

(** *** Accuracy of the conversions *)

Lemma rne_error (X k : Z) :
  0 <= k -> 2 * Z.abs (rne X k * 2 ^ k - X) <= 2 ^ k.
Proof.
  intros Hk. unfold rne.
  assert (P : 0 < 2 ^ k) by (apply Z.pow_pos_nonneg; lia).
  pose proof (Z.div_mod X (2 ^ k) ltac:(lia)) as D.
  pose proof (Z.mod_pos_bound X (2 ^ k) P) as B.
  set (q := X / 2 ^ k) in *. set (r := X mod 2 ^ k) in *.
  destruct (Z.compare_spec (2 * r) (2 ^ k)) as [He|Hl|Hg];
    [destruct (Z.even q)| |]; nia.
Qed.

Lemma br_core_error (M E : Z) :
  0 < M ->
  let m := fst (br_core M E) in
  let e := snd (br_core M E) in
  let U := Z.min E e - 1 in
  0 <= m /\
  Z.abs (M * 2 ^ (E - U) - m * 2 ^ (e - U)) <= 2 ^ (e - 1 - U) /\
  (m = 0 -> E <= -1074 /\ 2 * M <= 2 ^ (-1074 - E)).
Proof.
  intros HM. cbv zeta. unfold br_core.
  set (g := fexp F64.prec F64.emax (Zdigits2 M + E)).
  assert (Hg : g = Z.max (Zdigits2 M + E - 53) (-1074)) by apply fexp_eq.
  destruct (Z.ltb_spec g E) as [Hlt|Hge]; cbn [fst snd].
  - (* exact *)
    assert (P : 0 < 2 ^ (E - g)) by (apply Z.pow_pos_nonneg; lia).
    split; [nia|]. split; [|nia].
    replace (Z.min E g - 1) with (g - 1) by lia.
    replace (E - (g - 1)) with ((E - g) + 1) by lia.
    replace (g - (g - 1)) with 1 by lia.
    rewrite Z.pow_add_r by lia.
    replace (M * (2 ^ (E - g) * 2 ^ 1) - M * 2 ^ (E - g) * 2 ^ 1) with 0 by ring.
    cbn [Z.abs]. apply Z.pow_nonneg. lia.
  - pose proof (round_core_value M E 0 ltac:(lia) ltac:(lia)
                  ltac:(intros _; fold g; lia) ltac:(lia)) as Hv.
    cbv zeta in Hv. fold g in Hv.
    destruct Hv as (Hsnd & Hval & _).
    set (m := fst (round_core M E 0)) in *.
    set (e := snd (round_core M E 0)) in *.
    replace (4 * M + 0) with (4 * M) in Hval by lia.
    pose proof (rne_error (4 * M) (g - E + 2) ltac:(lia)) as Herr.
    rewrite <- Hval in Herr.
    assert (Hm : 0 <= m)
      by (apply round_core_nonneg; lia).
    split; [exact Hm|].
    replace (Z.min E e - 1) with (E - 1) by lia.
    replace (E - (E - 1)) with 1 by lia.
    replace (e - 1 - (E - 1)) with ((e - g) + (g - E)) by lia.
    replace (e - (E - 1)) with ((e - g) + (g - E) + 1) by lia.
    replace (g - E + 2) with ((g - E) + 2) in Herr by lia.
    rewrite !Z.pow_add_r in * by lia.
    assert (P1 : 0 < 2 ^ (e - g)) by (apply Z.pow_pos_nonneg; lia).
    assert (P2 : 0 < 2 ^ (g - E)) by (apply Z.pow_pos_nonneg; lia).
    change (2 ^ 2) with 4 in Herr. change (2 ^ 1) with 2.
    set (a := 2 ^ (e - g)) in *. set (b := 2 ^ (g - E)) in *.
    split.
    + assert (Z.abs (M * 2 - m * (a * b * 2)) <= b) by nia.
      nia.
    + intros Hz. rewrite Hz in Herr.
      replace (0 * a * (b * 4) - 4 * M) with (- (4 * M)) in Herr by ring.
      rewrite Z.abs_opp, Z.abs_eq in Herr by lia.
      assert (HMb : M < b) by lia.
      assert (Hd : Zdigits2 M <= g - E).
      { pose proof (Zdigits2_bounds M HM) as [Lo _].
        pose proof (Zdigits2_pos M HM) as Dpos.
        destruct (Z.le_gt_cases (Zdigits2 M) (g - E)) as [Hle|Hgt]; [exact Hle|].
        assert (2 ^ (g - E) <= 2 ^ (Zdigits2 M - 1))
          by (apply Z.pow_le_mono_r; lia).
        unfold b in HMb. lia. }
      assert (Hg' : g = -1074) by lia.
      split; [lia|].
      replace (-1074 - E) with (g - E) by lia. fold b. lia.
Qed.

Lemma binary_normalize_near (M E : Z) (sz : bool) :
  F64.is_finite (binary_normalize F64.prec F64.emax M E sz) = true ->
  within_half_ulp M E (binary_normalize F64.prec F64.emax M E sz).
Proof.
  assert (Hcase : forall (s : bool) (p : positive),
             F64.is_finite (binary_round F64.prec F64.emax s p E) = true ->
             within_half_ulp (cond_Zopp s (Zpos p)) E
               (binary_round F64.prec F64.emax s p E)).
  { intros s p. rewrite binary_round_core.
    pose proof (br_core_error (Zpos p) E ltac:(lia)) as Hb.
    cbv zeta in Hb. destruct Hb as (Hm & Herr & Hzero).
    set (m := fst (br_core (Zpos p) E)) in *.
    set (e := snd (br_core (Zpos p) E)) in *.
    unfold pack. destruct m as [|q|q] eqn:Em; [| |lia].
    - intros _. cbn [within_half_ulp]. cbv zeta.
      destruct (Hzero eq_refl) as [HE Hsmall].
      replace (Z.min E (-1074) - 1) with (E - 1) by lia.
      replace (E - (E - 1)) with 1 by lia.
      replace (-1075 - (E - 1)) with (-1074 - E) by lia.
      rewrite cond_Zopp_abs. change (2 ^ 1) with 2.
      change (Z.abs (Zpos p)) with (Zpos p). lia.
    - destruct (e <=? F64.emax - F64.prec); [|discriminate].
      intros _. cbn [within_half_ulp]. cbv zeta.
      replace (cond_Zopp s (Zpos p) * 2 ^ (E - (Z.min E e - 1))
               - cond_Zopp s (Zpos q) * 2 ^ (e - (Z.min E e - 1)))
        with (cond_Zopp s (Zpos p * 2 ^ (E - (Z.min E e - 1))
                           - Zpos q * 2 ^ (e - (Z.min E e - 1))))
        by (destruct s; cbn [cond_Zopp]; ring).
      rewrite cond_Zopp_abs. exact Herr. }
  destruct M as [|p|p]; cbn [binary_normalize].
  - intros _. cbn [within_half_ulp Z.abs]. cbv zeta.
    rewrite Z.mul_0_l. apply Z.pow_nonneg. lia.
  - apply (Hcase false p).
  - apply (Hcase true p).
Qed.

(** The conversion of an integer and of a wider float. *)
Lemma of_Z_near (z : Z) :
  F64.is_finite (F64.of_Z z) = true -> within_half_ulp z 0 (F64.of_Z z).
Proof. apply binary_normalize_near. Qed.

Lemma of_wide_near (s : bool) (m : positive) (e : Z) :
  F64.is_finite (F64.of_wide (S754_finite s m e)) = true ->
  within_half_ulp (cond_Zopp s (Zpos m)) e (F64.of_wide (S754_finite s m e)).
Proof. apply binary_normalize_near. Qed.

(** C3, counterexample.  The extended-precision scalar 2^1024 is finite,
    and [safe_float] returns null on it: its conversion to a native float
    is an infinity. *)
Lemma wide_scalar_overflows :
  F64.is_finite wide_big = true /\
  safe_float (NpScalar (NpLongDouble wide_big)) = PyNone /\
  forall f : float,
    safe_float (NpScalar (NpLongDouble wide_big)) <> PyFloat f.
Proof.
  split; [reflexivity|]. split; [vm_compute; reflexivity|].
  intros f. vm_compute. discriminate.
Qed.

(** C3, amended.  [safe_float] returns a finite numpy float of at most
    double precision as the same native float; a numpy integer as the
    float nearest to it, within half a unit in the last place and equal to
    it up to magnitude 2^53; a finite extended-precision float as the
    double nearest to it, within half a unit in the last place, when that
    double is finite, and as null when it is not.  On NaN and on either
    infinity it returns null; on a value that [float] rejects it returns
    null; on an array of one element it returns what it returns on that
    element; on an array of more than one element it returns the list of
    what it returns on each row, in order, rows that are arrays being
    treated in the same way. *)
Theorem safe_float_cases `{TextParsers} :
  (forall f : float,
      F64.is_finite f = true ->
      safe_float (NpScalar (NpFloat f)) = PyFloat f) /\
  (forall z : Z,
      Z.abs z < 2 ^ 1024 - 2 ^ 970 ->
      safe_float (NpScalar (NpInt z)) = PyFloat (F64.of_Z z) /\
      within_half_ulp z 0 (F64.of_Z z) /\
      (Z.abs z <= 2 ^ 53 -> F64.to_Z_exact (F64.of_Z z) = Some z)) /\
  (forall x : spec_float,
      F64.is_finite x = true ->
      safe_float (NpScalar (NpLongDouble x)) = sanitized (F64.of_wide x)) /\
  (forall (s : bool) (m : positive) (e : Z),
      F64.is_finite (F64.of_wide (S754_finite s m e)) = true ->
      within_half_ulp (cond_Zopp s (Zpos m)) e
        (F64.of_wide (S754_finite s m e))) /\
  (forall f : float,
      F64.isnan f = true \/ F64.isinf f = true ->
      safe_float (NpScalar (NpFloat f)) = PyNone /\
      safe_float (NpScalar (NpLongDouble f)) = PyNone /\
      safe_float (PyFloat f) = PyNone) /\
  (forall v : pyval,
      is_numpy v = false -> py_float v = None -> safe_float v = PyNone) /\
  (forall a : ndarray,
      nd_size a = 1%nat -> safe_float (NpArray a) = safe_float (nd_item a)) /\
  (forall a : ndarray,
      (1 < nd_size a)%nat ->
      exists rs : list ndarray,
        a = NdRows rs /\
        safe_float (NpArray a)
        = PyList (map (fun r => safe_float (NpArray r)) rs)).
Proof.
  split; [|split; [|split; [|split; [|split; [|split; [|split]]]]]].
  - intros f Hf. rewrite safe_float_np_float. unfold sanitized.
    rewrite Hf. reflexivity.
  - intros z Hz. pose proof (of_Z_in_range z Hz) as Hf.
    split; [|split].
    + unfold safe_float, np_item, safe_float_scalar, py_float.
      destruct (F64.of_Z z); try discriminate; reflexivity.
    + apply of_Z_near, Hf.
    + apply of_Z_exact.
  - intros x _. unfold safe_float, np_item, safe_float_scalar, py_float.
    destruct (F64.of_wide x); reflexivity.
  - intros s m e. apply of_wide_near.
  - intros f Hf. destruct f; destruct Hf; try discriminate;
      repeat split; reflexivity.
  - intros v Hv Hf. destruct v; try discriminate;
      unfold safe_float, safe_float_scalar; rewrite Hf; reflexivity.
  - intros a Ha. rewrite safe_float_array.
    destruct a as [x|rs].
    + destruct x; reflexivity.
    + cbn [safe_float_nd]. rewrite Ha. cbn [Nat.eqb].
      unfold nd_item. destruct (nd_flat (NdRows rs)) as [|x xs];
        [reflexivity|destruct x; reflexivity].
  - intros a Ha. destruct a as [x|rs]; [simpl in Ha; lia|].
    exists rs. split; [reflexivity|].
    apply safe_float_nd_rows. lia.
Qed.

Lemma safe_float_cases_witness :
  safe_float (NpScalar (NpFloat (F64.of_Z 3))) = PyFloat (F64.of_Z 3) /\
  (safe_float (NpScalar (NpInt (2 ^ 53 + 1)))
   = PyFloat (F64.of_Z (2 ^ 53 + 1)) /\
   within_half_ulp (2 ^ 53 + 1) 0 (F64.of_Z (2 ^ 53 + 1)) /\
   F64.to_Z_exact (F64.of_Z 3) = Some 3) /\
  safe_float (NpScalar (NpLongDouble (S754_finite false 3 0)))
  = sanitized (F64.of_wide (S754_finite false 3 0)) /\
  within_half_ulp (2 ^ 64 + 1) (-3)
    (F64.of_wide (S754_finite false (2 ^ 64 + 1) (-3))) /\
  (safe_float (NpScalar (NpFloat F64.nan)) = PyNone /\
   safe_float (NpScalar (NpLongDouble F64.nan)) = PyNone /\
   safe_float (PyFloat F64.nan) = PyNone) /\
  safe_float PyNone = PyNone /\
  safe_float (NpArray (NdRows [Nd0 (NpInt 3)]))
  = safe_float (nd_item (NdRows [Nd0 (NpInt 3)])) /\
  exists rs : list ndarray,
    NdRows [Nd0 (NpInt 3); Nd0 (NpFloat F64.pinf)] = NdRows rs /\
    safe_float (NpArray (NdRows [Nd0 (NpInt 3); Nd0 (NpFloat F64.pinf)]))
    = PyList (map (fun r => safe_float (NpArray r)) rs).
Proof.
  destruct (@safe_float_cases no_text)
    as (H1 & H2 & H3 & H4 & H5 & H6 & H7 & H8).
  split; [apply H1; reflexivity|].
  split.
  { destruct (H2 (2 ^ 53 + 1)) as (Ha & Hb & _);
      [vm_compute; reflexivity|].
    split; [exact Ha|]. split; [exact Hb|].
    apply (H2 3); vm_compute; [reflexivity|discriminate]. }
  split; [apply H3; reflexivity|].
  split; [apply (H4 false (2 ^ 64 + 1)%positive (-3)); vm_compute; reflexivity|].
  split; [apply H5; left; reflexivity|].
  split; [apply H6; reflexivity|].
  split; [apply H7; reflexivity|].
  apply H8. apply Nat.ltb_lt. vm_compute. reflexivity.
Defined.

(** X4. On a native integer [safe_float] returns the nearest float as long
    as the magnitude is below 2^1024 - 2^970, the midpoint between the
    largest float and 2^1024; from that magnitude on the conversion
    overflows and the result is null. *)
Theorem safe_float_int_range `{TextParsers} (z : Z) :
  (Z.abs z < 2 ^ 1024 - 2 ^ 970 ->
   safe_float (PyInt z) = PyFloat (F64.of_Z z) /\
   F64.is_finite (F64.of_Z z) = true) /\
  (2 ^ 1024 - 2 ^ 970 <= Z.abs z -> safe_float (PyInt z) = PyNone).
Proof.
  split.
  - intros Hz. pose proof (of_Z_in_range z Hz) as Hf. split; [|exact Hf].
    unfold safe_float, safe_float_scalar, py_float.
    destruct (F64.of_Z z); try discriminate; reflexivity.
  - intros Hz.
    assert (Hinf : F64.isinf (F64.of_Z z) = true).
    { destruct (Z.abs_spec z) as [[_ E]|[_ E]]; rewrite E in Hz.
      - rewrite of_Z_overflow_pos by exact Hz. reflexivity.
      - rewrite of_Z_overflow_neg by lia. reflexivity. }
    unfold safe_float, safe_float_scalar, py_float.
    rewrite Hinf. reflexivity.
Qed.

Lemma safe_float_int_range_witness :
  (safe_float (PyInt 7) = PyFloat (F64.of_Z 7) /\
   F64.is_finite (F64.of_Z 7) = true) /\
  safe_float (PyInt (2 ^ 1024)) = PyNone.
Proof.
  split.
  - apply (proj1 (@safe_float_int_range no_text 7)).
    vm_compute. reflexivity.
  - apply (proj2 (@safe_float_int_range no_text (2 ^ 1024))).
    vm_compute. discriminate.
Defined.

(** ** Further properties of [compute_uplift_summary] *)

Lemma pack_plus_signed (m e : Z) : 0 <= m -> plus_signed (pack false m e) = true.
Proof.
  intros Hm. unfold pack. destruct m as [|p|p]; [reflexivity| |lia].
  destruct (e <=? F64.emax - F64.prec); reflexivity.
Qed.

Lemma of_Z_plus_signed (n : nat) : plus_signed (F64.of_Z (Z.of_nat n)) = true.
Proof.
  unfold F64.of_Z, binary_normalize.
  destruct (Z.of_nat n) as [|p|p] eqn:E; [reflexivity| |lia].
  rewrite binary_round_core. apply pack_plus_signed.
  apply br_core_nonneg. lia.
Qed.

Lemma of_Z_pred_plus_signed (n : nat) :
  (1 <= n)%nat -> plus_signed (F64.of_Z (Z.of_nat n - 1)) = true.
Proof.
  intros Hn. replace (Z.of_nat n - 1) with (Z.of_nat (n - 1)) by lia.
  apply of_Z_plus_signed.
Qed.

Lemma mul_self_not_below_zero (d : float) :
  not_below_zero (F64.mul d d) = true.
Proof.
  destruct d as [s|s| |s m e]; try (destruct s; reflexivity); try reflexivity.
  unfold F64.mul, SFmul. rewrite binary_round_aux_core by lia.
  rewrite xorb_nilpotent. unfold not_below_zero.
  rewrite pack_nonneg; [reflexivity|].
  apply round_core_nonneg; [lia|]. cbn [loc_code]. lia.
Qed.

Lemma add_not_below_zero (x y : float) :
  not_below_zero x = true -> not_below_zero y = true ->
  not_below_zero (F64.add x y) = true.
Proof.
  unfold not_below_zero.
  destruct x as [sx|[|]| |[|] mx ex]; try discriminate;
    destruct y as [sy|[|]| |[|] my ey]; try discriminate;
    intros _ _; try reflexivity.
  - destruct sx, sy; reflexivity.
  - unfold F64.add, SFadd. cbn [cond_Zopp].
    set (a := fst (shl_align mx ex (Z.min ex ey))).
    set (b := fst (shl_align my ey (Z.min ex ey))).
    change (Z.pos a + Z.pos b) with (Z.pos (a + b)).
    unfold binary_normalize. rewrite binary_round_core.
    rewrite pack_nonneg; [reflexivity|].
    apply br_core_nonneg. lia.
Qed.

Lemma div_not_below_zero (x y : float) :
  not_below_zero x = true -> plus_signed y = true ->
  not_below_zero (F64.div x y) = true.
Proof.
  unfold not_below_zero.
  destruct x as [sx|[|]| |[|] mx ex]; try discriminate;
    destruct y as [[|]|[|]| |[|] my ey]; try discriminate;
    intros _ _; try reflexivity; try (destruct sx; reflexivity).
  unfold F64.div, SFdiv.
  pose proof (SFdiv_core_pre mx my ex ey) as Hpre.
  destruct (SFdiv_core_binary F64.prec F64.emax (Z.pos mx) ex (Z.pos my) ey)
    as [[q e'] l].
  destruct Hpre as (Hq & _ & _).
  rewrite binary_round_aux_core by exact Hq.
  cbn [xorb]. rewrite pack_nonneg; [reflexivity|].
  apply round_core_nonneg; [exact Hq|]. destruct l as [|[| |]]; cbn; lia.
Qed.

Lemma sqrt_not_below_zero (x : float) : not_below_zero (F64.sqrt x) = true.
Proof.
  destruct x as [s|[|]| |[|] m e]; try reflexivity.
  unfold F64.sqrt, SFsqrt.
  pose proof (SFsqrt_core_pre m e) as Hpre.
  destruct (SFsqrt_core_binary F64.prec F64.emax (Z.pos m) e) as [[q e'] l].
  destruct Hpre as (Hq & _ & _).
  rewrite binary_round_aux_core by lia.
  unfold not_below_zero. rewrite pack_nonneg; [reflexivity|].
  apply round_core_nonneg; [lia|]. destruct l as [|[| |]]; cbn; lia.
Qed.

Lemma series_sum_not_below_zero (xs : list float) :
  Forall (fun x => not_below_zero x = true) xs ->
  not_below_zero (series_sum xs) = true.
Proof.
  apply (series_sum_closed (fun x => not_below_zero x = true));
    [apply add_not_below_zero|reflexivity].
Qed.

Lemma series_var_not_below_zero (xs : list float) :
  not_below_zero (series_var xs) = true.
Proof.
  unfold series_var.
  destruct (List.length xs <=? 1)%nat eqn:E; [reflexivity|].
  apply Nat.leb_gt in E. cbv zeta.
  apply div_not_below_zero.
  - apply series_sum_not_below_zero.
    apply Forall_forall. intros y Hy. apply in_map_iff in Hy.
    destruct Hy as (x & <- & _). apply mul_self_not_below_zero.
  - apply of_Z_pred_plus_signed. lia.
Qed.

Lemma py_max_zero_idle (x : float) :
  not_below_zero x = true -> py_max_zero x = x.
Proof.
  unfold not_below_zero, py_max_zero.
  destruct x as [s|[|]| |[|] m e]; try discriminate; reflexivity.
Qed.

Lemma under_root_not_below_zero (ts cs : list float) (n m : nat) :
  not_below_zero
    (F64.add (F64.div (series_var ts) (F64.of_Z (Z.of_nat n)))
             (F64.div (series_var cs) (F64.of_Z (Z.of_nat m)))) = true.
Proof.
  apply add_not_below_zero; apply div_not_below_zero;
    auto using series_var_not_below_zero, of_Z_plus_signed.
Qed.

(** X5. The guard [max(..., 0)] under the square root never changes the
    value: for sample variances of any two series and any two counts,
    [var_t/n_t + var_c/n_c] is already a non-negative float or NaN, and
    [max] returns it as it is. *)
Theorem se_guard_idle (ts cs : list float) (n m : nat) :
  se_value (series_var ts) (series_var cs) n m
  = F64.add (F64.div (series_var ts) (F64.of_Z (Z.of_nat n)))
            (F64.div (series_var cs) (F64.of_Z (Z.of_nat m))).
Proof.
  unfold se_value. apply py_max_zero_idle, under_root_not_below_zero.
Qed.

Section UpliftInputs.
Context `{TextParsers}.

(** X6. A [standard_error] that is not null is a finite float that is not
    below zero. *)
Theorem standard_error_not_negative
  (df : DataFrame) (treatment outcome : string)
  (s : UpliftSummary) (e : float) :
  compute_uplift_summary df treatment outcome = Ok (Some s) ->
  standard_error s = PyFloat e ->
  F64.leb F64.zero e = true /\ F64.is_finite e = true.
Proof.
  intros Hs He.
  apply compute_uplift_summary_some in Hs.
  destruct Hs as (_ & _ & _ & _ & ->).
  cbn [uplift_of_partitions standard_error] in He.
  unfold uplift_se in He.
  destruct ((1 <? _)%nat && (1 <? _)%nat)%bool; [|discriminate He].
  cbv zeta in He.
  destruct (negb (F64.isnan _)); [|discriminate He].
  cbn [opt_float] in He. rewrite safe_float_py_float in He.
  apply sanitized_float in He. destruct He as [<- Hfin].
  split; [|exact Hfin].
  pose proof (sqrt_not_below_zero
                (se_value
                   (series_var (map snd (treated_rows
                      (uplift_data df treatment outcome))))
                   (series_var (map snd (control_rows
                      (uplift_data df treatment outcome))))
                   (List.length (treated_rows (uplift_data df treatment outcome)))
                   (List.length (control_rows (uplift_data df treatment outcome)))))
    as Hnn.
  revert Hnn Hfin. unfold not_below_zero.
  destruct (F64.sqrt _) as [s|[|]| |[|] m e]; try discriminate; reflexivity.
Qed.

(** X7. With outcome values that are binary64 numbers and at least two rows
    on each side, a summary whose two means are defined has a defined
    [absolute_uplift], the treated mean minus the control mean: the
    difference of two such means cannot overflow. *)
Theorem uplift_defined_with_means
  (df : DataFrame) (treatment outcome : string)
  (s : UpliftSummary) (nt nc : Z) (tm cm : float) :
  compute_uplift_summary df treatment outcome = Ok (Some s) ->
  column_valid (df_get df outcome) = true ->
  treatment_count s = PyInt nt -> control_count s = PyInt nc ->
  2 <= nt -> 2 <= nc ->
  treatment_mean s = PyFloat tm -> control_mean s = PyFloat cm ->
  absolute_uplift s = PyFloat (F64.sub tm cm).
Proof.
  intros Hs Hv Hnt Hnc Lt Lc Htm Hcm.
  apply compute_uplift_summary_some in Hs.
  destruct Hs as (_ & _ & _ & _ & Hs).
  pose proof (partition_outcomes_valid df treatment outcome Hv) as [Vt Vc].
  set (tr := treated_rows (uplift_data df treatment outcome)) in *.
  set (co := control_rows (uplift_data df treatment outcome)) in *.
  pose proof (summary_raw tr co s Hs) as HR. cbv zeta in HR.
  destruct HR as (Rtm & Rcm & Rau & _).
  rewrite Hs in Hnt, Hnc.
  cbn [uplift_of_partitions treatment_count control_count] in Hnt, Hnc.
  injection Hnt as Hnt. injection Hnc as Hnc.
  rewrite Rtm in Htm. rewrite Rcm in Hcm.
  apply sanitized_float in Htm, Hcm.
  destruct Htm as [Etm Ftm]. destruct Hcm as [Ecm Fcm].
  assert (St : small (series_mean (map snd tr)) 970 = true).
  { apply series_mean_small; [exact Vt| |exact Ftm]. rewrite length_map. lia. }
  assert (Sc : small (series_mean (map snd co)) 970 = true).
  { apply series_mean_small; [exact Vc| |exact Fcm]. rewrite length_map. lia. }
  rewrite Rau, <- Etm, <- Ecm. unfold sanitized.
  rewrite SFsub_small_finite;
    auto using series_mean_valid.
Qed.

Lemma df_get_app_other (df1 df2 : DataFrame) (n : string) (col : list cell)
  (name : string) :
  name <> n ->
  df_get (df1 ++ (n, col) :: df2) name = df_get (df1 ++ df2) name.
Proof.
  intros Hn. induction df1 as [|[m c] df1 IH]; cbn [app df_get].
  - apply String.eqb_neq in Hn. rewrite Hn. reflexivity.
  - rewrite IH. reflexivity.
Qed.

Lemma column_count_app_other
  (df1 df2 : DataFrame) (n : string) (col : list cell) (name : string) :
  name <> n ->
  column_count (df1 ++ (n, col) :: df2) name = column_count (df1 ++ df2) name.
Proof.
  intros Hn. unfold column_count, df_columns.
  rewrite !map_app, !filter_app. cbn [map filter fst].
  apply String.eqb_neq in Hn. rewrite Hn. reflexivity.
Qed.

(** A name is a column when at least one column carries it. *)
Lemma has_column_count (df : DataFrame) (name : string) :
  has_column df name = (0 <? column_count df name)%nat.
Proof.
  unfold has_column, column_count.
  induction (df_columns df) as [|c cs IH]; [reflexivity|].
  cbn [existsb filter]. destruct (String.eqb name c); [reflexivity|exact IH].
Qed.

(** The outcome of the call is a function of how many columns carry each
    of the two names and of the frame [data]. *)
Lemma compute_uplift_summary_ext (df df' : DataFrame) (t o : string) :
  column_count df t = column_count df' t ->
  column_count df o = column_count df' o ->
  uplift_data df t o = uplift_data df' t o ->
  compute_uplift_summary df t o = compute_uplift_summary df' t o.
Proof.
  intros Ht Ho Hd. unfold compute_uplift_summary.
  rewrite !has_column_count, Ht, Ho, Hd. reflexivity.
Qed.

(** X8. A column that is neither the treatment nor the outcome has no
    influence: with or without it, wherever it stands in the frame, the
    summary is the same. *)
Theorem summary_ignores_other_columns
  (df1 df2 : DataFrame) (n : string) (col : list cell)
  (treatment outcome : string) :
  n <> treatment -> n <> outcome ->
  compute_uplift_summary (df1 ++ (n, col) :: df2) treatment outcome
  = compute_uplift_summary (df1 ++ df2) treatment outcome.
Proof.
  intros Ht Ho. apply compute_uplift_summary_ext.
  - apply column_count_app_other. congruence.
  - apply column_count_app_other. congruence.
  - unfold uplift_data. rewrite !df_get_app_other by congruence. reflexivity.
Qed.

Lemma remove_at_split {A : Type} (k : nat) (l : list A) (d : A) :
  (k < List.length l)%nat ->
  l = firstn k l ++ nth k l d :: skipn (S k) l.
Proof.
  revert l. induction k as [|k IH]; intros [|x l] Hk; cbn in Hk; try lia.
  - reflexivity.
  - cbn [firstn nth skipn app]. f_equal. apply IH. lia.
Qed.

Lemma combine_app_eq {A B : Type} (a1 b1 : list A) (a2 b2 : list B) :
  List.length a1 = List.length a2 ->
  combine (a1 ++ b1) (a2 ++ b2) = combine a1 a2 ++ combine b1 b2.
Proof.
  revert a2. induction a1 as [|x a1 IH]; intros [|y a2] Hl; cbn in Hl;
    try discriminate; [reflexivity|].
  cbn [app combine]. f_equal. apply IH. lia.
Qed.

Lemma df_get_drop_row (k : nat) (df : DataFrame) (name : string) :
  df_get (drop_row k df) name = remove_at k (df_get df name).
Proof.
  induction df as [|[n c] df IH]; cbn [drop_row map df_get fst snd].
  - unfold remove_at. destruct k; reflexivity.
  - destruct (String.eqb name n); [reflexivity|exact IH].
Qed.

Lemma column_count_drop_row (k : nat) (df : DataFrame) (name : string) :
  column_count (drop_row k df) name = column_count df name.
Proof.
  unfold column_count, df_columns, drop_row. rewrite map_map.
  reflexivity.
Qed.

(** X9. A row whose treatment cell or outcome cell does not coerce to a
    number has no influence: the frame without that row has the same
    summary. *)
Theorem summary_ignores_uncoerced_row
  (df : DataFrame) (treatment outcome : string) (k : nat) :
  (k < List.length (df_get df treatment))%nat ->
  (k < List.length (df_get df outcome))%nat ->
  both_coerce (nth k (df_get df treatment) CMissing,
               nth k (df_get df outcome) CMissing) = false ->
  compute_uplift_summary (drop_row k df) treatment outcome
  = compute_uplift_summary df treatment outcome.
Proof.
  intros Ht Ho Hbad. apply compute_uplift_summary_ext.
  - apply column_count_drop_row.
  - apply column_count_drop_row.
  - unfold uplift_data. rewrite !df_get_drop_row, !dropna_both_coerce.
    f_equal.
    set (ct := df_get df treatment) in *. set (co := df_get df outcome) in *.
    rewrite (remove_at_split k ct CMissing Ht) at 2.
    rewrite (remove_at_split k co CMissing Ho) at 2.
    unfold remove_at.
    assert (Hl : List.length (firstn k ct) = List.length (firstn k co)).
    { rewrite !length_firstn. lia. }
    rewrite !combine_app_eq by exact Hl.
    cbn [combine]. rewrite !filter_app. cbn [filter].
    rewrite Hbad. reflexivity.
Qed.

Lemma uplift_of_partitions_outcomes (tr tr' co co' : list row) :
  map snd tr = map snd tr' -> map snd co = map snd co' ->
  uplift_of_partitions tr co = uplift_of_partitions tr' co'.
Proof.
  intros Ht Hc.
  assert (Lt : List.length tr = List.length tr')
    by (rewrite <- (length_map snd tr), Ht; apply length_map).
  assert (Lc : List.length co = List.length co')
    by (rewrite <- (length_map snd co), Hc; apply length_map).
  unfold uplift_of_partitions. rewrite Ht, Hc, Lt, Lc. reflexivity.
Qed.

Lemma map_snd_nil {A B : Type} (l l' : list (A * B)) :
  map snd l = map snd l' -> (l = [] <-> l' = []).
Proof.
  destruct l, l'; cbn; intros E; try discriminate; split; congruence.
Qed.

Lemma partitions_same_side (ct ct' co : list cell) :
  Forall2 same_side ct ct' ->
  let d := dropna (combine (to_numeric ct) (to_numeric co)) in
  let d' := dropna (combine (to_numeric ct') (to_numeric co)) in
  map snd d = map snd d' /\
  map snd (treated_rows d) = map snd (treated_rows d') /\
  map snd (control_rows d) = map snd (control_rows d').
Proof.
  intros HF. revert co.
  induction HF as [|c c' ct ct' [Hnan Hge] _ IH]; intros co; cbv zeta.
  - repeat split; reflexivity.
  - destruct co as [|d co]; [repeat split; reflexivity|].
    specialize (IH co). cbv zeta in IH. destruct IH as (I1 & I2 & I3).
    cbn [to_numeric map combine].
    fold (to_numeric ct) (to_numeric ct') (to_numeric co).
    unfold dropna at 1 2 3 4 5 6. cbn [filter fst snd].
    fold (dropna (combine (to_numeric ct) (to_numeric co))).
    fold (dropna (combine (to_numeric ct') (to_numeric co))).
    rewrite <- Hnan.
    destruct (F64.isnan (to_numeric_cell c)) eqn:En; cbn [negb andb].
    + repeat split; assumption.
    + destruct (F64.isnan (to_numeric_cell d)) eqn:Ed; cbn [negb].
      * repeat split; assumption.
      * unfold treated_rows, control_rows in *. cbn [filter fst snd map].
        assert (L : forall x, F64.isnan x = false ->
                    F64.ltb x F64.half = negb (F64.geb x F64.half)).
        { intros x Hx. rewrite (geb_ltb_split x F64.half Hx half_not_nan).
          rewrite negb_involutive. reflexivity. }
        rewrite (L _ En).
        assert (En' : F64.isnan (to_numeric_cell c') = false) by congruence.
        rewrite (L _ En'). rewrite <- Hge.
        destruct (F64.geb (to_numeric_cell c) F64.half); cbn [negb map snd];
          repeat split; congruence.
Qed.

(** X10. The treatment column matters only through the side of 0.5 its
    values fall on: two frames in which each of the two names is carried by
    as many columns, with the same outcome column, whose treatment cells
    agree row by row on whether they coerce and on whether they are at
    least 0.5, have the same summary. *)
Theorem summary_depends_on_side_only
  (df df' : DataFrame) (treatment outcome : string) :
  column_count df treatment = column_count df' treatment ->
  column_count df outcome = column_count df' outcome ->
  df_get df outcome = df_get df' outcome ->
  Forall2 same_side (df_get df treatment) (df_get df' treatment) ->
  compute_uplift_summary df treatment outcome
  = compute_uplift_summary df' treatment outcome.
Proof.
  intros Ht Ho Hout Hside.
  pose proof (partitions_same_side _ _ (df_get df outcome) Hside) as HP.
  cbv zeta in HP. destruct HP as (Hd & Htr & Hco).
  unfold compute_uplift_summary, uplift_data.
  rewrite !has_column_count, <- Ht, <- Ho, <- Hout.
  destruct (negb (0 <? column_count df treatment)%nat
            || negb (0 <? column_count df outcome)%nat);
    [reflexivity|].
  destruct ((1 <? column_count df outcome)%nat
            || (1 <? column_count df treatment)%nat); [reflexivity|].
  cbv zeta.
  set (d := dropna (combine (to_numeric (df_get df treatment))
                            (to_numeric (df_get df outcome)))) in *.
  set (d' := dropna (combine (to_numeric (df_get df' treatment))
                             (to_numeric (df_get df outcome)))) in *.
  pose proof (uplift_of_partitions_outcomes _ _ _ _ Htr Hco) as HU.
  apply map_snd_nil in Hd. apply map_snd_nil in Htr. apply map_snd_nil in Hco.
  destruct d as [|r d0] eqn:Ed.
  - rewrite (proj1 Hd eq_refl). reflexivity.
  - destruct d' as [|r' d0'] eqn:Ed';
      [destruct Hd as [_ Hd]; discriminate (Hd eq_refl)|].
    rewrite <- Ed, <- Ed' in *.
    destruct (treated_rows d) as [|x tr] eqn:E1.
    + rewrite (proj1 Htr eq_refl). reflexivity.
    + destruct (treated_rows d') as [|x' tr'] eqn:E1';
        [destruct Htr as [_ Htr]; discriminate (Htr eq_refl)|].
      destruct (control_rows d) as [|y co] eqn:E2.
      * rewrite (proj1 Hco eq_refl). reflexivity.
      * destruct (control_rows d') as [|y' co'] eqn:E2';
          [destruct Hco as [_ Hco]; discriminate (Hco eq_refl)|].
        rewrite HU. reflexivity.
Qed.

(** ** Further properties of [estimate_causal_effect] *)

Lemma summary_ci_safe (us : option UpliftSummary) :
  (forall s, us = Some s -> exists tr co, s = uplift_of_partitions tr co) ->
  json_safe (summary_ci us) = true.
Proof.
  intros Hus. destruct us as [s|]; [|reflexivity].
  destruct (Hus s eq_refl) as (tr & co & ->).
  cbn [summary_ci uplift_of_partitions approximate_confidence_interval].
  destruct (uplift_ci _ _) as [[|x l]|]; try reflexivity.
  cbn [json_safe]. apply forallb_forall. intros v Hv.
  apply in_map_iff in Hv. destruct Hv as (y & <- & _). apply safe_float_safe.
Qed.

(** X11. Whatever the library returns as estimate, interval, p-value and
    refuted effect, the fields [estimate_value], [confidence_intervals],
    [p_value] and [refutation_result] of a returned result hold no NaN and
    no infinity at any depth. *)
Theorem estimate_result_json_safe
  (estimate : CausalEstimate) (refutation : option pyval)
  (df : DataFrame) (treatment outcome : string) (r : CausalResult) :
  estimate_causal_effect estimate refutation df treatment outcome = Ok r ->
  json_safe (estimate_value r) = true /\
  json_safe (confidence_intervals r) = true /\
  json_safe (p_value r) = true /\
  json_safe (refutation_result r) = true.
Proof.
  intros Hr. apply estimate_causal_effect_ok in Hr.
  destruct Hr as (us & Hus & ->). unfold causal_result.
  cbn [estimate_value confidence_intervals p_value refutation_result].
  split; [apply safe_float_safe|]. split; [|split].
  - unfold fallback_conf_ints.
    destruct (_ && _ && _).
    + apply summary_ci_safe. intros s ->.
      apply compute_uplift_summary_some in Hus.
      destruct Hus as (_ & _ & _ & _ & ->). eauto.
    + unfold sanitize_conf_ints, opt_list.
      destruct (est_confidence_intervals estimate) as [l|]; [|reflexivity].
      cbn [json_safe]. apply forallb_forall. intros v Hv.
      apply in_map_iff in Hv. destruct Hv as (y & <- & _). apply safe_float_safe.
  - destruct (est_p_value estimate); [apply safe_float_safe|reflexivity].
  - destruct refutation; [apply safe_float_safe|reflexivity].
Qed.

End UpliftInputs.

Lemma estimate_result_json_safe_witness :
  let estimate :=
    {| est_value := NpScalar (NpFloat F64.pinf);
       est_confidence_intervals :=
         Some [NpArray (NdRows [Nd0 (NpFloat F64.nan);
                                Nd0 (NpFloat (F64.of_Z 2))])];
       est_p_value := Some (NpScalar (NpFloat F64.half)) |} in
  let r := causal_result estimate (Some (PyFloat F64.nan))
             (Some scenario_summary) in
  estimate_causal_effect estimate (Some (PyFloat F64.nan))
    scenario_df "treatment" "outcome" = Ok r /\
  json_safe (estimate_value r) = true /\
  json_safe (confidence_intervals r) = true /\
  json_safe (p_value r) = true /\
  json_safe (refutation_result r) = true.
Proof.
  cbv zeta.
  assert (Hr : estimate_causal_effect
                 {| est_value := NpScalar (NpFloat F64.pinf);
                    est_confidence_intervals :=
                      Some [NpArray (NdRows [Nd0 (NpFloat F64.nan);
                                             Nd0 (NpFloat (F64.of_Z 2))])];
                    est_p_value := Some (NpScalar (NpFloat F64.half)) |}
                 (Some (PyFloat F64.nan)) scenario_df "treatment" "outcome"
               = Ok (causal_result
                       {| est_value := NpScalar (NpFloat F64.pinf);
                          est_confidence_intervals :=
                            Some [NpArray (NdRows [Nd0 (NpFloat F64.nan);
                                                   Nd0 (NpFloat (F64.of_Z 2))])];
                          est_p_value := Some (NpScalar (NpFloat F64.half)) |}
                       (Some (PyFloat F64.nan)) (Some scenario_summary)))
    by (vm_compute; reflexivity).
  split; [exact Hr|].
  exact (estimate_result_json_safe _ _ _ _ _ _ Hr).
Defined.

Lemma standard_error_not_negative_witness :
  let e := S754_finite false 5740985595342838 (-50) in
  compute_uplift_summary scenario_df "treatment" "outcome"
  = Ok (Some scenario_summary) /\
  standard_error scenario_summary = PyFloat e /\
  F64.leb F64.zero e = true /\ F64.is_finite e = true.
Proof.
  cbv zeta.
  assert (Hs : compute_uplift_summary scenario_df "treatment" "outcome"
               = Ok (Some scenario_summary)) by (vm_compute; reflexivity).
  assert (He : standard_error scenario_summary
               = PyFloat (S754_finite false 5740985595342838 (-50)))
    by (vm_compute; reflexivity).
  split; [exact Hs|]. split; [exact He|].
  exact (standard_error_not_negative scenario_df "treatment" "outcome"
           scenario_summary _ Hs He).
Defined.

Lemma uplift_defined_with_means_witness :
  compute_uplift_summary scenario_df "treatment" "outcome"
  = Ok (Some scenario_summary) /\
  treatment_mean scenario_summary = PyFloat (F64.of_Z 15) /\
  control_mean scenario_summary = PyFloat (F64.of_Z 6) /\
  absolute_uplift scenario_summary
  = PyFloat (F64.sub (F64.of_Z 15) (F64.of_Z 6)).
Proof.
  assert (Hs : compute_uplift_summary scenario_df "treatment" "outcome"
               = Ok (Some scenario_summary)) by (vm_compute; reflexivity).
  assert (Htm : treatment_mean scenario_summary = PyFloat (F64.of_Z 15))
    by (vm_compute; reflexivity).
  assert (Hcm : control_mean scenario_summary = PyFloat (F64.of_Z 6))
    by (vm_compute; reflexivity).
  split; [exact Hs|]. split; [exact Htm|]. split; [exact Hcm|].
  apply (uplift_defined_with_means scenario_df "treatment" "outcome"
           scenario_summary 2 2);
    try assumption; try lia; vm_compute; reflexivity.
Defined.

Lemma summary_ignores_other_columns_witness :
  "region"%string <> "treatment"%string /\
  "region"%string <> "outcome"%string /\
  compute_uplift_summary
    ([] ++ ("region"%string, [CStr "n"; CStr "s"]) :: scenario_df)
    "treatment" "outcome"
  = compute_uplift_summary ([] ++ scenario_df) "treatment" "outcome".
Proof.
  split; [discriminate|]. split; [discriminate|].
  apply summary_ignores_other_columns; discriminate.
Defined.

Lemma summary_ignores_uncoerced_row_witness :
  (2 < List.length (df_get gappy_df "treatment"))%nat /\
  (2 < List.length (df_get gappy_df "outcome"))%nat /\
  both_coerce (nth 2 (df_get gappy_df "treatment") CMissing,
               nth 2 (df_get gappy_df "outcome") CMissing) = false /\
  compute_uplift_summary (drop_row 2 gappy_df) "treatment" "outcome"
  = compute_uplift_summary gappy_df "treatment" "outcome".
Proof.
  assert (H1 : (2 < List.length (df_get gappy_df "treatment"))%nat)
    by (apply Nat.ltb_lt; vm_compute; reflexivity).
  assert (H2 : (2 < List.length (df_get gappy_df "outcome"))%nat)
    by (apply Nat.ltb_lt; vm_compute; reflexivity).
  assert (H3 : both_coerce (nth 2 (df_get gappy_df "treatment") CMissing,
                            nth 2 (df_get gappy_df "outcome") CMissing) = false)
    by (vm_compute; reflexivity).
  split; [exact H1|]. split; [exact H2|]. split; [exact H3|].
  exact (summary_ignores_uncoerced_row gappy_df "treatment" "outcome" 2 H1 H2 H3).
Defined.

Lemma summary_depends_on_side_only_witness :
  Forall2 same_side (df_get scenario_df "treatment")
    (df_get dosed_df "treatment") /\
  compute_uplift_summary scenario_df "treatment" "outcome"
  = compute_uplift_summary dosed_df "treatment" "outcome".
Proof.
  assert (HF : Forall2 same_side (df_get scenario_df "treatment")
                 (df_get dosed_df "treatment")).
  { repeat constructor. }
  split; [exact HF|].
  apply summary_depends_on_side_only;
    [reflexivity | reflexivity | reflexivity | exact HF].
Defined.

(** ** The causal graph of [get_causal_graph_image] *)

Lemma has_node_In (G : DiGraph) (n : string) :
  has_node G n = true <-> In n (g_nodes G).
Proof.
  unfold has_node. rewrite existsb_exists. split.
  - intros (m & Hm & E). apply String.eqb_eq in E. subst. exact Hm.
  - intros Hn. exists n. split; [exact Hn|apply String.eqb_refl].
Qed.

Lemma has_edge_In (G : DiGraph) (u v : string) :
  has_edge G u v = true <-> In (u, v) (g_edges G).
Proof.
  unfold has_edge. rewrite existsb_exists. split.
  - intros ([a b] & Hm & E). cbn [fst snd] in E.
    apply andb_true_iff in E. destruct E as [E1 E2].
    apply String.eqb_eq in E1, E2. subst. exact Hm.
  - intros Hn. exists (u, v). split; [exact Hn|].
    cbn [fst snd]. rewrite !String.eqb_refl. reflexivity.
Qed.

Lemma add_node_nodes (m : string) (G : DiGraph) (n : string) :
  In n (g_nodes (add_node m G)) <-> n = m \/ In n (g_nodes G).
Proof.
  unfold add_node. destruct (has_node G m) eqn:E.
  - apply has_node_In in E. split; [auto|]. intros [->|Hn]; assumption.
  - cbn [g_nodes]. rewrite in_app_iff. cbn [In]. intuition congruence.
Qed.

Lemma add_node_edges (m : string) (G : DiGraph) :
  g_edges (add_node m G) = g_edges G.
Proof. unfold add_node. destruct (has_node G m); reflexivity. Qed.

Lemma add_node_NoDup (m : string) (G : DiGraph) :
  NoDup (g_nodes G) -> NoDup (g_nodes (add_node m G)).
Proof.
  intros HG. unfold add_node. destruct (has_node G m) eqn:E; [exact HG|].
  cbn [g_nodes]. apply NoDup_app; [exact HG|repeat constructor; intros []|].
  intros x Hx [<-|[]]. apply has_node_In in Hx. congruence.
Qed.

Lemma add_edge_nodes (u v : string) (G : DiGraph) (n : string) :
  In n (g_nodes (add_edge u v G)) <-> n = u \/ n = v \/ In n (g_nodes G).
Proof.
  unfold add_edge. cbv zeta.
  destruct (has_edge _ u v); cbn [g_nodes];
    rewrite !add_node_nodes; intuition.
Qed.

Lemma add_edge_edges (u v : string) (G : DiGraph) (e : string * string) :
  In e (g_edges (add_edge u v G)) <-> e = (u, v) \/ In e (g_edges G).
Proof.
  unfold add_edge. cbv zeta.
  destruct (has_edge _ u v) eqn:E.
  - apply has_edge_In in E. rewrite !add_node_edges in *.
    split; [auto|]. intros [->|He]; assumption.
  - cbn [g_edges]. rewrite in_app_iff, !add_node_edges. cbn [In].
    intuition congruence.
Qed.

Lemma add_edge_NoDup (u v : string) (G : DiGraph) :
  NoDup (g_nodes G) /\ NoDup (g_edges G) ->
  NoDup (g_nodes (add_edge u v G)) /\ NoDup (g_edges (add_edge u v G)).
Proof.
  intros [Hn He]. unfold add_edge. cbv zeta.
  destruct (has_edge _ u v) eqn:E; cbn [g_nodes g_edges].
  - rewrite !add_node_edges. auto using add_node_NoDup.
  - split; [auto using add_node_NoDup|].
    rewrite !add_node_edges.
    apply NoDup_app; [exact He|repeat constructor; intros []|].
    intros x Hx [<-|[]].
    assert (has_edge (add_node v (add_node u G)) u v = true).
    { apply has_edge_In. rewrite !add_node_edges. exact Hx. }
    congruence.
Qed.

Lemma fold_confounders (t o : string) (cs : list string) (G : DiGraph) :
  let G' := fold_left (confounder_step t o) cs G in
  (forall n, In n (g_nodes G') <->
             In n (g_nodes G) \/ In n cs \/ (cs <> [] /\ (n = t \/ n = o))) /\
  (forall e, In e (g_edges G') <->
             In e (g_edges G) \/
             exists c, In c cs /\ (e = (c, t) \/ e = (c, o))) /\
  (NoDup (g_nodes G) /\ NoDup (g_edges G) ->
   NoDup (g_nodes G') /\ NoDup (g_edges G')).
Proof.
  revert G. induction cs as [|c cs IH]; intros G; cbv zeta.
  - cbn [fold_left In]. split; [|split].
    + intros n. intuition.
    + intros e. split; [auto|]. intros [He|(c & [] & _)]. exact He.
    + auto.
  - cbn [fold_left]. specialize (IH (confounder_step t o G c)).
    cbv zeta in IH. destruct IH as (IN & IE & ID).
    split; [|split].
    + intros n. rewrite IN. unfold confounder_step.
      rewrite !add_edge_nodes, add_node_nodes. cbn [In].
      split.
      * intros [[->|[->|[->|[->|[->|Hn]]]]]|[Hn|[Hne Hn]]];
          try (right; left; left; reflexivity);
          try (right; right; split; [discriminate|]; auto; fail);
          auto.
      * intros [Hn|[[<-|Hn]|[_ Hn]]]; auto 10.
        left. destruct Hn as [-> | ->]; auto 10.
    + intros e. rewrite IE. unfold confounder_step.
      rewrite !add_edge_edges, add_node_edges. cbn [In].
      split.
      * intros [[->|[->|He]]|(c' & Hc' & He)]; eauto 10.
      * intros [He|(c' & [<-|Hc'] & [-> | ->])]; eauto 10.
    + intros HD. apply ID. unfold confounder_step.
      apply add_edge_NoDup, add_edge_NoDup.
      rewrite add_node_edges. destruct HD. auto using add_node_NoDup.
Qed.

Lemma causal_graph_unfold (t o : string) (cs : list string) :
  causal_graph t o cs
  = add_edge t o
      (fold_left (confounder_step t o) (clean_confounders t o cs)
         (add_node o (add_node t empty_graph))).
Proof. reflexivity. Qed.

Lemma clean_confounders_In (t o : string) (cs : list string) (c : string) :
  In c (clean_confounders t o cs) <-> In c cs /\ c <> t /\ c <> o.
Proof.
  unfold clean_confounders. rewrite filter_In, andb_true_iff, !negb_true_iff.
  rewrite !String.eqb_neq. reflexivity.
Qed.

Lemma causal_graph_edge_iff (treatment outcome : string)
  (confounders : list string) (u v : string) :
  In (u, v) (g_edges (causal_graph treatment outcome confounders)) <->
  (u = treatment /\ v = outcome) \/
  (In u confounders /\ u <> treatment /\ u <> outcome /\
   (v = treatment \/ v = outcome)).
Proof.
  rewrite causal_graph_unfold, add_edge_edges.
  pose proof (fold_confounders treatment outcome
                (clean_confounders treatment outcome confounders)
                (add_node outcome (add_node treatment empty_graph))) as HF.
  cbv zeta in HF. destruct HF as (_ & HE & _). rewrite HE.
  rewrite !add_node_edges. cbn [g_edges empty_graph In].
  split.
  - intros [E|[[]|(c & Hc & E)]].
    + injection E as -> ->. auto.
    + apply clean_confounders_In in Hc. destruct Hc as (Hc & Ht & Ho).
      right. destruct E as [E|E]; injection E as -> ->; auto.
  - intros [[-> ->]|(Hc & Ht & Ho & Hv)]; [auto|].
    right. right. exists u. split.
    + apply clean_confounders_In. auto.
    + destruct Hv as [-> | ->]; auto.
Qed.

(** X12. The drawn graph has an edge from [u] to [v] exactly when it is
    the edge from the treatment to the outcome, or [u] is a listed
    confounder other than the treatment and the outcome and [v] is the
    treatment or the outcome.  No edge leads into a confounder, and none
    leaves the outcome unless the outcome is also the treatment. *)
Theorem causal_graph_edges (treatment outcome : string)
  (confounders : list string) (u v : string) :
  has_edge (causal_graph treatment outcome confounders) u v = true <->
  (u = treatment /\ v = outcome) \/
  (In u confounders /\ u <> treatment /\ u <> outcome /\
   (v = treatment \/ v = outcome)).
Proof. rewrite has_edge_In. apply causal_graph_edge_iff. Qed.

(** X13. The nodes of the drawn graph are the treatment, the outcome and
    the listed confounders, and the graph holds each node once and each
    edge once, however often a confounder is listed. *)
Theorem causal_graph_nodes (treatment outcome : string)
  (confounders : list string) :
  let G := causal_graph treatment outcome confounders in
  (forall n, In n (g_nodes G) <->
             n = treatment \/ n = outcome \/ In n confounders) /\
  NoDup (g_nodes G) /\ NoDup (g_edges G).
Proof.
  cbv zeta. rewrite causal_graph_unfold.
  pose proof (fold_confounders treatment outcome
                (clean_confounders treatment outcome confounders)
                (add_node outcome (add_node treatment empty_graph))) as HF.
  cbv zeta in HF. destruct HF as (HN & _ & HD).
  split.
  - intros n. rewrite add_edge_nodes, HN, !add_node_nodes.
    cbn [g_nodes empty_graph In]. rewrite clean_confounders_In.
    split.
    + intuition.
    + intros [->|[->|Hn]]; auto.
      destruct (String.eqb_spec n treatment) as [->|Ht]; [auto|].
      destruct (String.eqb_spec n outcome) as [->|Ho]; [auto|].
      right. right. right. left. auto.
  - apply add_edge_NoDup, HD.
    split; [|rewrite !add_node_edges; constructor].
    apply add_node_NoDup, add_node_NoDup. constructor.
Qed.

Lemma layer_edge (t o : string) (cs : list string) (u v : string) :
  t <> o ->
  In (u, v) (g_edges (causal_graph t o cs)) ->
  (layer t o u < layer t o v)%nat.
Proof.
  intros Hto He. apply causal_graph_edge_iff in He. unfold layer.
  destruct He as [[-> ->]|(_ & Ht & Ho & [-> | ->])].
  - rewrite String.eqb_refl.
    apply String.eqb_neq in Hto. rewrite Hto, String.eqb_refl. lia.
  - apply String.eqb_neq in Ht, Ho, Hto.
    rewrite Ho, Ht, Hto, String.eqb_refl. lia.
  - apply String.eqb_neq in Ht, Ho.
    rewrite Ho, Ht, String.eqb_refl. lia.
Qed.

Lemma layer_reach (t o : string) (cs : list string) (u v : string) :
  t <> o ->
  reach (causal_graph t o cs) u v ->
  (layer t o u < layer t o v)%nat.
Proof.
  intros Hto Hr. induction Hr as [u v He|u v w He _ IH].
  - apply (layer_edge t o cs); assumption.
  - pose proof (layer_edge t o cs u v Hto He). lia.
Qed.

(** X14. The drawn graph has a directed cycle exactly when the treatment
    and the outcome are the same column; then the cycle is the loop on
    that node.  For distinct treatment and outcome the graph is acyclic,
    whatever the confounders. *)
Theorem causal_graph_cycle_iff (treatment outcome : string)
  (confounders : list string) :
  (exists n, reach (causal_graph treatment outcome confounders) n n) <->
  treatment = outcome.
Proof.
  split.
  - intros (n & Hn).
    destruct (String.eqb_spec treatment outcome) as [E|E]; [exact E|].
    pose proof (layer_reach treatment outcome confounders n n E Hn). lia.
  - intros <-. exists treatment. apply reach_edge.
    apply causal_graph_edge_iff. auto.
Qed.

(** ** The service *)

Section ServiceFacts.
Context `{Platform} `{TextParsers}.

Lemma load_state_memory (df : DataFrame) (w : World) :
  mem w = Some df -> load_state w = (Some df, w).
Proof. intros E. unfold load_state. rewrite E. reflexivity. Qed.

Lemma load_default_cases (w : World) :
  (exists df, load_default w = (Some df, save_state df w)) \/
  load_default w = (None, w).
Proof.
  unfold load_default.
  destruct (default_exists (disk w)); [|auto].
  destruct (bind _ _) as [df|e]; eauto.
Qed.

Lemma load_state_cases (w : World) :
  (exists df w', load_state w = (Some df, w') /\ mem w' = Some df) \/
  (load_state w = (None, w) /\ mem w = None).
Proof.
  unfold load_state. destruct (mem w) as [df|] eqn:E.
  - left. exists df, w. auto.
  - assert (D : (exists df w', load_default w = (Some df, w') /\ mem w' = Some df)
                \/ (load_default w = (None, w) /\ @None DataFrame = None)).
    { destruct (load_default_cases w) as [(df & ->)| ->]; eauto. }
    destruct (temp_exists (disk w)); [|exact D].
    destruct (read_pickle (disk w)) as [df|e]; [|exact D].
    left. eauto.
Qed.

(** X15. [load_state] settles after one call: a second call returns what
    the first returned and leaves the state as the first left it.  A frame
    found on disk is served from memory from then on, and a failed load
    changes nothing. *)
Theorem load_state_stable (w : World) :
  load_state (snd (load_state w)) = load_state w.
Proof.
  destruct (load_state_cases w) as [(df & w' & E & M)|[E M]]; rewrite E; cbn [snd].
  - apply load_state_memory, M.
  - exact E.
Qed.

(** X16. After an upload or a simulation that answered with success,
    [/columns] answers with the columns that answer reported, whether or
    not the frame could be written to disk and whatever the disk held
    before. *)
Theorem stored_frame_is_served :
  (forall content filename w b w',
      upload_file content filename w = (Http200 b, w') ->
      get_columns w' = (Http200 (columns b), w')) /\
  (forall w b w',
      trigger_simulation w = (Http200 b, w') ->
      get_columns w' = (Http200 (columns b), w')).
Proof.
  assert (S : forall df w,
             get_columns (save_state df w)
             = (Http200 (df_columns df), save_state df w)).
  { intros df w. unfold get_columns.
    rewrite (load_state_memory df) by reflexivity. reflexivity. }
  split.
  - intros content filename w b w'. unfold upload_file.
    destruct (bind _ _) as [df|e]; [|discriminate].
    intros E. injection E as <- <-. apply S.
  - intros w b w'. unfold trigger_simulation.
    destruct simulate_dataset as [df|e]; [|discriminate].
    intros E. injection E as <- <-. apply S.
Qed.

(** X17. An upload that fails answers with status 400 and leaves the
    loaded frame and the disk as they were. *)
Theorem upload_failure (content filename : string) (w w' : World)
  (code : Z) (detail : string) :
  upload_file content filename w = (HTTPException code detail, w') ->
  code = 400 /\ w' = w.
Proof.
  unfold upload_file. destruct (bind _ _) as [df|e]; [discriminate|].
  intros E. injection E as <- _ <-. auto.
Qed.

(** X18. A file whose name ends with none of [.csv], [.xlsx] and [.xls] is
    rejected by [/upload] with status 400 and the message of
    [load_dataset], without being read and without a change of state. *)
Theorem upload_unsupported_format (content filename : string) (w : World) :
  ends_with filename ".csv" = false ->
  ends_with filename ".xlsx" = false ->
  ends_with filename ".xls" = false ->
  upload_file content filename w
  = (HTTPException 400
       "Unsupported file format. Please upload CSV or Excel.", w).
Proof.
  intros E1 E2 E3. unfold upload_file, load_dataset.
  rewrite E1, E2, E3. reflexivity.
Qed.

(** X19. [/analyze] fails in two ways only: with status 400 and "No data
    loaded" when no frame is in memory and none could be loaded, the state
    being unchanged; or with status 500 when a frame was available and the
    estimation or the drawing raised. *)
Theorem analyze_errors
  (treatment outcome : string) (confounders : list string) (w w' : World)
  (code : Z) (detail : string) :
  analyze treatment outcome confounders w = (HTTPException code detail, w') ->
  (code = 400 /\ detail = "No data loaded"%string /\
   load_state w = (None, w) /\ w' = w) \/
  (code = 500 /\ exists df, load_state w = (Some df, w')).
Proof.
  unfold analyze.
  destruct (load_state_cases w) as [(df & w1 & E & M)|[E M]]; rewrite E.
  - destruct (bind _ _) as [body|e]; [discriminate|].
    intros E'. injection E' as <- _ <-. right. eauto.
  - intros E'. injection E' as <- <- <-. left. auto.
Qed.

Lemma clean_confounders_app (t o : string) (cs1 cs2 : list string) (x : string) :
  x = t \/ x = o ->
  clean_confounders t o (cs1 ++ x :: cs2) = clean_confounders t o (cs1 ++ cs2).
Proof.
  intros Hx. unfold clean_confounders. rewrite !filter_app. cbn [filter].
  replace (negb (String.eqb x t) && negb (String.eqb x o)) with false;
    [reflexivity|].
  destruct Hx as [-> | ->]; rewrite String.eqb_refl;
    [reflexivity|symmetry; apply andb_false_r].
Qed.

Lemma analyze_cleaned (t o : string) (cs cs' : list string) (w : World) :
  clean_confounders t o cs = clean_confounders t o cs' ->
  analyze t o cs w = analyze t o cs' w.
Proof.
  intros E. unfold analyze, run_estimate, get_causal_graph_image, causal_graph.
  rewrite E. reflexivity.
Qed.

(** X20. Listing the treatment or the outcome among the confounders has no
    effect on [/analyze]: the answer, result and graph image alike, and the
    state are those of the request without that entry. *)
Theorem analyze_ignores_listed_endpoints
  (treatment outcome : string) (cs1 cs2 : list string) (x : string) (w : World) :
  x = treatment \/ x = outcome ->
  analyze treatment outcome (cs1 ++ x :: cs2) w
  = analyze treatment outcome (cs1 ++ cs2) w.
Proof.
  intros Hx. apply analyze_cleaned, clean_confounders_app, Hx.
Qed.

End ServiceFacts.

Lemma stored_frame_is_served_witness :
  get_columns (snd (upload_file "a" "sales.csv" empty_world))
  = (Http200 ["a"%string], snd (upload_file "a" "sales.csv" empty_world)).
Proof.
  apply (proj1 stored_frame_is_served "a"%string "sales.csv"%string
           empty_world
           (loaded "File uploaded successfully" example_frame)).
  vm_compute. reflexivity.
Defined.

Lemma upload_failure_witness :
  upload_file "PK" "sales.xlsx" empty_world
  = (HTTPException 400 "not a workbook", empty_world) /\
  400 = 400 /\ empty_world = empty_world.
Proof.
  assert (E : upload_file "PK" "sales.xlsx" empty_world
              = (HTTPException 400 "not a workbook", empty_world))
    by (vm_compute; reflexivity).
  split; [exact E|].
  exact (upload_failure "PK" "sales.xlsx" empty_world empty_world 400
           "not a workbook" E).
Defined.

Lemma upload_unsupported_format_witness :
  upload_file "a,b" "sales.txt" empty_world
  = (HTTPException 400
       "Unsupported file format. Please upload CSV or Excel.", empty_world).
Proof.
  apply upload_unsupported_format; vm_compute; reflexivity.
Defined.

Lemma analyze_errors_witness :
  analyze "t" "o" [] empty_world
  = (HTTPException 400 "No data loaded", empty_world) /\
  ((400 = 400 /\ "No data loaded"%string = "No data loaded"%string /\
    load_state empty_world = (None, empty_world) /\ empty_world = empty_world) \/
   (400 = 500 /\ exists df, load_state empty_world = (Some df, empty_world))).
Proof.
  assert (E : analyze "t" "o" [] empty_world
              = (HTTPException 400 "No data loaded", empty_world))
    by (vm_compute; reflexivity).
  split; [exact E|].
  exact (analyze_errors "t" "o" [] empty_world empty_world 400
           "No data loaded" E).
Defined.

Lemma analyze_ignores_listed_endpoints_witness :
  analyze "treatment" "outcome"
    ([] ++ "treatment"%string :: ["region"%string]) scenario_world
  = analyze "treatment" "outcome" ([] ++ ["region"%string]) scenario_world /\
  exists r : CausalResult,
    analyze "treatment" "outcome" ([] ++ ["region"%string]) scenario_world
    = (Http200 (r, "treatment,outcome,region"%string), scenario_world) /\
    estimate_value r = PyFloat (F64.of_Z 1).
Proof.
  split.
  - apply analyze_ignores_listed_endpoints. left. reflexivity.
  - eexists. split; vm_compute; reflexivity.
Defined.
